(** * Retrochat: key hierarchy, vault storage, message repository and backup

    A shallow embedding of the TypeScript sources of the Retrochat client
    core, and the properties of its specification proved (or refuted) on
    that embedding.

    Conventions of the embedding.
    - A JavaScript string is a [string]: a sequence of code units, here the
      code units below 256.  [String.length] is the [.length] of the source.
    - A [Uint8Array] is a [list byte].
    - A JavaScript [number] is a canonical rational, NaN or an infinity.
    - A value of TypeScript type [unknown] is a [value] (a JSON-like tree);
      values with a declared TypeScript type are records.
    - An [async] function is a computation in the monad [M]: it threads the
      [World] (IndexedDB contents, the trace of storage operations, the
      entropy and clock positions, the React session state) and either
      returns or throws.
    - WebCrypto, the noble curves and hashes, zod's [datetime] check, viem's
      [isAddress], JSON and the sources of entropy and time are external to
      the repository: they are the fields of a [Platform].
    - The browser has WebCrypto and IndexedDB, and a read or a write of
      the database that is well formed does not fail: the branches of the
      sources for a missing [crypto] and for a failing storage request are
      not taken.
    - The messages store has its [by-timestamp] index, as in a vault that
      an earlier version of the database created.  ([getDb] looks for the
      store before it creates it; in a vault created at the current
      version the store has no such index, and [listMessages] fails there
      at [store.index] with a NotFoundError.)
    - A message record that decrypts has the declared type, an object with
      an [envelope] of strings and a number.  The source casts the parsed
      JSON unchecked; for JSON of another shape the embedding throws a
      TypeError, as the source does when the record or its envelope is
      [null] or [undefined] and not, as the source does otherwise, after
      hashing the fields as JavaScript prints them. *)

From Stdlib Require Import ZArith QArith Qcanon Ascii String List Bool Lia.
From Stdlib Require Import Strings.Byte DecimalString.
From stdpp Require Import gmap strings list.
Import ListNotations.

Local Open Scope string_scope.
Local Open Scope nat_scope.

(** ** Bytes and strings *)

Abbreviation bytes := (list byte).

Definition byte_of_N (n : N) : byte :=
  match Byte.of_N (n mod 256) with Some b => b | None => x00 end.

Definition code (c : ascii) : N := N_of_ascii c.

(** [Number.prototype.toString(16)] of one nibble. *)
Definition hexDigit (n : N) : ascii :=
  if (n <? 10)%N then ascii_of_N (48 + n) else ascii_of_N (87 + n).

(** [b.toString(16).padStart(2, '0')] for a byte [b]. *)
Definition byteToHex (b : byte) : string :=
  let n := Byte.to_N b in
  String (hexDigit (n / 16)) (String (hexDigit (n mod 16)) EmptyString).

(** [Array.from(bytes).map((b) => b.toString(16).padStart(2, '0')).join('')] *)
Fixpoint toHex (bs : bytes) : string :=
  match bs with
  | [] => ""
  | b :: rest => byteToHex b ++ toHex rest
  end.

Definition isHexDigit (c : ascii) : bool :=
  let n := code c in
  ((48 <=? n) && (n <=? 57) || (97 <=? n) && (n <=? 102)
   || (65 <=? n) && (n <=? 70))%N.

Fixpoint allHex (s : string) : bool :=
  match s with
  | EmptyString => true
  | String c rest => isHexDigit c && allHex rest
  end.

(** The regular expression [/^[0-9a-fA-F]+$/]. *)
Definition HEX_RE (s : string) : bool :=
  match s with EmptyString => false | _ => allHex s end.

(** WhiteSpace and LineTerminator code units (those below 256). *)
Definition isWhiteSpace (c : ascii) : bool :=
  let n := code c in
  ((9 <=? n) && (n <=? 13) || (n =? 32) || (n =? 160))%N.

Fixpoint trimStart (s : string) : string :=
  match s with
  | EmptyString => EmptyString
  | String c rest => if isWhiteSpace c then trimStart rest else s
  end.

Fixpoint trimEnd (s : string) : string :=
  match s with
  | EmptyString => EmptyString
  | String c rest =>
      match trimEnd rest with
      | EmptyString => if isWhiteSpace c then EmptyString else String c EmptyString
      | rest' => String c rest'
      end
  end.

(** [String.prototype.trim] *)
Definition trim (s : string) : string := trimEnd (trimStart s).

Definition lowerChar (c : ascii) : ascii :=
  let n := code c in
  if ((65 <=? n) && (n <=? 90)
      || (192 <=? n) && (n <=? 222) && negb (n =? 215))%N
  then ascii_of_N (n + 32) else c.

(** [String.prototype.toLowerCase] *)
Fixpoint toLowerCase (s : string) : string :=
  match s with
  | EmptyString => EmptyString
  | String c rest => String (lowerChar c) (toLowerCase rest)
  end.

(** [s.startsWith('0x') ? s.slice(2) : s] *)
Definition strip0x (s : string) : string :=
  match s with
  | String "0" (String "x" rest) => rest
  | _ => s
  end.

(** [new TextEncoder().encode(s)]: UTF-8 of code units below 256. *)
Fixpoint utf8 (s : string) : bytes :=
  match s with
  | EmptyString => []
  | String c rest =>
      let n := code c in
      (if (n <? 128)%N then [byte_of_N n]
       else [byte_of_N (192 + n / 64); byte_of_N (128 + n mod 64)]) ++ utf8 rest
  end.

(** Relational operators of JavaScript on strings: code unit order. *)
Definition str_le (a b : string) : bool := String.leb a b.
Definition str_ge (a b : string) : bool := String.leb b a.

(** ** Numbers and values of type [unknown] *)

Inductive number :=
| Finite (q : Qc)
| NaN
| Infinity (negative : bool).

Definition num (z : Z) : number := Finite (Q2Qc (inject_Z z)).

(** [Number.isInteger] *)
Definition isInteger (n : number) : bool :=
  match n with
  | Finite q => Pos.eqb (Qden (this q)) 1
  | _ => false
  end.

(** [a < b] on numbers. *)
Definition num_lt (a b : number) : bool :=
  match a, b with
  | NaN, _ | _, NaN => false
  | Finite x, Finite y => match Qccompare x y with Lt => true | _ => false end
  | Finite _, Infinity neg => negb neg
  | Infinity neg, Finite _ => neg
  | Infinity n1, Infinity n2 => n1 && negb n2
  end.

Global Instance number_eq_dec : EqDecision number.
Proof. solve_decision. Defined.

#[warnings="-register-all"]
Inductive value :=
| VUndefined
| VNull
| VBool (b : bool)
| VNum (n : number)
| VStr (s : string)
| VArr (items : list value)
| VObj (props : list (string * value)).

(** Property read [o[k]] on an object: the first entry of that name. *)
Fixpoint lookupProp (k : string) (props : list (string * value)) : value :=
  match props with
  | [] => VUndefined
  | (k', v) :: rest => if String.eqb k k' then v else lookupProp k rest
  end.

Definition prop (k : string) (v : value) : value :=
  match v with
  | VObj props => lookupProp k props
  | _ => VUndefined
  end.

(** ** Exceptions and results *)

Inductive ErrorClass :=
| JsError
| JsTypeError
| JsSyntaxError
| DOMException (name : string)
| ZodError
| ConversationKeyError
| X25519ValidationError.

Record exn := Exn { cls : ErrorClass; message : string }.

Inductive result (A : Type) :=
| Ok (a : A)
| Throw (e : exn).
Arguments Ok {A} a.
Arguments Throw {A} e.

Definition throwError {A} (msg : string) : result A := Throw (Exn JsError msg).

Definition rbind {A B} (r : result A) (k : A → result B) : result B :=
  match r with
  | Ok a => k a
  | Throw e => Throw e
  end.

Notation "'let?' x ':=' r 'in' k" := (rbind r (fun x => k))
  (at level 10, x name, r at level 100, k at level 200).

(** ** Storage rows and the database *)

Inductive StoreName := keys | contacts | conversations | messages | settings.

Global Instance StoreName_eq_dec : EqDecision StoreName.
Proof. solve_decision. Defined.

Record EncryptedBlob := { iv : bytes; ciphertext : bytes }.

Record VaultRow := {
  id : string;
  blob : EncryptedBlob;
  createdAt : string;
  updatedAt : string
}.

(** The five object stores, each keyed by the row's [id] (keyPath 'id'). *)
Record Db := {
  db_keys : gmap string VaultRow;
  db_contacts : gmap string VaultRow;
  db_conversations : gmap string VaultRow;
  db_messages : gmap string VaultRow;
  db_settings : gmap string VaultRow
}.

Definition emptyDb : Db := Build_Db ∅ ∅ ∅ ∅ ∅.

Definition store_of (d : Db) (s : StoreName) : gmap string VaultRow :=
  match s with
  | keys => db_keys d
  | contacts => db_contacts d
  | conversations => db_conversations d
  | messages => db_messages d
  | settings => db_settings d
  end.

Definition with_store (d : Db) (s : StoreName) (m : gmap string VaultRow) : Db :=
  match s with
  | keys => Build_Db m (db_contacts d) (db_conversations d) (db_messages d) (db_settings d)
  | contacts => Build_Db (db_keys d) m (db_conversations d) (db_messages d) (db_settings d)
  | conversations => Build_Db (db_keys d) (db_contacts d) m (db_messages d) (db_settings d)
  | messages => Build_Db (db_keys d) (db_contacts d) (db_conversations d) m (db_settings d)
  | settings => Build_Db (db_keys d) (db_contacts d) (db_conversations d) (db_messages d) m
  end.

(** Operations on IndexedDB, as they appear in the trace of a run. *)
Inductive DbEvent :=
| EvOpen
| EvGet (s : StoreName) (key : string)
| EvPut (s : StoreName) (key : string)
| EvGetAll (s : StoreName)
| EvOpenCursor (s : StoreName)
| EvDelete (s : StoreName) (key : string)
| EvDeleteDatabase.

(** ** Keys and the session *)

Record CryptoKey := { raw : bytes; extractable : bool }.

Inductive VaultSessionState :=
| Locked
| Unlocking
| Unlocked (key : CryptoKey) (fingerprint : string) (dsk : CryptoKey) (address : string)
| SessionError (error : string).

Record World := {
  db : Db;
  trace : list DbEvent;
  rand_ix : nat;
  time_ix : nat;
  session : VaultSessionState;
  lastUnlockAddressRef : option string;
  console : list string
}.

Definition M (A : Type) : Type := World → result A * World.

Definition ret {A} (a : A) : M A := fun w => (Ok a, w).
Definition throw {A} (e : exn) : M A := fun w => (Throw e, w).
Definition bind {A B} (m : M A) (k : A → M B) : M B :=
  fun w => match m w with
           | (Ok a, w') => k a w'
           | (Throw e, w') => (Throw e, w')
           end.
Definition lift {A} (r : result A) : M A := fun w => (r, w).

(** [try { body } catch (e) { handler e }] *)
Definition try_catch {A} (body : M A) (handler : exn → M A) : M A :=
  fun w => match body w with
           | (Ok a, w') => (Ok a, w')
           | (Throw e, w') => handler e w'
           end.

Declare Scope js_scope.
Delimit Scope js_scope with js.
Notation "'let!' x ':=' m 'in' k" := (bind m (fun x => k))
  (at level 10, x name, m at level 100, k at level 200) : js_scope.
Notation "m ;;; k" := (bind m (fun _ => k))
  (at level 100, right associativity) : js_scope.
Local Open Scope js_scope.

Definition log (e : DbEvent) : M unit :=
  fun w => (Ok tt, Build_World (db w) (trace w ++ [e]) (rand_ix w) (time_ix w)
                     (session w) (lastUnlockAddressRef w) (console w)).

Definition setDb (d : Db) : M unit :=
  fun w => (Ok tt, Build_World d (trace w) (rand_ix w) (time_ix w)
                     (session w) (lastUnlockAddressRef w) (console w)).

Definition setSession (s : VaultSessionState) : M unit :=
  fun w => (Ok tt, Build_World (db w) (trace w) (rand_ix w) (time_ix w)
                     s (lastUnlockAddressRef w) (console w)).

Definition setLastUnlockAddress (a : option string) : M unit :=
  fun w => (Ok tt, Build_World (db w) (trace w) (rand_ix w) (time_ix w)
                     (session w) a (console w)).

Definition console_warn (msg : string) : M unit :=
  fun w => (Ok tt, Build_World (db w) (trace w) (rand_ix w) (time_ix w)
                     (session w) (lastUnlockAddressRef w) (console w ++ [msg])).

(** [getDb()]: open the database. *)
Definition getDb : M unit := log EvOpen.

(** [db.get(store, key)] *)
Definition db_get (s : StoreName) (key : string) : M (option VaultRow) :=
  log (EvGet s key) ;;; fun w => (Ok (store_of (db w) s !! key), w).

(** [db.put(store, row)]: insert or overwrite under the row's [id]. *)
Definition db_put (s : StoreName) (row : VaultRow) : M unit :=
  log (EvPut s (id row)) ;;;
  fun w => setDb (with_store (db w) s (<[id row := row]> (store_of (db w) s))) w.

(** ** core/protocol.ts: the message envelope *)

Module Envelope.
Record t := {
  v : number;
  from : string;
  to : string;
  ts : string;
  nonce : string;
  iv : string;
  ciphertext : string;
  aad : option string
}.
End Envelope.

Abbreviation MessageEnvelope := Envelope.t.

(** The envelope as a JSON value; an absent [aad] is not a property. *)
Definition envelopeValue (e : MessageEnvelope) : value :=
  VObj ([("v", VNum (Envelope.v e));
         ("from", VStr (Envelope.from e));
         ("to", VStr (Envelope.to e));
         ("ts", VStr (Envelope.ts e));
         ("nonce", VStr (Envelope.nonce e));
         ("iv", VStr (Envelope.iv e));
         ("ciphertext", VStr (Envelope.ciphertext e))]
        ++ match Envelope.aad e with
           | Some a => [("aad", VStr a)]
           | None => []
           end).

Definition asNumber (v : value) : option number :=
  match v with VNum n => Some n | _ => None end.

Definition asString (v : value) : option string :=
  match v with VStr s => Some s | _ => None end.

Definition asOptionalString (v : value) : option (option string) :=
  match v with
  | VUndefined => Some None
  | VStr s => Some (Some s)
  | _ => None
  end.

(** A parsed value read at the declared type [MessageEnvelope]. *)
Definition asEnvelope (x : value) : option MessageEnvelope :=
  match x with
  | VObj _ =>
      v ← asNumber (prop "v" x);
      from ← asString (prop "from" x);
      to ← asString (prop "to" x);
      ts ← asString (prop "ts" x);
      nonce ← asString (prop "nonce" x);
      iv ← asString (prop "iv" x);
      ciphertext ← asString (prop "ciphertext" x);
      aad ← asOptionalString (prop "aad" x);
      Some (Envelope.Build_t v from to ts nonce iv ciphertext aad)
  | _ => None
  end.

(** ** crypto/conversationKeys.ts: the result type *)

Module ConversationKeySpec.
Record t := { key : CryptoKey; id : string }.
End ConversationKeySpec.

(** ** storage/backup/backup.ts: the file and payload types *)

Module BackupRowJson.
Record blob_t := { ivHex : string; ciphertextHex : string }.
Record t := { id : string; blob : blob_t; createdAt : string; updatedAt : string }.
End BackupRowJson.

Module BackupPayloadV1.
Record db_t := { name : string; version : number }.
(** [stores] holds the stores that are present, in the order of the keys. *)
Record t := {
  format : string;
  v : number;
  exportedAt : string;
  db : db_t;
  stores : list (StoreName * list BackupRowJson.t)
}.
End BackupPayloadV1.

Module EncryptedBackupFileV1.
Record kdf_t := { name : string; hash : string; saltHex : string; iterations : number }.
Record aead_t := { aead_name : string; ivHex : string; aadLabel : string }.
Record t := {
  format : string;
  v : number;
  createdAt : string;
  kdf : kdf_t;
  aead : aead_t;
  ciphertextHex : string;
  plaintextHashHex : string
}.
End EncryptedBackupFileV1.

Definition storeNameString (s : StoreName) : string :=
  match s with
  | keys => "keys"
  | contacts => "contacts"
  | conversations => "conversations"
  | messages => "messages"
  | settings => "settings"
  end.

Definition storeNameOf (s : string) : option StoreName :=
  if String.eqb s "keys" then Some keys
  else if String.eqb s "contacts" then Some contacts
  else if String.eqb s "conversations" then Some conversations
  else if String.eqb s "messages" then Some messages
  else if String.eqb s "settings" then Some settings
  else None.

Fixpoint lookupStore {A} (s : StoreName) (l : list (StoreName * A)) : option A :=
  match l with
  | [] => None
  | (s', a) :: rest => if bool_decide (s = s') then Some a else lookupStore s rest
  end.

(** The double quote character, for messages that quote a name. *)
Definition dquote : string := String (ascii_of_N 34) EmptyString.

(** ** storage/backup/backup.ts: hex decoding *)

Definition hexDigitValue (c : ascii) : option N :=
  let n := code c in
  if ((48 <=? n) && (n <=? 57))%N then Some (n - 48)%N
  else if ((97 <=? n) && (n <=? 102))%N then Some (n - 87)%N
  else if ((65 <=? n) && (n <=? 70))%N then Some (n - 55)%N
  else None.

(** The value of the longest prefix of radix-16 digits; [None] if it is empty. *)
Fixpoint digitsPrefix (s : string) (acc : option N) : option N :=
  match s with
  | EmptyString => acc
  | String c rest =>
      match hexDigitValue c with
      | Some d => digitsPrefix rest (Some (16 * default 0%N acc + d)%N)
      | None => acc
      end
  end.

(** [Number.parseInt(s, 16)]; [None] is NaN. *)
Definition parseInt16 (s : string) : option Z :=
  let s1 := trimStart s in
  let '(negative, s2) :=
    match s1 with
    | String "-" r => (true, r)
    | String "+" r => (false, r)
    | _ => (false, s1)
    end in
  let s3 :=
    match s2 with
    | String "0" (String "x" r) => r
    | String "0" (String "X" r) => r
    | _ => s2
    end in
  match digitsPrefix s3 None with
  | None => None
  | Some n => Some (if negative : bool then (- Z.of_N n)%Z else Z.of_N n)
  end.

(** Storing a number in a [Uint8Array]: NaN is 0, the rest is taken modulo 256. *)
Definition toUint8 (x : option Z) : byte :=
  match x with
  | None => x00
  | Some z => byte_of_N (Z.to_N (z mod 256))
  end.

Fixpoint fromHexPairs (hex : string) : bytes :=
  match hex with
  | String a (String b rest) =>
      toUint8 (parseInt16 (String a (String b EmptyString))) :: fromHexPairs rest
  | _ => []
  end.

Definition fromHex (hex : string) : result bytes :=
  if Nat.odd (String.length hex) then throwError "Invalid hex string length."
  else Ok (fromHexPairs hex).


(** ** storage/contactsRepo.ts: the contact type *)

(** The fields that [decryptContactRow] reads from parsed JSON hold
    whatever the JSON holds; the others are strings of the row. *)
Module Contact.
Record t := {
  id : string;
  address : value;
  label : value;
  note : value;
  publicKeyHex : value;
  createdAt : string;
  updatedAt : string
}.
End Contact.

(** An optional argument as a value: [undefined] when it is absent. *)
Definition optionalValue (x : option string) : value :=
  match x with
  | Some s => VStr s
  | None => VUndefined
  end.

(** A property of an object literal under [JSON.stringify]: a property
    whose value is [undefined] is left out. *)
Definition optionalProp (k : string) (x : option string) : list (string * value) :=
  match x with
  | Some s => [(k, VStr s)]
  | None => []
  end.

(** [s.startsWith(sub)] *)
Fixpoint startsWith (s sub : string) : bool :=
  match sub, s with
  | EmptyString, _ => true
  | String c sub', String d s' => Ascii.eqb c d && startsWith s' sub'
  | String _ _, EmptyString => false
  end.

(** [s.includes(sub)] *)
Fixpoint includes (s sub : string) : bool :=
  startsWith s sub
  || match s with
     | EmptyString => false
     | String _ s' => includes s' sub
     end.

(** ** crypto/identityKeys.ts: the error class *)

Inductive IdentityKeyError := IdentityKeyErrorOf (message : string).

(** ** crypto/ecdh.ts and crypto/identityKeys.ts: the key pair types *)

Module X25519KeyPair.
Record t := { publicKey : bytes; privateKey : bytes }.
End X25519KeyPair.

Module IdentityPublicKey.
Record t := { algorithm : string; publicKey : string }.
End IdentityPublicKey.

Module IdentityKeyPair.
Record t := { publicKey : IdentityPublicKey.t; privateKey : bytes }.
End IdentityKeyPair.
(** ** The platform *)

Record Platform := {
  (** [sha256] of @noble/hashes and [crypto.subtle.digest('SHA-256', _)] *)
  sha256 : bytes → bytes;
  (** [x25519.getSharedSecret(privateKey, publicKey)]; may throw *)
  x25519_getSharedSecret : bytes → bytes → result bytes;
  (** [crypto.subtle.deriveBits] for HKDF with SHA-256: ikm, salt, info, length *)
  hkdf : bytes → bytes → bytes → nat → bytes;
  (** [crypto.subtle.deriveKey] for PBKDF2 with SHA-256: passphrase, salt, iterations *)
  pbkdf2 : bytes → bytes → number → bytes;
  (** AES-GCM of WebCrypto: key, iv, additional data, text *)
  aes_gcm_encrypt : bytes → bytes → bytes → bytes → bytes;
  aes_gcm_decrypt : bytes → bytes → bytes → bytes → option bytes;
  (** [crypto.getRandomValues]: the bytes of the n-th draw of a given length *)
  getRandomValues : nat → nat → bytes;
  (** [new Date().toISOString()] at the n-th reading of the clock *)
  toISOString : nat → string;
  (** [isAddress] of viem *)
  isAddress : string → bool;
  (** the check of zod's [z.string().datetime()] *)
  datetime : string → bool;
  (** [String.prototype.localeCompare] *)
  localeCompare : string → string → comparison;
  (** [Number.prototype.toString] as used by template literals *)
  numberToString : number → string;
  (** [JSON.parse(new TextDecoder().decode(bytes))]; [None] is a SyntaxError *)
  JSON_parse : bytes → option value;
  (** [new TextEncoder().encode(JSON.stringify(v))] *)
  JSON_stringify : value → bytes;
  (** [deriveSessionKeyMaterial] and [importSessionKey] of crypto/unlock.ts:
      the SHA-256 digest of a label followed by the bytes of the signature,
      and WebCrypto's import of such a digest as an AES-GCM key.  They are
      taken as the session provider calls them: what is proved of the
      provider holds for every pair of such functions. *)
  deriveSessionKeyMaterial : string → bytes;
  importSessionKey : bytes → result CryptoKey
}.

(** ** World accessors *)

Definition getSession : M VaultSessionState := fun w => (Ok (session w), w).
Definition getLastUnlockAddress : M (option string) :=
  fun w => (Ok (lastUnlockAddressRef w), w).
Definition getStore (s : StoreName) : M (gmap string VaultRow) :=
  fun w => (Ok (store_of (db w) s), w).

(** [if (cond) throw e] *)
Definition throwIf (cond : bool) (e : exn) : M unit :=
  if cond then throw e else ret tt.

Definition isSome {A} (o : option A) : bool :=
  match o with Some _ => true | None => false end.

Definition rthrowIf (cond : bool) (e : exn) : result unit :=
  if cond then Throw e else Ok tt.

(** ** core/session/VaultSession.tsx: input shapes *)

(** [/^0x[a-fA-F0-9]{40}$/.test(address)] *)
Definition isValidEthereumAddress (address : string) : bool :=
  match address with
  | String "0" (String "x" rest) => (String.length rest =? 40) && allHex rest
  | _ => false
  end.

(** [/^[a-fA-F0-9]{130}$/.test(clean)] with the optional [0x] removed. *)
Definition isValidSignatureFormat (signature : string) : bool :=
  let clean := strip0x signature in
  (String.length clean =? 130) && allHex clean.

Definition isUnlocked (s : VaultSessionState) : bool :=
  match s with Unlocked _ _ _ _ => true | _ => false end.

Section Model.

Context (P : Platform).

(** ** crypto/random.ts *)

Definition drawRandom (n : nat) : M bytes :=
  fun w => (Ok (getRandomValues P (rand_ix w) n),
            Build_World (db w) (trace w) (S (rand_ix w)) (time_ix w)
              (session w) (lastUnlockAddressRef w) (console w)).

Definition randomBytes (length : Z) : M bytes :=
  if (length <=? 0)%Z then throw (Exn JsError "randomBytes length must be positive")
  else drawRandom (Z.to_nat length).

(** [new Date().toISOString()] *)
Definition nowISO : M string :=
  fun w => (Ok (toISOString P (time_ix w)),
            Build_World (db w) (trace w) (rand_ix w) (S (time_ix w))
              (session w) (lastUnlockAddressRef w) (console w)).

(** ** crypto/aead.ts *)

(** [crypto.subtle.importKey('raw', raw, 'AES-GCM', extractable, _)]:
    AES keys are 128, 192 or 256 bits long. *)
Definition subtle_importKey (rawKey : bytes) (ext : bool) : result CryptoKey :=
  let n := length rawKey in
  if (n =? 16) || (n =? 24) || (n =? 32)
  then Ok {| raw := rawKey; extractable := ext |}
  else Throw (Exn (DOMException "DataError") "Invalid key length").

Definition importAeadKey (rawKey : bytes) : M CryptoKey :=
  lift (subtle_importKey rawKey false).

Definition encryptAead (key : CryptoKey) (plaintext : bytes) (aad : option bytes)
  : M EncryptedBlob :=
  let! iv := randomBytes 12 in
  ret {| iv := iv;
         ciphertext := aes_gcm_encrypt P (raw key) iv (default [] aad) plaintext |}.

Definition decryptAead (key : CryptoKey) (record : EncryptedBlob) (aad : option bytes)
  : M bytes :=
  match aes_gcm_decrypt P (raw key) (iv record) (default [] aad) (ciphertext record) with
  | Some plaintext => ret plaintext
  | None => throw (Exn JsError "AEAD authentication failed")
  end.

(** ** crypto/dsk.ts *)

Definition DSK_AAD_LABEL : bytes := utf8 "retrochat:dsk:v1".

Definition generateDSK : M CryptoKey :=
  let! r := drawRandom 32 in
  ret {| raw := r; extractable := true |}.

Definition exportDSK (key : CryptoKey) : M bytes :=
  if extractable key then ret (raw key)
  else throw (Exn (DOMException "InvalidAccessError") "key is not extractable").

Definition importDSK (rawKey : bytes) : M CryptoKey :=
  lift (subtle_importKey rawKey true).

Definition encryptDSK (dsk sessionKey : CryptoKey) : M EncryptedBlob :=
  let! dskRaw := exportDSK dsk in
  encryptAead sessionKey dskRaw (Some DSK_AAD_LABEL).

(** The promise of [importDSK] is returned from inside the [try] without
    being awaited, so only [decryptAead] is under the [catch]. *)
Definition decryptDSK (encryptedDSK : EncryptedBlob) (sessionKey : CryptoKey)
  : M CryptoKey :=
  let! dskRaw :=
    try_catch (decryptAead sessionKey encryptedDSK (Some DSK_AAD_LABEL))
      (fun error =>
         if String.eqb (message error) "AEAD authentication failed"
         then throw (Exn JsError "Wrong account or corrupted vault. Please reset the vault.")
         else throw error) in
  importDSK dskRaw.

(** ** storage/keys.ts *)

Definition DSK_ID : string := "dsk".

(** [return decryptDSK(...)] hands the promise back without awaiting it:
    the surrounding [catch] never sees its rejection, which reaches the
    caller as it is. *)
Definition getOrCreateDSK (sessionKey : CryptoKey) : M CryptoKey :=
  getDb ;;;
  let! existing := db_get keys DSK_ID in
  match existing with
  | Some row => decryptDSK (blob row) sessionKey
  | None =>
      let! dsk := generateDSK in
      let! encryptedDSK := encryptDSK dsk sessionKey in
      let! now := nowISO in
      db_put keys {| id := DSK_ID; blob := encryptedDSK;
                     createdAt := now; updatedAt := now |} ;;;
      ret dsk
  end.

(** ** core/session/VaultSession.tsx *)

Definition lock : M unit :=
  setLastUnlockAddress None ;;;
  setSession Locked.

(** The callback closes over the [session.status] of the render that
    created it, that is the status before [setSession] runs. *)
Definition unlockFromSignature (signature address : string) : M unit :=
  let! rendered := getSession in
  setSession Unlocking ;;;
  try_catch
    (throwIf (String.eqb address "") (Exn JsError "Missing address for unlock.") ;;;
     throwIf (negb (isValidEthereumAddress address))
       (Exn JsError "Invalid Ethereum address format.") ;;;
     throwIf (String.eqb signature "") (Exn JsError "Missing signature for unlock.") ;;;
     throwIf (negb (isValidSignatureFormat signature))
       (Exn JsError "Invalid signature format.") ;;;
     let normalizedAddress := toLowerCase address in
     let! last := getLastUnlockAddress in
     (match last with
      | Some prev =>
          if negb (String.eqb prev "") && negb (String.eqb prev normalizedAddress)
             && isUnlocked rendered
          then console_warn "Unlock attempt with different address while already unlocked"
          else ret tt
      | None => ret tt
      end) ;;;
     let material := deriveSessionKeyMaterial P signature in
     let! key := lift (importSessionKey P material) in
     let fingerprint := toHex (take 8 material) in
     let! dsk := getOrCreateDSK key in
     setLastUnlockAddress (Some normalizedAddress) ;;;
     setSession (Unlocked key fingerprint dsk normalizedAddress))
    (fun error => setSession (SessionError (message error))).

(** ** storage/vault.ts *)

Definition putEncryptedRecord (store : StoreName) (id : string) (key : CryptoKey)
    (plaintext : bytes) (aad : option bytes) : M unit :=
  getDb ;;;
  let! blob := encryptAead key plaintext aad in
  let! now := nowISO in
  db_put store {| id := id; blob := blob; createdAt := now; updatedAt := now |}.

Definition getDecryptedRecord (store : StoreName) (id : string) (key : CryptoKey)
    (aad : option bytes) : M (option bytes) :=
  getDb ;;;
  let! row := db_get store id in
  match row with
  | None => ret None
  | Some row =>
      let! plaintext := decryptAead key (blob row) aad in
      ret (Some plaintext)
  end.

(** ** core/protocol.ts *)

Definition deriveMessageId (envelope : MessageEnvelope) : string :=
  let combined := Envelope.nonce envelope ++ Envelope.ciphertext envelope in
  let hash := sha256 P (utf8 combined) in
  toHex hash.

(** ** storage/messagesRepo.ts *)

Definition MESSAGES_AAD_LABEL : bytes := utf8 "retrochat:messages:v1".
Definition MESSAGES_STORE : StoreName := messages.
Definition PROTOCOL_VERSION : number := num 1.

(** The private [deriveMessageId] of the repository. *)
Definition repo_deriveMessageId (envelope : MessageEnvelope) : string :=
  toHex (sha256 P (utf8 (Envelope.nonce envelope ++ Envelope.ciphertext envelope))).

(** [JSON.parse(decoded) as MessageRecord], then [record.envelope], for a
    record of the declared type; JSON of another shape is a TypeError
    here. *)
Definition parseMessageRecord (payload : bytes) : result MessageEnvelope :=
  match JSON_parse P payload with
  | None => Throw (Exn JsSyntaxError "Unexpected token in JSON")
  | Some record =>
      match asEnvelope (prop "envelope" record) with
      | Some envelope => Ok envelope
      | None => Throw (Exn JsTypeError "Cannot read properties of the message record")
      end
  end.

Definition decryptMessageRow (row : VaultRow) (conversationKey : CryptoKey)
  : M MessageEnvelope :=
  let! payload := decryptAead conversationKey (blob row) (Some MESSAGES_AAD_LABEL) in
  let! envelope := lift (parseMessageRecord payload) in
  let computedId := repo_deriveMessageId envelope in
  throwIf (negb (String.eqb computedId (id row)))
    (Exn JsError "Message ID mismatch: tampering detected.") ;;;
  ret envelope.

Definition storeMessage (conversationKey : CryptoKey) (envelope : MessageEnvelope)
  : M string :=
  throwIf (negb (bool_decide (Envelope.v envelope = PROTOCOL_VERSION)))
    (Exn JsError ("Unsupported protocol version: " ++ numberToString P (Envelope.v envelope))) ;;;
  let messageId := repo_deriveMessageId envelope in
  let payload := JSON_stringify P (VObj [("envelope", envelopeValue envelope)]) in
  let! blob := encryptAead conversationKey payload (Some MESSAGES_AAD_LABEL) in
  let! now := (if String.eqb (Envelope.ts envelope) "" then nowISO
               else ret (Envelope.ts envelope)) in
  let row := {| id := messageId; blob := blob; createdAt := now; updatedAt := now |} in
  getDb ;;;
  try_catch
    (let! existing := db_get MESSAGES_STORE messageId in
     match existing with
     | Some _ => ret messageId
     | None => db_put MESSAGES_STORE row ;;; ret messageId
     end)
    (fun err => throw (Exn JsError ("Failed to store message: " ++ message err))).

(** [return decryptMessageRow(...)] is not awaited inside the [try]. *)
Definition getMessage (messageId : string) (conversationKey : CryptoKey)
  : M (option MessageEnvelope) :=
  getDb ;;;
  let! row := db_get MESSAGES_STORE messageId in
  match row with
  | None => ret None
  | Some row =>
      let! envelope := decryptMessageRow row conversationKey in
      ret (Some envelope)
  end.

(** The index 'by-timestamp' (key path 'updatedAt') read in direction
    'prev': descending index key, and descending primary key under one
    index key. *)
Definition index_prev_before (a b : VaultRow) : bool :=
  match String.compare (updatedAt a) (updatedAt b) with
  | Gt => true
  | Lt => false
  | Eq => str_ge (id a) (id b)
  end.

Fixpoint index_insert (r : VaultRow) (l : list VaultRow) : list VaultRow :=
  match l with
  | [] => [r]
  | x :: rest => if index_prev_before r x then r :: l else x :: index_insert r rest
  end.

Definition by_timestamp_prev (store : gmap string VaultRow) : list VaultRow :=
  foldr index_insert [] (snd <$> map_to_list store).

(** A cursor is one object for the whole iteration: [pending] holds the
    record under the cursor and those after it, and is empty once the
    cursor has been iterated past the end of the index. *)
Record Cursor := { pending : list VaultRow }.

(** [index.openCursor(null, 'prev')] on the [by-timestamp] index of a
    store that has it: [null] when the index is empty. *)
Definition openCursor : M (option Cursor) :=
  log (EvOpenCursor MESSAGES_STORE) ;;;
  let! store := getStore MESSAGES_STORE in
  match by_timestamp_prev store with
  | [] => ret None
  | rows => ret (Some {| pending := rows |})
  end.

(** [cursor.value]: [undefined] past the end. *)
Definition cursor_value (c : Cursor) : option VaultRow := head (pending c).

(** [cursor.continue()]: advances the cursor object; on a cursor that is
    already past the end it throws. *)
Definition cursor_continue (c : Cursor) : result Cursor :=
  match pending c with
  | [] => Throw (Exn (DOMException "InvalidStateError")
                   "The cursor is being iterated or has iterated past its end.")
  | _ :: rest => Ok {| pending := rest |}
  end.

Definition truthy (s : option string) : bool :=
  match s with Some t => negb (String.eqb t "") | None => false end.

Definition bound (s : option string) : string := default "" s.

(** The [while (cursor && count < limit)] loop.  The variable [cursor] is
    assigned once, from [openCursor]; [await cursor.continue()] advances
    that object and its result is dropped, so the test [cursor &&] holds at
    every iteration and the row is whatever [cursor.value] is.  The
    recursion follows the records left under the cursor. *)
Fixpoint scanLoop (conversationKey : CryptoKey) (limit : number)
    (before after : option string) (left : list VaultRow)
    (messages : list MessageEnvelope) (count : nat) : M (list MessageEnvelope) :=
  if negb (num_lt (num (Z.of_nat count)) limit) then ret messages
  else
    match left with
    | [] =>
        (* [row] is undefined *)
        if truthy before || truthy after
        then throw (Exn JsTypeError "Cannot read properties of undefined (reading 'updatedAt')")
        else
          (* [decryptMessageRow(undefined, _)] rejects and is skipped;
             then [cursor.continue()] *)
          let! _ := lift (cursor_continue {| pending := [] |}) in
          ret messages
    | row :: rest =>
        if truthy before && str_ge (updatedAt row) (bound before)
        then scanLoop conversationKey limit before after rest messages count
        else if truthy after && str_le (updatedAt row) (bound after)
        then ret messages
        else
          fun w =>
            match decryptMessageRow row conversationKey w with
            | (Ok envelope, w') =>
                scanLoop conversationKey limit before after rest
                  (messages ++ [envelope]) (count + 1) w'
            | (Throw _, w') =>
                scanLoop conversationKey limit before after rest messages count w'
            end
    end.

(** [messages.sort((a, b) => b.ts.localeCompare(a.ts))]: a stable sort. *)
Definition newer_or_same (a b : MessageEnvelope) : bool :=
  match localeCompare P (Envelope.ts b) (Envelope.ts a) with
  | Gt => false
  | _ => true
  end.

Fixpoint sort_insert (e : MessageEnvelope) (l : list MessageEnvelope)
  : list MessageEnvelope :=
  match l with
  | [] => [e]
  | x :: rest => if newer_or_same x e then x :: sort_insert e rest else e :: l
  end.

Definition sortNewestFirst (l : list MessageEnvelope) : list MessageEnvelope :=
  foldl (fun acc e => sort_insert e acc) [] l.

Definition listMessages (conversationKey : CryptoKey) (limit : option number)
    (before after : option string) : M (list MessageEnvelope) :=
  let limit := default (num 50) limit in
  getDb ;;;
  let! cursor := openCursor in
  let! messages :=
    match cursor with
    | None => ret []
    | Some c => scanLoop conversationKey limit before after (pending c) [] 0
    end in
  ret (sortNewestFirst messages).

Definition deleteMessage (messageId : string) : M unit :=
  throwIf (String.eqb messageId "") (Exn JsError "Invalid message ID") ;;;
  getDb ;;;
  log (EvDelete MESSAGES_STORE messageId) ;;;
  let! store := getStore MESSAGES_STORE in
  fun w => setDb (with_store (db w) MESSAGES_STORE (delete messageId store)) w.

(** ** crypto/ecdh.ts *)

Definition X25519_KEY_LENGTH : nat := 32.

Definition lengthString (n : nat) : string := numberToString P (num (Z.of_nat n)).

Definition validateX25519Key (key : bytes) (keyType : string) : result unit :=
  if negb (length key =? X25519_KEY_LENGTH)
  then Throw (Exn X25519ValidationError
                ("Invalid " ++ keyType ++ " key length: expected 32 bytes, got "
                 ++ lengthString (length key)))
  else if forallb (fun b => Byte.eqb b x00) key
  then Throw (Exn X25519ValidationError
                ("Invalid " ++ keyType ++ " key: key cannot be all zeros"))
  else Ok tt.

Definition deriveSharedSecret (privateKey peerPublicKey : bytes) : result bytes :=
  let? _ := validateX25519Key privateKey "private" in
  let? _ := validateX25519Key peerPublicKey "public" in
  match x25519_getSharedSecret P privateKey peerPublicKey with
  | Ok secret => Ok secret
  | Throw err =>
      Throw (Exn X25519ValidationError
               ("Failed to derive shared secret: " ++ message err))
  end.

(** ** crypto/kdf.ts *)

Definition hkdfSha256 (ikm salt info : bytes) (length : nat) : bytes :=
  hkdf P ikm salt info length.

(** ** crypto/conversationKeys.ts *)

Definition CONVERSATION_SALT : bytes := utf8 "retrochat:conversation:salt:v1".
Definition CONVERSATION_ID_LENGTH : nat := 16.

Definition validateAddress (address label : string) : result unit :=
  if String.length (trim address) =? 0
  then Throw (Exn ConversationKeyError ("Invalid " ++ label ++ ": address cannot be empty"))
  else if negb (isValidEthereumAddress address)
  then Throw (Exn ConversationKeyError
                ("Invalid " ++ label ++ ": not a valid Ethereum address format"))
  else Ok tt.

Definition validateKey (key : bytes) (label : string) : result unit :=
  if negb (length key =? X25519_KEY_LENGTH)
  then Throw (Exn ConversationKeyError
                ("Invalid " ++ label ++ ": expected 32 bytes, got "
                 ++ lengthString (length key)))
  else Ok tt.

Definition validateEpoch (epoch : number) : result unit :=
  if negb (isInteger epoch) || num_lt epoch (num 0)
  then Throw (Exn ConversationKeyError "Invalid epoch: must be a non-negative integer")
  else Ok tt.

(** [[x, y].sort()]: the default order, by code units. *)
Definition sortPair (x y : string) : string * string :=
  if String.ltb y x then (y, x) else (x, y).

Definition infoString (myAddress peerAddress : string) (epoch : number) : string :=
  let '(a, b) := sortPair (toLowerCase myAddress) (toLowerCase peerAddress) in
  "retrochat:conversation:hkdf:v1|" ++ a ++ "|" ++ b ++ "|epoch=" ++ numberToString P epoch.

Definition deriveConversationKey (myPrivateKey peerPublicKey : bytes)
    (myAddress peerAddress : string) (epoch : option number)
  : result ConversationKeySpec.t :=
  let epoch := default (num 0) epoch in
  let? _ := validateKey myPrivateKey "myPrivateKey" in
  let? _ := validateKey peerPublicKey "peerPublicKey" in
  let? _ := validateAddress myAddress "myAddress" in
  let? _ := validateAddress peerAddress "peerAddress" in
  let? _ := validateEpoch epoch in
  let? sharedSecret :=
    match deriveSharedSecret myPrivateKey peerPublicKey with
    | Ok secret => Ok secret
    | Throw err =>
        match cls err with
        | X25519ValidationError =>
            Throw (Exn ConversationKeyError ("Key derivation failed: " ++ message err))
        | _ => Throw err
        end
    end in
  let info := utf8 (infoString myAddress peerAddress epoch) in
  let keyMaterial := hkdfSha256 sharedSecret CONVERSATION_SALT info 32 in
  let? key := subtle_importKey keyMaterial false in
  let id := toHex (take CONVERSATION_ID_LENGTH keyMaterial) in
  Ok {| ConversationKeySpec.key := key; ConversationKeySpec.id := id |}.

(** ** core/validate/message.ts *)

(** [z.string()] with the two refinements of [HexSchema]. *)
Definition HexSchema (x : value) : option string :=
  s ← asString x;
  if Nat.even (String.length s) && HEX_RE s then Some s else None.

(** [z.number()]: a number that is not NaN. *)
Definition z_number (x : value) : option number :=
  match x with
  | VNum NaN => None
  | VNum n => Some n
  | _ => None
  end.

(** [.int().min(lo).max(hi)] *)
Definition z_int_min_max (lo hi : Z) (n : number) : option number :=
  if isInteger n && negb (num_lt n (num lo)) && negb (num_lt (num hi) n)
  then Some n else None.

(** [.refine(check)] and [z.string().refine(check)] *)
Definition refine (check : string → bool) (s : string) : option string :=
  if check s then Some s else None.

Definition z_string_refine (check : string → bool) (x : value) : option string :=
  asString x ≫= refine check.

(** [schema.optional()] *)
Definition z_optional {A} (schema : value → option A) (x : value) : option (option A) :=
  match x with
  | VUndefined => Some None
  | _ => Some <$> schema x
  end.

Definition hexOfLength (n : nat) (s : string) : bool := String.length s =? n.
Definition nonEmpty (s : string) : bool := 0 <? String.length s.

(** [z.object({...})]: the input is an object and every field parses. *)
Definition MessageEnvelopeSchema (input : value) : option MessageEnvelope :=
  match input with
  | VObj _ =>
      v ← z_number (prop "v" input) ≫= z_int_min_max 1 1;
      from ← z_string_refine (isAddress P) (prop "from" input);
      to ← z_string_refine (isAddress P) (prop "to" input);
      ts ← z_string_refine (datetime P) (prop "ts" input);
      nonce ← HexSchema (prop "nonce" input) ≫= refine (hexOfLength 32);
      iv ← HexSchema (prop "iv" input) ≫= refine (hexOfLength 24);
      ciphertext ← HexSchema (prop "ciphertext" input) ≫= refine nonEmpty;
      aad ← z_optional HexSchema (prop "aad" input);
      Some (Envelope.Build_t v from to ts nonce iv ciphertext aad)
  | _ => None
  end.

Inductive SafeParse :=
| ParseOk (value : MessageEnvelope)
| ParseFailed (error : string).

Definition safeParseMessageEnvelope (input : value) : SafeParse :=
  match MessageEnvelopeSchema input with
  | None => ParseFailed "Invalid message payload."
  | Some data => ParseOk data
  end.

(** ** core/validate/backup.ts *)

Definition z_literal (lit : string) (x : value) : bool :=
  match x with VStr s => String.eqb s lit | _ => false end.

Definition z_literal_num (lit : Z) (x : value) : bool :=
  match x with VNum n => bool_decide (n = num lit) | _ => false end.

Definition isRecord (x : value) : bool :=
  match x with VObj _ => true | _ => false end.

Definition EncryptedBackupFileSchema (file : value) : bool :=
  let kdf := prop "kdf" file in
  let aead := prop "aead" file in
  isRecord file
  && z_literal "retrochat.encrypted-backup" (prop "format" file)
  && z_literal_num 1 (prop "v" file)
  && isSome (z_string_refine (datetime P) (prop "createdAt" file))
  && isRecord kdf
  && z_literal "PBKDF2" (prop "name" kdf)
  && z_literal "SHA-256" (prop "hash" kdf)
  && isSome (HexSchema (prop "saltHex" kdf))
  && isSome (z_number (prop "iterations" kdf) ≫= z_int_min_max 50000 2000000)
  && isRecord aead
  && z_literal "AES-GCM" (prop "name" aead)
  && isSome (HexSchema (prop "ivHex" aead))
  && z_literal "retrochat:backup:v1" (prop "aadLabel" aead)
  && isSome (HexSchema (prop "ciphertextHex" file))
  && isSome (HexSchema (prop "plaintextHashHex" file)).

(** ** storage/db.ts *)

Definition DB_NAME : string := "retrochat-vault".
Definition DB_VERSION : number := num 3.

(** [resetVault()]: open, close, then delete the whole database. *)
Definition resetVault : M unit :=
  getDb ;;;
  log EvDeleteDatabase ;;;
  setDb emptyDb.

(** [db.getAll(store)]: the rows in ascending key order. *)
Fixpoint key_insert (r : VaultRow) (l : list VaultRow) : list VaultRow :=
  match l with
  | [] => [r]
  | x :: rest => if str_le (id r) (id x) then r :: l else x :: key_insert r rest
  end.

Definition db_getAll (s : StoreName) : M (list VaultRow) :=
  log (EvGetAll s) ;;;
  let! store := getStore s in
  ret (foldr key_insert [] (snd <$> map_to_list store)).

(** ** storage/backup/backup.ts *)

Definition BACKUP_AAD : bytes := utf8 "retrochat:backup:v1".
Definition PBKDF2_ITERATIONS : number := num 200000.

Definition assertString (x : value) (label : string) : result string :=
  match x with
  | VStr s => Ok s
  | _ => throwError ("Invalid " ++ label ++ ": expected string.")
  end.

Definition assertNumber (x : value) (label : string) : result number :=
  match x with
  | VNum NaN => throwError ("Invalid " ++ label ++ ": expected number.")
  | VNum n => Ok n
  | _ => throwError ("Invalid " ++ label ++ ": expected number.")
  end.

Definition assertStoreName (s : string) : result StoreName :=
  match storeNameOf s with
  | Some name => Ok name
  | None => throwError "Invalid store name in backup."
  end.

Definition sha256Hex (data : bytes) : string := toHex (sha256 P data).

Definition deriveBackupKey (passphrase : string) (salt : bytes) (iterations : number)
  : CryptoKey :=
  {| raw := pbkdf2 P (utf8 passphrase) salt iterations; extractable := false |}.

Definition encryptBackupPayload (key : CryptoKey) (iv plaintext : bytes) : bytes :=
  aes_gcm_encrypt P (raw key) iv BACKUP_AAD plaintext.

Definition decryptBackupPayload (key : CryptoKey) (iv ciphertext : bytes) : result bytes :=
  match aes_gcm_decrypt P (raw key) iv BACKUP_AAD ciphertext with
  | Some plaintext => Ok plaintext
  | None => throwError "Backup integrity check failed (wrong passphrase or tampered file)."
  end.

Definition serializeRow (row : VaultRow) : BackupRowJson.t :=
  {| BackupRowJson.id := id row;
     BackupRowJson.blob :=
       {| BackupRowJson.ivHex := toHex (iv (blob row));
          BackupRowJson.ciphertextHex := toHex (ciphertext (blob row)) |};
     BackupRowJson.createdAt := createdAt row;
     BackupRowJson.updatedAt := updatedAt row |}.

Definition deserializeRow (row : BackupRowJson.t) : result VaultRow :=
  let? iv := fromHex (BackupRowJson.ivHex (BackupRowJson.blob row)) in
  let? ciphertext := fromHex (BackupRowJson.ciphertextHex (BackupRowJson.blob row)) in
  Ok {| id := BackupRowJson.id row;
        blob := {| iv := iv; ciphertext := ciphertext |};
        createdAt := BackupRowJson.createdAt row;
        updatedAt := BackupRowJson.updatedAt row |}.

(** The body of the loop over the rows of store [s] in [validateBackupPayloadV1]. *)
Definition validateRow (s : string) (r : value) : result BackupRowJson.t :=
  let? _ := rthrowIf (negb (isRecord r))
              (Exn JsError ("Invalid row in " ++ s ++ ": expected object.")) in
  let? id := assertString (prop "id" r) (s ++ ".row.id") in
  let? createdAt := assertString (prop "createdAt" r) (s ++ ".row.createdAt") in
  let? updatedAt := assertString (prop "updatedAt" r) (s ++ ".row.updatedAt") in
  let? _ := rthrowIf (negb (isRecord (prop "blob" r)))
              (Exn JsError ("Invalid row blob in " ++ s ++ ".")) in
  let? ivHex := assertString (prop "ivHex" (prop "blob" r)) (s ++ ".row.blob.ivHex") in
  let? ciphertextHex :=
    assertString (prop "ciphertextHex" (prop "blob" r)) (s ++ ".row.blob.ciphertextHex") in
  let? iv := fromHex ivHex in
  let? ct := fromHex ciphertextHex in
  let? _ := rthrowIf (negb (length iv =? 12))
              (Exn JsError ("Invalid IV length in " ++ s ++ " row (expected 12 bytes).")) in
  let? _ := rthrowIf (length ct =? 0)
              (Exn JsError ("Invalid ciphertext length in " ++ s ++ " row.")) in
  Ok {| BackupRowJson.id := id;
        BackupRowJson.blob :=
          {| BackupRowJson.ivHex := ivHex; BackupRowJson.ciphertextHex := ciphertextHex |};
        BackupRowJson.createdAt := createdAt;
        BackupRowJson.updatedAt := updatedAt |}.

Fixpoint validateRows (s : string) (rows : list value) : result (list BackupRowJson.t) :=
  match rows with
  | [] => Ok []
  | r :: rest =>
      let? row := validateRow s r in
      let? more := validateRows s rest in
      Ok (row :: more)
  end.

(** The loop [for (const s of storeNames)] over [Object.keys(payload.stores)]. *)
Fixpoint validateStores (stores : value) (storeNames : list string)
  : result (list (StoreName * list BackupRowJson.t)) :=
  match storeNames with
  | [] => Ok []
  | s :: rest =>
      let? name := assertStoreName s in
      let? rows :=
        match prop s stores with
        | VArr rows => validateRows s rows
        | _ => throwError ("Invalid payload.stores." ++ s ++ ": expected array.")
        end in
      let? more := validateStores stores rest in
      Ok ((name, rows) :: more)
  end.

Definition objectKeys (x : value) : list string :=
  match x with
  | VObj props => fst <$> props
  | _ => []
  end.

(** [asserts payload is BackupPayloadV1]: the payload at its asserted type. *)
Definition validateBackupPayloadV1 (payload : value) : result BackupPayloadV1.t :=
  let? _ := rthrowIf (negb (isRecord payload))
              (Exn JsError "Invalid backup payload: expected object.") in
  let? _ := rthrowIf (negb (z_literal "retrochat.vault.payload" (prop "format" payload)))
              (Exn JsError "Invalid backup payload format.") in
  let? _ := rthrowIf (negb (z_literal_num 1 (prop "v" payload)))
              (Exn JsError "Unsupported backup payload version.") in
  let? exportedAt := assertString (prop "exportedAt" payload) "payload.exportedAt" in
  let? _ := rthrowIf (negb (isRecord (prop "db" payload))) (Exn JsError "Invalid payload.db.") in
  let? name := assertString (prop "name" (prop "db" payload)) "payload.db.name" in
  let? version := assertNumber (prop "version" (prop "db" payload)) "payload.db.version" in
  let? _ := rthrowIf (negb (isRecord (prop "stores" payload)))
              (Exn JsError "Invalid payload.stores.") in
  let? stores := validateStores (prop "stores" payload) (objectKeys (prop "stores" payload)) in
  Ok {| BackupPayloadV1.format := "retrochat.vault.payload";
        BackupPayloadV1.v := num 1;
        BackupPayloadV1.exportedAt := exportedAt;
        BackupPayloadV1.db := {| BackupPayloadV1.name := name;
                                 BackupPayloadV1.version := version |};
        BackupPayloadV1.stores := stores |}.

(** [asserts file is EncryptedBackupFileV1]: the file at its asserted type. *)
Definition validateEncryptedBackupFileV1 (file : value) : result EncryptedBackupFileV1.t :=
  let kdf := prop "kdf" file in
  let aead := prop "aead" file in
  let? _ := rthrowIf (negb (isRecord file))
              (Exn JsError "Invalid backup file: expected object.") in
  let? _ := rthrowIf (negb (z_literal "retrochat.encrypted-backup" (prop "format" file)))
              (Exn JsError "Invalid backup format.") in
  let? _ := rthrowIf (negb (z_literal_num 1 (prop "v" file)))
              (Exn JsError "Unsupported backup version.") in
  let? createdAt := assertString (prop "createdAt" file) "createdAt" in
  let? _ := rthrowIf (negb (isRecord kdf)) (Exn JsError "Invalid kdf.") in
  let? _ := rthrowIf (negb (z_literal "PBKDF2" (prop "name" kdf)))
              (Exn JsError "Unsupported kdf.") in
  let? _ := rthrowIf (negb (z_literal "SHA-256" (prop "hash" kdf)))
              (Exn JsError "Unsupported kdf hash.") in
  let? saltHex := assertString (prop "saltHex" kdf) "kdf.saltHex" in
  let? iterations := assertNumber (prop "iterations" kdf) "kdf.iterations" in
  let? _ := rthrowIf (num_lt iterations (num 50000) || num_lt (num 2000000) iterations)
              (Exn JsError "Backup KDF iterations out of allowed range.") in
  let? _ := rthrowIf (negb (isRecord aead)) (Exn JsError "Invalid aead.") in
  let? _ := rthrowIf (negb (z_literal "AES-GCM" (prop "name" aead)))
              (Exn JsError "Unsupported aead.") in
  let? ivHex := assertString (prop "ivHex" aead) "aead.ivHex" in
  let? _ := rthrowIf (negb (z_literal "retrochat:backup:v1" (prop "aadLabel" aead)))
              (Exn JsError "Unexpected backup AAD label.") in
  let? ciphertextHex := assertString (prop "ciphertextHex" file) "ciphertextHex" in
  let? plaintextHashHex := assertString (prop "plaintextHashHex" file) "plaintextHashHex" in
  let? salt := fromHex saltHex in
  let? iv := fromHex ivHex in
  let? ct := fromHex ciphertextHex in
  let? hash := fromHex plaintextHashHex in
  let? _ := rthrowIf (negb (length salt =? 16))
              (Exn JsError "Invalid backup salt length (expected 16 bytes).") in
  let? _ := rthrowIf (negb (length iv =? 12))
              (Exn JsError "Invalid backup IV length (expected 12 bytes).") in
  let? _ := rthrowIf (length ct =? 0) (Exn JsError "Invalid backup ciphertext length.") in
  let? _ := rthrowIf (negb (length hash =? 32))
              (Exn JsError "Invalid backup hash length (expected 32 bytes).") in
  Ok {| EncryptedBackupFileV1.format := "retrochat.encrypted-backup";
        EncryptedBackupFileV1.v := num 1;
        EncryptedBackupFileV1.createdAt := createdAt;
        EncryptedBackupFileV1.kdf :=
          {| EncryptedBackupFileV1.name := "PBKDF2";
             EncryptedBackupFileV1.hash := "SHA-256";
             EncryptedBackupFileV1.saltHex := saltHex;
             EncryptedBackupFileV1.iterations := iterations |};
        EncryptedBackupFileV1.aead :=
          {| EncryptedBackupFileV1.aead_name := "AES-GCM";
             EncryptedBackupFileV1.ivHex := ivHex;
             EncryptedBackupFileV1.aadLabel := "retrochat:backup:v1" |};
        EncryptedBackupFileV1.ciphertextHex := ciphertextHex;
        EncryptedBackupFileV1.plaintextHashHex := plaintextHashHex |}.

(** [!passphrase || passphrase.trim().length < 8] *)
Definition passphraseRejected (passphrase : string) : bool :=
  String.eqb passphrase "" || (String.length (trim passphrase) <? 8).

Definition STORES : list StoreName := [keys; contacts; conversations; messages; settings].

Definition rowValue (r : BackupRowJson.t) : value :=
  VObj [("id", VStr (BackupRowJson.id r));
        ("blob", VObj [("ivHex", VStr (BackupRowJson.ivHex (BackupRowJson.blob r)));
                       ("ciphertextHex",
                        VStr (BackupRowJson.ciphertextHex (BackupRowJson.blob r)))]);
        ("createdAt", VStr (BackupRowJson.createdAt r));
        ("updatedAt", VStr (BackupRowJson.updatedAt r))].

Definition payloadValue (p : BackupPayloadV1.t) : value :=
  VObj [("format", VStr (BackupPayloadV1.format p));
        ("v", VNum (BackupPayloadV1.v p));
        ("exportedAt", VStr (BackupPayloadV1.exportedAt p));
        ("db", VObj [("name", VStr (BackupPayloadV1.name (BackupPayloadV1.db p)));
                     ("version", VNum (BackupPayloadV1.version (BackupPayloadV1.db p)))]);
        ("stores",
         VObj ((fun '(s, rows) => (storeNameString s, VArr (rowValue <$> rows)))
                 <$> BackupPayloadV1.stores p))].

(** The loop [for (const store of stores)] that fills [payload.stores]. *)
Fixpoint exportStores (stores : list StoreName)
  : M (list (StoreName * list BackupRowJson.t)) :=
  match stores with
  | [] => ret []
  | store :: rest =>
      let! rows := db_getAll store in
      let! more := exportStores rest in
      ret ((store, serializeRow <$> rows) :: more)
  end.

Definition exportEncryptedBackup (passphrase : string) : M EncryptedBackupFileV1.t :=
  throwIf (passphraseRejected passphrase)
    (Exn JsError "Passphrase must be at least 8 characters.") ;;;
  getDb ;;;
  let! exportedAt := nowISO in
  let! stores := exportStores STORES in
  let payload :=
    {| BackupPayloadV1.format := "retrochat.vault.payload";
       BackupPayloadV1.v := num 1;
       BackupPayloadV1.exportedAt := exportedAt;
       BackupPayloadV1.db := {| BackupPayloadV1.name := DB_NAME;
                                BackupPayloadV1.version := DB_VERSION |};
       BackupPayloadV1.stores := stores |} in
  let plaintext := JSON_stringify P (payloadValue payload) in
  let plaintextHashHex := sha256Hex plaintext in
  let! salt := randomBytes 16 in
  let! iv := randomBytes 12 in
  let key := deriveBackupKey passphrase salt PBKDF2_ITERATIONS in
  let ciphertext := encryptBackupPayload key iv plaintext in
  let! createdAt := nowISO in
  ret {| EncryptedBackupFileV1.format := "retrochat.encrypted-backup";
         EncryptedBackupFileV1.v := num 1;
         EncryptedBackupFileV1.createdAt := createdAt;
         EncryptedBackupFileV1.kdf :=
           {| EncryptedBackupFileV1.name := "PBKDF2";
              EncryptedBackupFileV1.hash := "SHA-256";
              EncryptedBackupFileV1.saltHex := toHex salt;
              EncryptedBackupFileV1.iterations := PBKDF2_ITERATIONS |};
         EncryptedBackupFileV1.aead :=
           {| EncryptedBackupFileV1.aead_name := "AES-GCM";
              EncryptedBackupFileV1.ivHex := toHex iv;
              EncryptedBackupFileV1.aadLabel := "retrochat:backup:v1" |};
         EncryptedBackupFileV1.ciphertextHex := toHex ciphertext;
         EncryptedBackupFileV1.plaintextHashHex := plaintextHashHex |}.

(** The body of the inner preparation loop, with its [try]/[catch]. *)
Definition prepareRow (store : StoreName) (row : BackupRowJson.t) : result VaultRow :=
  match (let? restored := deserializeRow row in
         let? _ := rthrowIf (String.eqb (id restored) "")
                     (Exn JsError ("Invalid row id in store " ++ storeNameString store)) in
         Ok restored) with
  | Ok restored => Ok restored
  | Throw err =>
      throwError ("Failed to prepare backup data for store " ++ dquote
                  ++ storeNameString store ++ dquote ++ ": " ++ message err)
  end.

Fixpoint prepareRows (store : StoreName) (rows : list BackupRowJson.t)
  : result (list VaultRow) :=
  match rows with
  | [] => Ok []
  | row :: rest =>
      let? restored := prepareRow store row in
      let? more := prepareRows store rest in
      Ok (restored :: more)
  end.

(** The outer preparation loop: [payload.stores[store]] is [undefined] for
    a store that the payload does not have, and iterating it throws. *)
Fixpoint prepareStores (payload : BackupPayloadV1.t) (stores : list StoreName)
  : result (list (StoreName * list VaultRow)) :=
  match stores with
  | [] => Ok []
  | store :: rest =>
      let? deserialized :=
        match lookupStore store (BackupPayloadV1.stores payload) with
        | Some rows => prepareRows store rows
        | None => Throw (Exn JsTypeError "rows is not iterable")
        end in
      let? more := prepareStores payload rest in
      Ok ((store, deserialized) :: more)
  end.

Definition restoreRow (store : StoreName) (row : VaultRow) : M unit :=
  try_catch (db_put store row)
    (fun err =>
       console_warn ("Failed to restore row in store " ++ dquote
                     ++ storeNameString store ++ dquote ++ ":") ;;;
       throw (Exn JsError
                ("Critical error during backup restoration in store " ++ dquote
                 ++ storeNameString store ++ dquote ++ ". "
                 ++ "Some data may have been lost. Please contact support."))).

Fixpoint restoreRows (store : StoreName) (rows : list VaultRow) : M unit :=
  match rows with
  | [] => ret tt
  | row :: rest => restoreRow store row ;;; restoreRows store rest
  end.

Fixpoint restoreStores (preparedData : list (StoreName * list VaultRow))
    (stores : list StoreName) : M unit :=
  match stores with
  | [] => ret tt
  | store :: rest =>
      restoreRows store (default [] (lookupStore store preparedData)) ;;;
      restoreStores preparedData rest
  end.

Definition importEncryptedBackup (passphrase : string) (fileJson : value)
    (mode : option string) : M unit :=
  let mode := default "replace" mode in
  throwIf (passphraseRejected passphrase)
    (Exn JsError "Passphrase must be at least 8 characters.") ;;;
  throwIf (negb (String.eqb mode "replace")) (Exn JsError "Unsupported import mode.") ;;;
  throwIf (negb (EncryptedBackupFileSchema fileJson))
    (Exn ZodError "Invalid backup file.") ;;;
  let! file := lift (validateEncryptedBackupFileV1 fileJson) in
  let! salt := lift (fromHex (EncryptedBackupFileV1.saltHex (EncryptedBackupFileV1.kdf file))) in
  let! iv := lift (fromHex (EncryptedBackupFileV1.ivHex (EncryptedBackupFileV1.aead file))) in
  let! ciphertext := lift (fromHex (EncryptedBackupFileV1.ciphertextHex file)) in
  let expectedHashHex := EncryptedBackupFileV1.plaintextHashHex file in
  let key := deriveBackupKey passphrase salt
               (EncryptedBackupFileV1.iterations (EncryptedBackupFileV1.kdf file)) in
  let! plaintextBytes := lift (decryptBackupPayload key iv ciphertext) in
  let actualHashHex := sha256Hex plaintextBytes in
  throwIf (negb (String.eqb actualHashHex expectedHashHex))
    (Exn JsError "Backup integrity check failed (hash mismatch).") ;;;
  let! payloadUnknown :=
    match JSON_parse P plaintextBytes with
    | Some parsed => ret parsed
    | None => throw (Exn JsError "Backup payload is not valid JSON.")
    end in
  let! payload := lift (validateBackupPayloadV1 payloadUnknown) in
  let! preparedData := lift (prepareStores payload STORES) in
  resetVault ;;;
  getDb ;;;
  restoreStores preparedData STORES.

(** ** storage/keys.ts: [getDSK] *)

(** As in [getOrCreateDSK], the promise of [decryptDSK] is returned from
    inside the [try] without being awaited. *)
Definition getDSK (sessionKey : CryptoKey) : M (option CryptoKey) :=
  getDb ;;;
  let! existing := db_get keys DSK_ID in
  match existing with
  | None => ret None
  | Some row =>
      let! dsk := decryptDSK (blob row) sessionKey in
      ret (Some dsk)
  end.

(** ** crypto/identityKeys.ts: hex and record validation *)

(** The loop of [fromHex] over the pairs of digits, from pair [i] on. *)
Fixpoint identityKeys_fromHexLoop (hex : string) (i : nat) : IdentityKeyError + bytes :=
  match hex with
  | String a (String b rest) =>
      match parseInt16 (String a (String b EmptyString)) with
      | None =>
          inl (IdentityKeyErrorOf ("Invalid hex byte at position " ++ lengthString (i * 2)))
      | Some parsed =>
          match identityKeys_fromHexLoop rest (i + 1) with
          | inl e => inl e
          | inr out => inr (toUint8 (Some parsed) :: out)
          end
      end
  | _ => inr []
  end.

(** [fromHex] of the identity keys; the regular expression is
    [/^[0-9a-fA-F]*$/]. *)
Definition identityKeys_fromHex (hex : string) : IdentityKeyError + bytes :=
  if Nat.odd (String.length hex) then inl (IdentityKeyErrorOf "Invalid hex string length.")
  else if negb (allHex hex)
  then inl (IdentityKeyErrorOf "Invalid hex string: contains non-hex characters")
  else identityKeys_fromHexLoop hex 0.

(** [typeof x === 'object' && x !== null]: objects and arrays. *)
Definition isObject (x : value) : bool :=
  match x with
  | VObj _ | VArr _ => true
  | _ => false
  end.

(** [typeof x !== 'string' || x.length === 0] *)
Definition missingString (x : value) : bool :=
  match x with
  | VStr s => String.length s =? 0
  | _ => true
  end.

(** [!/^[0-9a-fA-F]+$/.test(x)] for a value that is a string. *)
Definition notHex (x : value) : bool :=
  match x with
  | VStr s => negb (HEX_RE s)
  | _ => true
  end.

(** [asserts record is IdentityKeyRecord]: the two hex strings of the record. *)
Definition validateIdentityKeyRecord (record : value) : IdentityKeyError + string * string :=
  if negb (isObject record)
  then inl (IdentityKeyErrorOf "Invalid identity key record: expected object")
  else if missingString (prop "publicKeyHex" record)
  then inl (IdentityKeyErrorOf "Invalid identity key record: missing or invalid publicKeyHex")
  else if missingString (prop "privateKeyHex" record)
  then inl (IdentityKeyErrorOf "Invalid identity key record: missing or invalid privateKeyHex")
  else if notHex (prop "publicKeyHex" record)
  then inl (IdentityKeyErrorOf "Invalid identity key record: publicKeyHex is not valid hex")
  else if notHex (prop "privateKeyHex" record)
  then inl (IdentityKeyErrorOf "Invalid identity key record: privateKeyHex is not valid hex")
  else match prop "publicKeyHex" record, prop "privateKeyHex" record with
       | VStr publicKeyHex, VStr privateKeyHex => inr (publicKeyHex, privateKeyHex)
       | _, _ => inl (IdentityKeyErrorOf "Invalid identity key record: expected object")
       end.

(** ** crypto/ecdh.ts: key generation, and crypto/identityKeys.ts *)

Section Identity.

(** [x25519.getPublicKey] of @noble/curves.  [x25519.keygen()] draws 32
    bytes of entropy as the secret key and computes the public key of it. *)
Context (x25519_getPublicKey : bytes → bytes).

Definition generateX25519KeyPair : M X25519KeyPair.t :=
  let! secretKey := drawRandom 32 in
  ret {| X25519KeyPair.publicKey := x25519_getPublicKey secretKey;
         X25519KeyPair.privateKey := secretKey |}.

Definition IDENTITY_KEY_ID : string := "identity-x25519".
Definition IDENTITY_AAD_LABEL : bytes := utf8 "retrochat:identity:x25519:v1".

(** In the functions below an [IdentityKeyError] that is thrown is the
    left summand of the result: nothing in them catches it.  The errors of
    other classes are thrown in [M]. *)
Definition decryptIdentityRecord (blob : EncryptedBlob) (dsk : CryptoKey)
  : M (IdentityKeyError + string * string) :=
  let! payload := decryptAead dsk blob (Some IDENTITY_AAD_LABEL) in
  match JSON_parse P payload with
  | None =>
      ret (inl (IdentityKeyErrorOf "Failed to parse identity key record: invalid JSON"))
  | Some record => ret (validateIdentityKeyRecord record)
  end.

(** [JSON.stringify(record)] of an [IdentityKeyRecord]. *)
Definition identityRecordValue (publicKeyHex privateKeyHex : string) : value :=
  VObj [("publicKeyHex", VStr publicKeyHex); ("privateKeyHex", VStr privateKeyHex)].

Definition x25519PublicKey (publicKeyHex : string) : IdentityPublicKey.t :=
  {| IdentityPublicKey.algorithm := "x25519"; IdentityPublicKey.publicKey := publicKeyHex |}.

Definition getOrCreateIdentityKeyPair (dsk : CryptoKey)
  : M (IdentityKeyError + IdentityKeyPair.t) :=
  getDb ;;;
  let! existing := db_get keys IDENTITY_KEY_ID in
  match existing with
  | Some row =>
      let! record := decryptIdentityRecord (blob row) dsk in
      match record with
      | inl e => ret (inl e)
      | inr (publicKeyHex, privateKeyHex) =>
          match identityKeys_fromHex privateKeyHex with
          | inl e => ret (inl e)
          | inr privateKey =>
              ret (inr {| IdentityKeyPair.publicKey := x25519PublicKey publicKeyHex;
                          IdentityKeyPair.privateKey := privateKey |})
          end
      end
  | None =>
      let! pair := generateX25519KeyPair in
      let publicKeyHex := toHex (X25519KeyPair.publicKey pair) in
      let privateKeyHex := toHex (X25519KeyPair.privateKey pair) in
      let payload := JSON_stringify P (identityRecordValue publicKeyHex privateKeyHex) in
      let! blob := encryptAead dsk payload (Some IDENTITY_AAD_LABEL) in
      let! now := nowISO in
      db_put keys {| id := IDENTITY_KEY_ID; blob := blob;
                     createdAt := now; updatedAt := now |} ;;;
      ret (inr {| IdentityKeyPair.publicKey := x25519PublicKey publicKeyHex;
                  IdentityKeyPair.privateKey := X25519KeyPair.privateKey pair |})
  end.

Definition getIdentityPublicKey (dsk : CryptoKey)
  : M (IdentityKeyError + option IdentityPublicKey.t) :=
  getDb ;;;
  let! existing := db_get keys IDENTITY_KEY_ID in
  match existing with
  | None => ret (inr None)
  | Some row =>
      let! record := decryptIdentityRecord (blob row) dsk in
      match record with
      | inl e => ret (inl e)
      | inr (publicKeyHex, _) => ret (inr (Some (x25519PublicKey publicKeyHex)))
      end
  end.

End Identity.

(** ** storage/contactsRepo.ts and core/validate/address.ts *)

Section Contacts.

(** [getAddress] of viem: the EIP-55 form of an address that [isAddress]
    accepts. *)
Context (getAddress : string → string).

Definition CONTACTS_AAD_LABEL : bytes := utf8 "retrochat:contacts:v1".
Definition CONTACTS_STORE : StoreName := contacts.

Definition normalizeAddress (input : string) : result string :=
  let trimmed := trim input in
  if negb (isAddress P trimmed) then throwError "Invalid wallet address format."
  else Ok (getAddress trimmed).

Definition deriveContactId (address : string) : string :=
  let lower := toLowerCase address in
  let hash := sha256 P (utf8 lower) in
  toHex hash.

(** [data.address] and the like on the parsed JSON: reading a property of
    [null] throws, reading one of any other value gives the property or
    [undefined]. *)
Definition decryptContactRow (row : VaultRow) (dsk : CryptoKey) : M Contact.t :=
  let! payload := decryptAead dsk (blob row) (Some CONTACTS_AAD_LABEL) in
  match JSON_parse P payload with
  | None => throw (Exn JsSyntaxError "Unexpected token in JSON")
  | Some VNull =>
      throw (Exn JsTypeError "Cannot read properties of null (reading 'address')")
  | Some data =>
      ret {| Contact.id := id row;
             Contact.address := prop "address" data;
             Contact.label := prop "label" data;
             Contact.note := prop "note" data;
             Contact.publicKeyHex := prop "publicKeyHex" data;
             Contact.createdAt := createdAt row;
             Contact.updatedAt := updatedAt row |}
  end.

(** The loop [for (const row of rows)] with its [try]/[catch]. *)
Fixpoint decryptContactRows (rows : list VaultRow) (dsk : CryptoKey)
    (contacts : list Contact.t) : M (list Contact.t) :=
  match rows with
  | [] => ret contacts
  | row :: rest =>
      let! contacts :=
        try_catch
          (let! contact := decryptContactRow row dsk in
           ret (contacts ++ [contact])%list)
          (fun _ => ret contacts) in
      decryptContactRows rest dsk contacts
  end.

(** [contacts.sort((a, b) => b.updatedAt.localeCompare(a.updatedAt))]: a
    stable sort. *)
Definition updated_later_or_same (a b : Contact.t) : bool :=
  match localeCompare P (Contact.updatedAt b) (Contact.updatedAt a) with
  | Gt => false
  | _ => true
  end.

Fixpoint contact_sort_insert (c : Contact.t) (l : list Contact.t) : list Contact.t :=
  match l with
  | [] => [c]
  | x :: rest =>
      if updated_later_or_same x c then x :: contact_sort_insert c rest else c :: l
  end.

Definition sortRecentFirst (l : list Contact.t) : list Contact.t :=
  foldl (fun acc c => contact_sort_insert c acc) [] l.

Definition listContacts (dsk : CryptoKey) : M (list Contact.t) :=
  getDb ;;;
  let! rows := db_getAll CONTACTS_STORE in
  let! contacts := decryptContactRows rows dsk [] in
  ret (sortRecentFirst contacts).

(** [x.toLowerCase()] on a field read from JSON: a [TypeError] unless the
    field is a string. *)
Definition lowerOf (x : value) : result string :=
  match x with
  | VStr s => Ok (toLowerCase s)
  | VUndefined =>
      Throw (Exn JsTypeError "Cannot read properties of undefined (reading 'toLowerCase')")
  | VNull => Throw (Exn JsTypeError "Cannot read properties of null (reading 'toLowerCase')")
  | _ => Throw (Exn JsTypeError "toLowerCase is not a function")
  end.

(** [all.filter(...)] with the callback of [searchContacts]. *)
Fixpoint filterContacts (normalizedQuery : string) (all : list Contact.t)
  : result (list Contact.t) :=
  match all with
  | [] => Ok []
  | c :: rest =>
      let? label := lowerOf (Contact.label c) in
      let inLabel := includes label normalizedQuery in
      let? address := lowerOf (Contact.address c) in
      let inAddress := includes address normalizedQuery in
      let? more := filterContacts normalizedQuery rest in
      Ok (if inLabel || inAddress then c :: more else more)
  end.

Definition searchContacts (dsk : CryptoKey) (query : string) : M (list Contact.t) :=
  let normalizedQuery := toLowerCase (trim query) in
  if String.eqb normalizedQuery "" then listContacts dsk
  else
    let! all := listContacts dsk in
    lift (filterContacts normalizedQuery all).

(** The object that [createContact] serialises. *)
Definition contactPayload (address label : string) (note publicKeyHex : option string)
  : value :=
  VObj ([("address", VStr address); ("label", VStr label)]
        ++ optionalProp "note" note ++ optionalProp "publicKeyHex" publicKeyHex)%list.

Definition createContact (dsk : CryptoKey) (address label : string)
    (note publicKeyHex : option string) : M Contact.t :=
  let! checksummed := lift (normalizeAddress address) in
  let id := deriveContactId checksummed in
  let payload := JSON_stringify P (contactPayload checksummed label note publicKeyHex) in
  let! blob := encryptAead dsk payload (Some CONTACTS_AAD_LABEL) in
  let! now := nowISO in
  let row := {| id := id; blob := blob; createdAt := now; updatedAt := now |} in
  getDb ;;;
  try_catch
    (let! existing := db_get CONTACTS_STORE id in
     match existing with
     | Some _ => throw (Exn JsError "A contact with this address already exists.")
     | None => db_put CONTACTS_STORE row
     end)
    (fun err =>
       if includes (message err) "already exists" then throw err
       else throw (Exn JsError ("Failed to create contact: " ++ message err))) ;;;
  ret {| Contact.id := id;
         Contact.address := VStr checksummed;
         Contact.label := VStr label;
         Contact.note := optionalValue note;
         Contact.publicKeyHex := optionalValue publicKeyHex;
         Contact.createdAt := now;
         Contact.updatedAt := now |}.

Definition deleteContact (id : string) : M unit :=
  throwIf (String.eqb id "") (Exn JsError "Invalid contact ID") ;;;
  getDb ;;;
  log (EvDelete CONTACTS_STORE id) ;;;
  let! store := getStore CONTACTS_STORE in
  fun w => setDb (with_store (db w) CONTACTS_STORE (delete id store)) w.

Definition getContactByAddress (dsk : CryptoKey) (address : string)
  : M (option Contact.t) :=
  match normalizeAddress address with
  | Throw _ => ret None
  | Ok checksummed =>
      let id := deriveContactId checksummed in
      getDb ;;;
      let! row := db_get CONTACTS_STORE id in
      match row with
      | None => ret None
      | Some row =>
          try_catch
            (let! contact := decryptContactRow row dsk in
             ret (Some contact))
            (fun _ =>
               console_warn "Failed to decrypt contact row:" ;;;
               ret None)
      end
  end.

(** [AddressSchema]: a string, trimmed, that [isAddress] accepts, in its
    EIP-55 form. *)
Definition AddressSchema (input : value) : option string :=
  s ← asString input;
  refine (isAddress P) (trim s) ≫= fun v => Some (getAddress v).

Inductive SafeParseAddress :=
| AddressOk (value : string)
| AddressFailed (error : string).

Definition safeParseAddress (input : value) : SafeParseAddress :=
  match AddressSchema input with
  | None => AddressFailed "Invalid wallet address."
  | Some data => AddressOk data
  end.

End Contacts.

End Model.

(** * A test double of the platform

    A deterministic stand-in for what the repository takes from its
    environment, in the manner of the repository's own mocks: it has the
    interfaces and the algebraic behaviour of the real primitives (a key
    agreement, an authenticated cipher that round-trips and checks its tag,
    a serialisation that parses back) without their cryptographic strength.
    It serves to run the model on concrete inputs. *)

Module Mock.

Local Open Scope list_scope.

Definition le_decode (bs : bytes) : N :=
  foldr (fun b acc => (Byte.to_N b + 256 * acc)%N) 0%N bs.

Fixpoint le_encode (len : nat) (n : N) : bytes :=
  match len with
  | 0 => []
  | S k => byte_of_N (N.land n 255) :: le_encode k (N.shiftr n 8)
  end.

Definition mask256 : N := Eval vm_compute in (2 ^ 256 - 1)%N.

(** A 256-bit rolling checksum in the place of SHA-256. *)
Definition sha256 (data : bytes) : bytes :=
  le_encode 32
    (foldl (fun acc b => N.land (acc * 1000003 + Byte.to_N b + 1) mask256)
       0x6a09e667bb67ae853c6ef372a54ff53a%N data).

Definition xorBytes (a b : bytes) : bytes :=
  zip_with (fun x y => byte_of_N (N.lxor (Byte.to_N x) (Byte.to_N y))) a b.

(** [len] bytes expanded from a seed, block after block. *)
Fixpoint expand (seed : bytes) (blocks : nat) (counter : N) : bytes :=
  match blocks with
  | 0 => []
  | S k => sha256 (seed ++ le_encode 4 counter) ++ expand seed k (counter + 1)
  end.

Definition stream (seed : bytes) (len : nat) : bytes :=
  take len (expand seed (S (len / 32)) 0).

(** Diffie-Hellman in the multiplicative group modulo 2^255 - 19. *)
Definition p25519 : N := Eval vm_compute in (2 ^ 255 - 19)%N.

Definition mask255 : N := Eval vm_compute in (2 ^ 255 - 1)%N.

(** Reduction modulo 2^255 - 19 of a number below 2^510, by folding the
    high part onto the low part. *)
Definition reduce (x : N) : N :=
  let y := (N.land x mask255 + 19 * N.shiftr x 255)%N in
  let z := (N.land y mask255 + 19 * N.shiftr y 255)%N in
  if (p25519 <=? z)%N then (z - p25519)%N else z.

Fixpoint powmod_pos (b : N) (e : positive) : N :=
  match e with
  | xH => reduce b
  | xO e' => let r := powmod_pos b e' in reduce (r * r)
  | xI e' => let r := powmod_pos b e' in reduce (reduce (r * r) * reduce b)
  end.

Definition powmod (b e : N) : N :=
  match e with
  | N0 => 1%N
  | Npos e' => powmod_pos b e'
  end.

Definition x25519_getPublicKey (privateKey : bytes) : bytes :=
  le_encode 32 (powmod 9 (le_decode privateKey)).

Definition x25519_getSharedSecret (privateKey publicKey : bytes) : result bytes :=
  let s := powmod (le_decode publicKey) (le_decode privateKey) in
  if (s =? 0)%N then Throw (Exn JsError "invalid private or public key received")
  else Ok (le_encode 32 s).

Definition hkdf (ikm salt info : bytes) (len : nat) : bytes :=
  stream (sha256 (salt ++ ikm) ++ info) len.

Definition decimal (z : Z) : string := NilZero.string_of_int (Z.to_int z).

Definition numberToString (n : number) : string :=
  match n with
  | Finite q =>
      if Pos.eqb (Qden (this q)) 1 then decimal (Qnum (this q))
      else (decimal (Qnum (this q)) ++ "/" ++ decimal (Zpos (Qden (this q))))%string
  | NaN => "NaN"
  | Infinity true => "-Infinity"
  | Infinity false => "Infinity"
  end.

Definition pbkdf2 (passphrase salt : bytes) (iterations : number) : bytes :=
  sha256 (sha256 passphrase ++ salt ++ utf8 (numberToString iterations)).

(** Encrypt with a key stream, then append a 16-byte tag over the key,
    the IV, the additional data and the ciphertext. *)
Definition tag (key iv aad body : bytes) : bytes :=
  take 16 (sha256 (sha256 key ++ sha256 iv ++ sha256 aad ++ body)).

Definition aes_gcm_encrypt (key iv aad plaintext : bytes) : bytes :=
  let body := xorBytes plaintext (stream (key ++ iv) (length plaintext)) in
  body ++ tag key iv aad body.

Fixpoint eqBytes (a b : bytes) : bool :=
  match a, b with
  | [], [] => true
  | x :: a', y :: b' => Byte.eqb x y && eqBytes a' b'
  | _, _ => false
  end.

Definition aes_gcm_decrypt (key iv aad data : bytes) : option bytes :=
  let n := length data - 16 in
  let body := take n data in
  if (16 <=? length data) && eqBytes (drop n data) (tag key iv aad body)
  then Some (xorBytes body (stream (key ++ iv) n))
  else None.

Definition getRandomValues (draw len : nat) : bytes :=
  stream (le_encode 8 (N.of_nat draw)) len.

Definition twoDigits (n : nat) : string :=
  (decimal (Z.of_nat (n / 10 mod 10)) ++ decimal (Z.of_nat (n mod 10)))%string.

(** A clock that advances by one second at every reading. *)
Definition toISOString (tick : nat) : string :=
  ("2024-01-01T00:" ++ twoDigits (tick / 60) ++ ":" ++ twoDigits (tick mod 60)
   ++ ".000Z")%string.

(** The addresses viem accepts without computing a checksum: the
    all-lowercase ones.  Mixed-case addresses, which viem checks against
    their Keccak checksum, are not accepted by this double. *)
Definition isAddress (s : string) : bool :=
  isValidEthereumAddress s && String.eqb (toLowerCase s) s.

Definition isDigit (c : ascii) : bool :=
  let n := code c in ((48 <=? n) && (n <=? 57))%N.

Fixpoint matchShape (shape s : string) : bool :=
  match shape, s with
  | EmptyString, EmptyString => true
  | String "d" shape', String c s' => isDigit c && matchShape shape' s'
  | String k shape', String c s' => Ascii.eqb k c && matchShape shape' s'
  | _, _ => false
  end.

(** UTC date-times with seconds or milliseconds, as [toISOString] prints them. *)
Definition datetime (s : string) : bool :=
  matchShape "dddd-dd-ddTdd:dd:ddZ" s || matchShape "dddd-dd-ddTdd:dd:dd.dddZ" s.

Definition localeCompare (a b : string) : comparison := String.compare a b.

(** A tagged serialisation of values in the place of JSON text. *)
Definition encodeString (s : string) : bytes :=
  le_encode 4 (N.of_nat (String.length s)) ++ utf8 s.

Definition encodeNumber (n : number) : bytes :=
  match n with
  | Finite q =>
      let z := Qnum (this q) in
      [x00; if (z <? 0)%Z then x01 else x00]
        ++ le_encode 32 (Z.to_N (Z.abs z)) ++ le_encode 32 (Npos (Qden (this q)))
  | NaN => [x01]
  | Infinity negative => [x02; if negative then x01 else x00]
  end.

Fixpoint encode (v : value) : bytes :=
  match v with
  | VUndefined => [x00]
  | VNull => [x01]
  | VBool b => [x02; if b then x01 else x00]
  | VNum n => x03 :: encodeNumber n
  | VStr s => x04 :: encodeString s
  | VArr items =>
      x05 :: le_encode 4 (N.of_nat (length items))
        ++ (fix each (l : list value) : bytes :=
              match l with
              | [] => []
              | x :: rest => encode x ++ each rest
              end) items
  | VObj props =>
      x06 :: le_encode 4 (N.of_nat (length props))
        ++ (fix each (l : list (string * value)) : bytes :=
              match l with
              | [] => []
              | (k, x) :: rest => encodeString k ++ encode x ++ each rest
              end) props
  end.

Definition JSON_stringify (v : value) : bytes := encode v.

(** Bytes 128 and above do not occur in the strings of the examples. *)
Definition decodeString (data : bytes) : option (string * bytes) :=
  let n := N.to_nat (le_decode (take 4 data)) in
  let body := take n (drop 4 data) in
  if (4 <=? length data) && (length body =? n)
  then Some (string_of_list_ascii ((fun b => ascii_of_N (Byte.to_N b)) <$> body),
             drop (4 + n) data)
  else None.

Definition decodeNumber (data : bytes) : option (number * bytes) :=
  match data with
  | x00 :: sign :: rest =>
      let z := Z.of_N (le_decode (take 32 rest)) in
      let d := le_decode (take 32 (drop 32 rest)) in
      match d with
      | Npos den =>
          if 64 <=? length rest
          then Some (Finite (Q2Qc (Qmake (if Byte.eqb sign x01 then (- z)%Z else z) den)),
                     drop 64 rest)
          else None
      | N0 => None
      end
  | x01 :: rest => Some (NaN, rest)
  | x02 :: sign :: rest => Some (Infinity (Byte.eqb sign x01), rest)
  | _ => None
  end.

Fixpoint decode (fuel : nat) (data : bytes) : option (value * bytes) :=
  match fuel with
  | 0 => None
  | S fuel' =>
      match data with
      | x00 :: rest => Some (VUndefined, rest)
      | x01 :: rest => Some (VNull, rest)
      | x02 :: b :: rest => Some (VBool (Byte.eqb b x01), rest)
      | x03 :: rest => '(n, rest') ← decodeNumber rest; Some (VNum n, rest')
      | x04 :: rest => '(s, rest') ← decodeString rest; Some (VStr s, rest')
      | x05 :: rest =>
          '(items, rest') ←
            (fix each (count : nat) (data : bytes) : option (list value * bytes) :=
               match count with
               | 0 => Some ([], data)
               | S k =>
                   '(x, data') ← decode fuel' data;
                   '(more, data'') ← each k data';
                   Some (x :: more, data'')
               end) (N.to_nat (le_decode (take 4 rest))) (drop 4 rest);
          Some (VArr items, rest')
      | x06 :: rest =>
          '(props, rest') ←
            (fix each (count : nat) (data : bytes)
               : option (list (string * value) * bytes) :=
               match count with
               | 0 => Some ([], data)
               | S k =>
                   '(name, data') ← decodeString data;
                   '(x, data'') ← decode fuel' data';
                   '(more, data''') ← each k data'';
                   Some ((name, x) :: more, data''')
               end) (N.to_nat (le_decode (take 4 rest))) (drop 4 rest);
          Some (VObj props, rest')
      | _ => None
      end
  end.

Definition JSON_parse (data : bytes) : option value :=
  match decode (S (length data)) data with
  | Some (v, []) => Some v
  | _ => None
  end.

(** As crypto/unlock.ts: the digest of the label followed by the bytes
    that the signature, without its [0x], is the hex encoding of. *)
Definition KEY_DERIVATION_LABEL : string := "retrochat:vault:session-key:v1".

Definition deriveSessionKeyMaterial (signatureHex : string) : bytes :=
  let clean := strip0x signatureHex in
  let sigBytes := fromHexPairs clean in
  let labelBytes := utf8 KEY_DERIVATION_LABEL in
  sha256 (labelBytes ++ sigBytes).

Definition importSessionKey (material : bytes) : result CryptoKey :=
  Ok {| raw := material; extractable := false |}.

Definition platform : Platform :=
  Build_Platform sha256 x25519_getSharedSecret hkdf pbkdf2 aes_gcm_encrypt
    aes_gcm_decrypt getRandomValues toISOString isAddress datetime localeCompare
    numberToString JSON_parse JSON_stringify deriveSessionKeyMaterial importSessionKey.

(** A stand-in for the EIP-55 form, which viem computes from a Keccak
    digest: the hex letters at the even places of the address are put in
    upper case.  As the real one, it changes the case of letters only. *)
Definition upperHex (c : ascii) : ascii :=
  let n := code c in
  if ((97 <=? n) && (n <=? 102))%N then ascii_of_N (n - 32) else c.

Fixpoint mixCase (s : string) (upper : bool) : string :=
  match s with
  | EmptyString => EmptyString
  | String c rest => String (if upper then upperHex c else c) (mixCase rest (negb upper))
  end.

Definition getAddress (address : string) : string :=
  match address with
  | String a (String b rest) => String a (String b (mixCase (toLowerCase rest) true))
  | _ => address
  end.

End Mock.


(** * Vocabulary of the statements *)

(** The world [w] with its session replaced. *)
Definition withSession (w : World) (s : VaultSessionState) : World :=
  Build_World (db w) (trace w) (rand_ix w) (time_ix w) s
    (lastUnlockAddressRef w) (console w).

Definition validationMessages : list string :=
  ["Missing address for unlock."; "Invalid Ethereum address format.";
   "Missing signature for unlock."; "Invalid signature format."].

Definition WRONG_ACCOUNT : string :=
  "Wrong account or corrupted vault. Please reset the vault.".

Definition PASSPHRASE_ERROR : exn :=
  Exn JsError "Passphrase must be at least 8 characters.".

Definition INVALID_PAYLOAD : string := "Invalid message payload.".

Definition PAST_THE_END : exn :=
  Exn (DOMException "InvalidStateError")
    "The cursor is being iterated or has iterated past its end.".

(** A usable X25519 key: 32 bytes, not all of them zero. *)
Definition validKey (key : bytes) : Prop :=
  length key = 32 ∧ forallb (fun b => Byte.eqb b x00) key = false.

(** The string is hex that decodes to exactly [n] bytes. *)
Definition hexBytes (s : string) (n : nat) : Prop :=
  allHex s = true ∧ String.length s = 2 * n.

(** The string is valid hex: it decodes to at least one byte. *)
Definition validHex (s : string) : Prop := ∃ n, 1 ≤ n ∧ hexBytes s n.

(** The envelope schema in the words of the specification: the input is
    an object with version 1, well-formed addresses, an ISO-8601
    timestamp, a 16-byte nonce, a 12-byte IV, a ciphertext of at least one
    byte and, when present, an [aad] that is valid hex. *)
Definition acceptedEnvelope (P : Platform) (input : value) : Prop :=
  isRecord input = true
  ∧ prop "v" input = VNum (num 1)
  ∧ (∃ s, prop "from" input = VStr s ∧ isAddress P s = true)
  ∧ (∃ s, prop "to" input = VStr s ∧ isAddress P s = true)
  ∧ (∃ s, prop "ts" input = VStr s ∧ datetime P s = true)
  ∧ (∃ s, prop "nonce" input = VStr s ∧ hexBytes s 16)
  ∧ (∃ s, prop "iv" input = VStr s ∧ hexBytes s 12)
  ∧ (∃ s, prop "ciphertext" input = VStr s ∧ validHex s)
  ∧ (prop "aad" input = VUndefined ∨ ∃ s, prop "aad" input = VStr s ∧ validHex s).

(** The row that [storeMessage] builds for an envelope in world [w]. *)
Definition storedRow (P : Platform) (key : CryptoKey) (envelope : MessageEnvelope)
    (w : World) : VaultRow :=
  let iv := getRandomValues P (rand_ix w) 12 in
  let payload := JSON_stringify P (VObj [("envelope", envelopeValue envelope)]) in
  let now := if String.eqb (Envelope.ts envelope) "" then toISOString P (time_ix w)
             else Envelope.ts envelope in
  {| id := repo_deriveMessageId P envelope;
     blob := {| iv := iv;
                ciphertext := aes_gcm_encrypt P (raw key) iv MESSAGES_AAD_LABEL payload |};
     createdAt := now; updatedAt := now |}.

(** The row that [putEncryptedRecord] builds in world [w]. *)
Definition putRecordRow (P : Platform) (id : string) (key : CryptoKey)
    (plaintext : bytes) (aad : option bytes) (w : World) : VaultRow :=
  let now := toISOString P (time_ix w) in
  let iv := getRandomValues P (rand_ix w) 12 in
  {| id := id;
     blob := {| iv := iv;
                ciphertext := aes_gcm_encrypt P (raw key) iv (default [] aad) plaintext |};
     createdAt := now; updatedAt := now |}.

Definition putRow (s : StoreName) (d : Db) (row : VaultRow) : Db :=
  with_store d s (<[id row := row]> (store_of d s)).

Definition putRows (d : Db) (s : StoreName) (rows : list VaultRow) : Db :=
  foldl (putRow s) d rows.

(** The vault that holds exactly the prepared rows of a backup. *)
Definition restoredDb (preparedData : list (StoreName * list VaultRow)) : Db :=
  foldl (fun d s => putRows d s (default [] (lookupStore s preparedData))) emptyDb STORES.

Definition isPut (ev : DbEvent) : Prop := ∃ s k, ev = EvPut s k.

Definition UNDEFINED_ROW : exn :=
  Exn JsTypeError "Cannot read properties of undefined (reading 'updatedAt')".

(** The world [w] after the storage operations [events], which read only. *)
Definition logged (w : World) (events : list DbEvent) : World :=
  Build_World (db w) (trace w ++ events) (rand_ix w) (time_ix w) (session w)
    (lastUnlockAddressRef w) (console w).

Definition isEmpty {A} (l : list A) : bool :=
  match l with [] => true | _ => false end.

(** The outcome of opening one row: decryption, parsing, id check. *)
Definition openRow (P : Platform) (key : CryptoKey) (row : VaultRow)
  : option MessageEnvelope :=
  match aes_gcm_decrypt P (raw key) (iv (blob row)) MESSAGES_AAD_LABEL
          (ciphertext (blob row)) with
  | None => None
  | Some payload =>
      match parseMessageRecord P payload with
      | Throw _ => None
      | Ok envelope =>
          if String.eqb (repo_deriveMessageId P envelope) (id row) then Some envelope
          else None
      end
  end.

(** The scan of the specification over the rows of the index, newest
    first: rows at or after [before] are passed over, the scan ends at the
    first row at or before [after], rows that do not open are passed over,
    and at most [limit] messages are taken. *)
Fixpoint collect (P : Platform) (key : CryptoKey) (before after : option string)
    (limit : nat) (rows : list VaultRow) : list MessageEnvelope :=
  match limit, rows with
  | 0, _ => []
  | _, [] => []
  | S n, row :: rest =>
      if truthy before && str_ge (updatedAt row) (bound before)
      then collect P key before after limit rest
      else if truthy after && str_le (updatedAt row) (bound after)
      then []
      else match openRow P key row with
           | Some envelope => envelope :: collect P key before after n rest
           | None => collect P key before after limit rest
           end
  end.

(** The scan ends before the index does: the limit is reached, or a row at
    or before [after] is met. *)
Fixpoint endsInside (P : Platform) (key : CryptoKey) (before after : option string)
    (limit : nat) (rows : list VaultRow) : bool :=
  match limit, rows with
  | 0, _ => true
  | _, [] => false
  | S n, row :: rest =>
      if truthy before && str_ge (updatedAt row) (bound before)
      then endsInside P key before after limit rest
      else if truthy after && str_le (updatedAt row) (bound after)
      then true
      else match openRow P key row with
           | Some _ => endsInside P key before after n rest
           | None => endsInside P key before after limit rest
           end
  end.

(** [n] collected messages are fewer than the limit. *)
Definition below (limit : number) (n : nat) : Prop :=
  num_lt (num (Z.of_nat n)) limit = true.

(** The encrypted backup file as the JSON value that is handed to import. *)
Definition fileValue (f : EncryptedBackupFileV1.t) : value :=
  VObj [("format", VStr (EncryptedBackupFileV1.format f));
        ("v", VNum (EncryptedBackupFileV1.v f));
        ("createdAt", VStr (EncryptedBackupFileV1.createdAt f));
        ("kdf",
         VObj [("name", VStr (EncryptedBackupFileV1.name (EncryptedBackupFileV1.kdf f)));
               ("hash", VStr (EncryptedBackupFileV1.hash (EncryptedBackupFileV1.kdf f)));
               ("saltHex", VStr (EncryptedBackupFileV1.saltHex (EncryptedBackupFileV1.kdf f)));
               ("iterations",
                VNum (EncryptedBackupFileV1.iterations (EncryptedBackupFileV1.kdf f)))]);
        ("aead",
         VObj [("name", VStr (EncryptedBackupFileV1.aead_name (EncryptedBackupFileV1.aead f)));
               ("ivHex", VStr (EncryptedBackupFileV1.ivHex (EncryptedBackupFileV1.aead f)));
               ("aadLabel",
                VStr (EncryptedBackupFileV1.aadLabel (EncryptedBackupFileV1.aead f)))]);
        ("ciphertextHex", VStr (EncryptedBackupFileV1.ciphertextHex f));
        ("plaintextHashHex", VStr (EncryptedBackupFileV1.plaintextHashHex f))].

(** The blob that [encryptAead] makes of [plaintext] with the IV of the
    [n]-th draw of entropy. *)
Definition sealedAt (P : Platform) (key : CryptoKey) (aad : option bytes)
    (plaintext : bytes) (n : nat) : EncryptedBlob :=
  let iv := getRandomValues P n 12 in
  {| iv := iv;
     ciphertext := aes_gcm_encrypt P (raw key) iv (default [] aad) plaintext |}.

(** AES-GCM under [key] and [aad] authenticates [blob] and decrypts it to
    [plaintext]. *)
Definition opens (P : Platform) (key : CryptoKey) (aad : option bytes)
    (blob : EncryptedBlob) (plaintext : bytes) : Prop :=
  aes_gcm_decrypt P (raw key) (iv blob) (default [] aad) (ciphertext blob)
  = Some plaintext.

(** The session is settled: unlocked, or in error. *)
Definition settled (s : VaultSessionState) : Prop :=
  match s with
  | Unlocked _ _ _ _ | SessionError _ => True
  | Locked | Unlocking => False
  end.

(** The DSK that [generateDSK] makes from the [n]-th draw of entropy. *)
Definition dskAt (P : Platform) (n : nat) : CryptoKey :=
  {| raw := getRandomValues P n 32; extractable := true |}.

(** The row under which [getOrCreateDSK] keeps the DSK that it generates
    in world [w]. *)
Definition dskRow (P : Platform) (sessionKey : CryptoKey) (w : World) : VaultRow :=
  {| id := DSK_ID;
     blob := sealedAt P sessionKey (Some DSK_AAD_LABEL) (raw (dskAt P (rand_ix w)))
               (S (rand_ix w));
     createdAt := toISOString P (time_ix w);
     updatedAt := toISOString P (time_ix w) |}.

(** Every run of [m] that returns ends with a session in [Q]. *)
Definition endsIn {A} (Q : VaultSessionState → Prop) (m : M A) : Prop :=
  ∀ w r w', m w = (Ok r, w') → Q (session w').

(** The vault [d'] holds what [d] holds, but for a DSK row that [d] lacks. *)
Definition keepsVault (d d' : Db) : Prop :=
  (∀ s k, (s, k) ≠ (keys, DSK_ID) → store_of d' s !! k = store_of d s !! k)
  ∧ (∀ row, db_keys d !! DSK_ID = Some row → d' = d).

(** Every run of [m] keeps the vault. *)
Definition keeps {A} (m : M A) : Prop :=
  ∀ w, keepsVault (db w) (db (snd (m w))).

(** The 256 characters, and a string of two of them. *)
Definition allAscii : list ascii := ascii_of_nat <$> seq 0 256.

(** Every character of the string is an ASCII character. *)
Definition asciiOnly (s : string) : bool :=
  forallb (fun c => (code c <? 128)%N) (list_ascii_of_string s).

Definition pair (a b : ascii) : string := String a (String b EmptyString).

(** The rows of a store as [db.getAll] lists them. *)
Definition storeRows (d : Db) (s : StoreName) : list VaultRow :=
  foldr key_insert [] (snd <$> map_to_list (store_of d s)).

(** The payload, the plaintext and the file of an export in world [w]. *)
Definition backupPayload (P : Platform) (w : World) : BackupPayloadV1.t :=
  {| BackupPayloadV1.format := "retrochat.vault.payload";
     BackupPayloadV1.v := num 1;
     BackupPayloadV1.exportedAt := toISOString P (time_ix w);
     BackupPayloadV1.db := {| BackupPayloadV1.name := DB_NAME;
                              BackupPayloadV1.version := DB_VERSION |};
     BackupPayloadV1.stores :=
       (fun s => (s, serializeRow <$> storeRows (db w) s)) <$> STORES |}.

Definition backupPlaintext (P : Platform) (w : World) : bytes :=
  JSON_stringify P (payloadValue (backupPayload P w)).

Definition backupSalt (P : Platform) (w : World) : bytes := getRandomValues P (rand_ix w) 16.

Definition backupIv (P : Platform) (w : World) : bytes := getRandomValues P (S (rand_ix w)) 12.

Definition backupCiphertext (P : Platform) (passphrase : string) (w : World) : bytes :=
  encryptBackupPayload P (deriveBackupKey P passphrase (backupSalt P w) PBKDF2_ITERATIONS)
    (backupIv P w) (backupPlaintext P w).

Definition backupFile (P : Platform) (passphrase : string) (w : World)
  : EncryptedBackupFileV1.t :=
  {| EncryptedBackupFileV1.format := "retrochat.encrypted-backup";
     EncryptedBackupFileV1.v := num 1;
     EncryptedBackupFileV1.createdAt := toISOString P (S (time_ix w));
     EncryptedBackupFileV1.kdf :=
       {| EncryptedBackupFileV1.name := "PBKDF2";
          EncryptedBackupFileV1.hash := "SHA-256";
          EncryptedBackupFileV1.saltHex := toHex (backupSalt P w);
          EncryptedBackupFileV1.iterations := PBKDF2_ITERATIONS |};
     EncryptedBackupFileV1.aead :=
       {| EncryptedBackupFileV1.aead_name := "AES-GCM";
          EncryptedBackupFileV1.ivHex := toHex (backupIv P w);
          EncryptedBackupFileV1.aadLabel := "retrochat:backup:v1" |};
     EncryptedBackupFileV1.ciphertextHex := toHex (backupCiphertext P passphrase w);
     EncryptedBackupFileV1.plaintextHashHex := sha256Hex P (backupPlaintext P w) |}.

(** The world after an export that was let through. *)
Definition exported (w : World) : World :=
  Build_World (db w) (trace w ++ EvOpen :: (EvGetAll <$> STORES)) (S (S (rand_ix w)))
    (S (S (time_ix w))) (session w) (lastUnlockAddressRef w) (console w).

(** A row that a backup can carry: kept under its own id, which is not
    empty, with an IV of 12 bytes and a ciphertext that is not empty. *)
Definition restorableRow (key : string) (row : VaultRow) : bool :=
  String.eqb (id row) key && negb (String.eqb key "")
  && (length (iv (blob row)) =? 12) && negb (length (ciphertext (blob row)) =? 0).

Definition restorable (d : Db) : bool :=
  forallb (fun s => forallb (fun '(k, row) => restorableRow k row)
                      (map_to_list (store_of d s))) STORES.

(** The platform does its part on the export of world [w]: the time stamp
    of the file is one that zod's [datetime] accepts, the salt, the IV and
    the digest have their lengths, the ciphertext is not empty, AES-GCM
    opens what it sealed, and JSON reads what it wrote. *)
Definition soundExport (P : Platform) (passphrase : string) (w : World) : Prop :=
  datetime P (toISOString P (S (time_ix w))) = true
  ∧ length (backupSalt P w) = 16
  ∧ length (backupIv P w) = 12
  ∧ length (sha256 P (backupPlaintext P w)) = 32
  ∧ backupCiphertext P passphrase w ≠ []
  ∧ decryptBackupPayload P
      (deriveBackupKey P passphrase (backupSalt P w) PBKDF2_ITERATIONS)
      (backupIv P w) (backupCiphertext P passphrase w)
    = Ok (backupPlaintext P w)
  ∧ JSON_parse P (backupPlaintext P w) = Some (payloadValue (backupPayload P w)).

(** The contact that [createContact] returns, and the row it stores, in
    world [w]. *)
Definition createdContact (P : Platform) (checksummed label : string)
    (note publicKeyHex : option string) (w : World) : Contact.t :=
  {| Contact.id := deriveContactId P checksummed;
     Contact.address := VStr checksummed;
     Contact.label := VStr label;
     Contact.note := optionalValue note;
     Contact.publicKeyHex := optionalValue publicKeyHex;
     Contact.createdAt := toISOString P (time_ix w);
     Contact.updatedAt := toISOString P (time_ix w) |}.

Definition contactRow (P : Platform) (dsk : CryptoKey) (checksummed label : string)
    (note publicKeyHex : option string) (w : World) : VaultRow :=
  {| id := deriveContactId P checksummed;
     blob := sealedAt P dsk (Some CONTACTS_AAD_LABEL)
               (JSON_stringify P (contactPayload checksummed label note publicKeyHex))
               (rand_ix w);
     createdAt := toISOString P (time_ix w);
     updatedAt := toISOString P (time_ix w) |}.

(** The identity key pair that [getOrCreateIdentityKeyPair] generates from
    the [n]-th draw of entropy, and the record it stores for it. *)
Definition identitySecret (P : Platform) (n : nat) : bytes := getRandomValues P n 32.

Definition identityAt (P : Platform) (getPublicKey : bytes → bytes) (n : nat)
  : IdentityKeyPair.t :=
  {| IdentityKeyPair.publicKey :=
       x25519PublicKey (toHex (getPublicKey (identitySecret P n)));
     IdentityKeyPair.privateKey := identitySecret P n |}.

Definition identityRecord (P : Platform) (getPublicKey : bytes → bytes) (n : nat) : value :=
  identityRecordValue (toHex (getPublicKey (identitySecret P n)))
    (toHex (identitySecret P n)).

Definition ALREADY_EXISTS : exn :=
  Exn JsError "A contact with this address already exists.".

Definition AEAD_FAILED : exn := Exn JsError "AEAD authentication failed".

Definition INTEGRITY_FAILED : exn :=
  Exn JsError "Backup integrity check failed (wrong passphrase or tampered file).".

(** The contact that a stored row gives to the holder of [dsk]: none when
    the row does not decrypt or its plaintext does not parse. *)
Definition contactOf (P : Platform) (dsk : CryptoKey) (w : World) (row : VaultRow)
  : option Contact.t :=
  match fst (decryptContactRow P row dsk w) with
  | Ok contact => Some contact
  | Throw _ => None
  end.

(** The contact has a string as label and a string as address, and one of
    the two, in lower case, contains [q]. *)
Definition matchesQuery (q : string) (c : Contact.t) : Prop :=
  ∃ label address,
    Contact.label c = VStr label ∧ Contact.address c = VStr address
    ∧ includes (toLowerCase label) q || includes (toLowerCase address) q = true.

(** ** Sample data for running the model *)

Module Sample.

Definition P : Platform := Mock.platform.

(** A fresh installation: empty vault, locked session. *)
Definition w0 : World :=
  {| db := emptyDb; trace := []; rand_ix := 0; time_ix := 0;
     session := Locked; lastUnlockAddressRef := None; console := [] |}.

Fixpoint repeatString (s : string) (n : nat) : string :=
  match n with
  | 0 => EmptyString
  | S k => s ++ repeatString s k
  end.

Definition alice : string := "0x1234567890123456789012345678901234567890".
Definition bob : string := "0xabcdefabcdefabcdefabcdefabcdefabcdefabcd".

(** One hex character short of an address. *)
Definition shortAddress : string := "0x123456789012345678901234567890123456789".

Definition signatureA : string := "0x" ++ repeatString "ab" 65.
Definition signatureB : string := "0x" ++ repeatString "cd" 65.

Definition sessionKeyA : CryptoKey :=
  Eval vm_compute in
    {| raw := Mock.deriveSessionKeyMaterial signatureA; extractable := false |}.

(** The vault after a first unlock with Bob's signature: its DSK is
    wrapped under the session key of that signature. *)
Definition wBob : World :=
  Eval vm_compute in snd (unlockFromSignature P signatureB bob w0).

Definition noRow : VaultRow :=
  {| id := ""; blob := {| iv := []; ciphertext := [] |}; createdAt := ""; updatedAt := "" |}.

Definition dskRowBob : VaultRow :=
  Eval vm_compute in default noRow (db_keys (db wBob) !! DSK_ID).

(** Identity keys of the two parties. *)
Definition privA : bytes :=
  Mock.le_encode 32 0x2a2cb91da5fb77b12a99c0eb872f4cdf4566b25172c1163c7da518730a6d0777%N.
Definition privB : bytes :=
  Mock.le_encode 32 0xebe088ff278b2f1cfdb6182629b13b6fe60e80838b7fe1794b8a4a627e08ab5d%N.
Definition pubA : bytes := Eval vm_compute in Mock.x25519_getPublicKey privA.
Definition pubB : bytes := Eval vm_compute in Mock.x25519_getPublicKey privB.

Definition conversationKey : CryptoKey :=
  Eval vm_compute in
    match deriveConversationKey P privA pubB alice bob None with
    | Ok spec => ConversationKeySpec.key spec
    | Throw _ => {| raw := []; extractable := false |}
    end.

Definition hello : MessageEnvelope :=
  {| Envelope.v := num 1;
     Envelope.from := alice;
     Envelope.to := bob;
     Envelope.ts := "2024-01-01T00:00:00.000Z";
     Envelope.nonce := "12345678901234567890123456789012";
     Envelope.iv := "123456789012345678901234";
     Envelope.ciphertext := "abcdef1234567890";
     Envelope.aad := None |}.

(** The same nonce and ciphertext under other addresses and another time. *)
Definition helloAgain : MessageEnvelope :=
  {| Envelope.v := num 1;
     Envelope.from := bob;
     Envelope.to := alice;
     Envelope.ts := "2024-06-30T12:00:00.000Z";
     Envelope.nonce := "12345678901234567890123456789012";
     Envelope.iv := "aaaaaaaaaaaaaaaaaaaaaaaa";
     Envelope.ciphertext := "abcdef1234567890";
     Envelope.aad := Some "00" |}.

(** The vault with the one message stored. *)
Definition wStored : World :=
  Eval vm_compute in snd (storeMessage P conversationKey hello w0).

(** A later message of the same conversation. *)
Definition later : MessageEnvelope :=
  {| Envelope.v := num 1;
     Envelope.from := bob;
     Envelope.to := alice;
     Envelope.ts := "2024-01-02T00:00:00.000Z";
     Envelope.nonce := "abcdefabcdefabcdefabcdefabcdefab";
     Envelope.iv := "123456789012345678901234";
     Envelope.ciphertext := "0123456789";
     Envelope.aad := None |}.

(** The vault with the two messages stored. *)
Definition wTwo : World :=
  Eval vm_compute in snd (storeMessage P conversationKey later wStored).

(** Eight characters, four of them trailing blanks. *)
Definition paddedPassphrase : string := "pass    ".

Definition passphrase : string := "correct horse".

Definition noFile : EncryptedBackupFileV1.t :=
  {| EncryptedBackupFileV1.format := ""; EncryptedBackupFileV1.v := NaN;
     EncryptedBackupFileV1.createdAt := "";
     EncryptedBackupFileV1.kdf :=
       {| EncryptedBackupFileV1.name := ""; EncryptedBackupFileV1.hash := "";
          EncryptedBackupFileV1.saltHex := ""; EncryptedBackupFileV1.iterations := NaN |};
     EncryptedBackupFileV1.aead :=
       {| EncryptedBackupFileV1.aead_name := ""; EncryptedBackupFileV1.ivHex := "";
          EncryptedBackupFileV1.aadLabel := "" |};
     EncryptedBackupFileV1.ciphertextHex := "";
     EncryptedBackupFileV1.plaintextHashHex := "" |}.

(** A backup of Bob's vault. *)
Definition backup : EncryptedBackupFileV1.t :=
  Eval vm_compute in
    match fst (exportEncryptedBackup P passphrase wBob) with
    | Ok file => file
    | Throw _ => noFile
    end.

(** The same backup with another plaintext hash. *)
Definition tamperedBackup : EncryptedBackupFileV1.t :=
  {| EncryptedBackupFileV1.format := EncryptedBackupFileV1.format backup;
     EncryptedBackupFileV1.v := EncryptedBackupFileV1.v backup;
     EncryptedBackupFileV1.createdAt := EncryptedBackupFileV1.createdAt backup;
     EncryptedBackupFileV1.kdf := EncryptedBackupFileV1.kdf backup;
     EncryptedBackupFileV1.aead := EncryptedBackupFileV1.aead backup;
     EncryptedBackupFileV1.ciphertextHex := EncryptedBackupFileV1.ciphertextHex backup;
     EncryptedBackupFileV1.plaintextHashHex := repeatString "00" 32 |}.

(** The session key of Bob's signature, and the DSK of his vault. *)
Definition sessionKeyB : CryptoKey :=
  Eval vm_compute in
    {| raw := Mock.deriveSessionKeyMaterial signatureB; extractable := false |}.

Definition dskBob : CryptoKey := Eval vm_compute in dskAt P 0.

(** Bob's address with its letters in upper case, and with blanks around. *)
Definition bobUpper : string := "0xABCDEFABCDEFABCDEFABCDEFABCDEFABCDEFABCD".

Definition bobPadded : string := "  0xabcdefabcdefabcdefabcdefabcdefabcdefabcd ".

Definition bobChecksummed : string := Eval vm_compute in Mock.getAddress bob.

(** What Alice derives for her conversation with Bob. *)
Definition noSpec : ConversationKeySpec.t :=
  {| ConversationKeySpec.key := {| raw := []; extractable := false |};
     ConversationKeySpec.id := "" |}.

Definition conversationSpec : ConversationKeySpec.t :=
  Eval vm_compute in
    match deriveConversationKey P privA pubB alice bob None with
    | Ok spec => spec
    | Throw _ => noSpec
    end.

Definition wrongPassphrase : string := "wrong horse".

(** Bob's vault with Bob himself as a contact. *)
Definition wContact : World :=
  Eval vm_compute in
    snd (createContact P Mock.getAddress dskBob bob "Bob" None None wBob).

(** The row of the message "hello" in the vault that stores it. *)
Definition helloRow : VaultRow :=
  Eval vm_compute in
    default noRow (db_messages (db wStored) !! repo_deriveMessageId P hello).

End Sample.

(** * Properties *)

(** ** Shapes of addresses and signatures *)

Lemma strip0x_unfold (s : string) :
  strip0x s =
  match s with
  | String c0 (String c1 rest) =>
      if Ascii.eqb c0 "0" && Ascii.eqb c1 "x" then rest else s
  | _ => s
  end.
Proof.
  destruct s as [|c0 [|c1 rest]]; [done| |].
  - by destruct c0 as [[] [] [] [] [] [] [] []].
  - destruct c0 as [[] [] [] [] [] [] [] []]; try reflexivity.
    destruct c1 as [[] [] [] [] [] [] [] []]; reflexivity.
Qed.

Lemma strip0x_prefixed (s : string) :
  (∃ rest, s = "0x" ++ rest ∧ strip0x s = rest) ∨
  ((∀ rest, s ≠ "0x" ++ rest) ∧ strip0x s = s).
Proof.
  rewrite strip0x_unfold.
  destruct s as [|c0 [|c1 rest]]; [right; split; [intros ?; discriminate | done] ..|].
  destruct (Ascii.eqb_spec c0 "0") as [->|Hc0]; simpl.
  - destruct (Ascii.eqb_spec c1 "x") as [->|Hc1].
    + left. by exists rest.
    + right. split; [|done]. intros r.
      change ("0x" ++ r) with (String "0" (String "x" r)). congruence.
  - right. split; [|done]. intros r.
    change ("0x" ++ r) with (String "0" (String "x" r)). congruence.
Qed.

(** The test [/^0x[a-fA-F0-9]{40}$/] holds of [0x] followed by forty hex
    digits and of nothing else. *)
Lemma isValidEthereumAddress_iff (address : string) :
  isValidEthereumAddress address = true ↔
  ∃ h, address = "0x" ++ h ∧ String.length h = 40 ∧ allHex h = true.
Proof.
  assert (Hdef : isValidEthereumAddress address =
                 match address with
                 | String c0 (String c1 rest) =>
                     Ascii.eqb c0 "0" && Ascii.eqb c1 "x"
                     && ((String.length rest =? 40) && allHex rest)
                 | _ => false
                 end).
  { destruct address as [|c0 [|c1 rest]]; [done| |].
    - by destruct c0 as [[] [] [] [] [] [] [] []].
    - destruct c0 as [[] [] [] [] [] [] [] []]; try reflexivity.
      destruct c1 as [[] [] [] [] [] [] [] []]; reflexivity. }
  rewrite Hdef. clear Hdef. split.
  - destruct address as [|c0 [|c1 rest]]; try discriminate.
    rewrite !andb_true_iff, Nat.eqb_eq.
    intros [[->%Ascii.eqb_eq ->%Ascii.eqb_eq] [? ?]]. by exists rest.
  - intros (h & -> & Hlen & Hhex).
    change ("0x" ++ h) with (String "0" (String "x" h)).
    cbn. rewrite Hhex. apply Nat.eqb_eq in Hlen. by rewrite Hlen.
Qed.

(** The signature test holds of 130 hex digits, with or without [0x]. *)
Lemma isValidSignatureFormat_iff (signature : string) :
  isValidSignatureFormat signature = true ↔
  ∃ h, (signature = h ∨ signature = "0x" ++ h)
       ∧ String.length h = 130 ∧ allHex h = true.
Proof.
  unfold isValidSignatureFormat. rewrite andb_true_iff, Nat.eqb_eq. split.
  - intros [Hlen Hhex].
    destruct (strip0x_prefixed signature) as [(rest & -> & Hs)|[_ Hs]];
      rewrite Hs in *; eauto.
  - intros (h & [->| ->] & Hlen & Hhex).
    + destruct (strip0x_prefixed h) as [(rest & -> & Hs)|[_ Hs]]; [|by rewrite Hs].
      discriminate.
    + done.
Qed.

(** ** Unlocking the vault *)

Section Unlock.

Context (P : Platform).

(** C5.  When the address is not [0x] followed by forty hex digits, or the
    signature is not 65 bytes of hex, [unlockFromSignature] returns
    normally, leaves the session in the error state with one of the four
    validation messages, and changes nothing else in the world: the trace
    of storage operations is the one before the call, so neither the
    database was opened nor the DSK row read. *)
Theorem unlock_rejects_malformed_input (signature address : string) (w : World) :
  isValidEthereumAddress address = false ∨ isValidSignatureFormat signature = false →
  ∃ msg, In msg validationMessages ∧
    unlockFromSignature P signature address w = (Ok tt, withSession w (SessionError msg)).
Proof.
  intros Hbad. unfold unlockFromSignature, validationMessages, withSession.
  unfold bind, try_catch, getSession, setSession, throwIf. simpl.
  destruct (String.eqb address "") eqn:Ha; simpl; [eauto 10|].
  destruct (isValidEthereumAddress address) eqn:Hva; simpl; [|eauto 10].
  destruct (String.eqb signature "") eqn:Hs; simpl; [eauto 10|].
  destruct (isValidSignatureFormat signature) eqn:Hvs; simpl; [|eauto 10].
  destruct Hbad; discriminate.
Qed.

Lemma decryptDSK_auth_failure (encryptedDSK : EncryptedBlob) (sessionKey : CryptoKey)
    (w : World) :
  aes_gcm_decrypt P (raw sessionKey) (iv encryptedDSK) DSK_AAD_LABEL
    (ciphertext encryptedDSK) = None →
  decryptDSK P encryptedDSK sessionKey w = (Throw (Exn JsError WRONG_ACCOUNT), w).
Proof.
  intros Hfail. unfold decryptDSK, bind, try_catch, decryptAead. simpl.
  by rewrite Hfail.
Qed.

Lemma getOrCreateDSK_auth_failure (sessionKey : CryptoKey) (row : VaultRow) (w : World) :
  db_keys (db w) !! DSK_ID = Some row →
  aes_gcm_decrypt P (raw sessionKey) (iv (blob row)) DSK_AAD_LABEL
    (ciphertext (blob row)) = None →
  ∃ w', getOrCreateDSK P sessionKey w = (Throw (Exn JsError WRONG_ACCOUNT), w')
        ∧ db w' = db w
        ∧ lastUnlockAddressRef w' = lastUnlockAddressRef w
        ∧ trace w' = (trace w ++ [EvOpen; EvGet keys DSK_ID])%list.
Proof.
  intros Hrow Hfail. unfold getOrCreateDSK, bind, getDb, db_get, log. simpl.
  unfold bind. simpl. rewrite Hrow.
  rewrite decryptDSK_auth_failure by done.
  eexists. split; [reflexivity|]. simpl. by rewrite <- app_assoc.
Qed.

(** C4.  With a well-formed address and signature, a stored DSK row, and a
    session key derived from the signature under which AES-GCM does not
    authenticate that row (the row was wrapped under another session key),
    [unlockFromSignature] ends with the session in the error state carrying
    the "wrong account" message; the session is not unlocked, the vault is
    as before, and the only storage operations are opening the database and
    reading the DSK row. *)
Theorem unlock_wrong_account (signature address : string) (key : CryptoKey)
    (row : VaultRow) (w : World) :
  isValidEthereumAddress address = true →
  isValidSignatureFormat signature = true →
  importSessionKey P (deriveSessionKeyMaterial P signature) = Ok key →
  db_keys (db w) !! DSK_ID = Some row →
  aes_gcm_decrypt P (raw key) (iv (blob row)) DSK_AAD_LABEL (ciphertext (blob row)) = None →
  ∃ w', unlockFromSignature P signature address w = (Ok tt, w')
        ∧ session w' = SessionError WRONG_ACCOUNT
        ∧ db w' = db w
        ∧ lastUnlockAddressRef w' = lastUnlockAddressRef w
        ∧ trace w' = (trace w ++ [EvOpen; EvGet keys DSK_ID])%list.
Proof.
  intros Ha Hs Hkey Hrow Hfail.
  assert (String.eqb address "" = false) as Hae by (by destruct address).
  assert (String.eqb signature "" = false) as Hse by (by destruct signature).
  unfold unlockFromSignature, bind, try_catch, getSession, setSession, throwIf,
    getLastUnlockAddress, lift. simpl.
  rewrite Hae, Ha, Hs, Hse. simpl.
  set (warn := match lastUnlockAddressRef w with Some _ => _ | None => _ end).
  assert (∃ c, ∀ w0, warn w0 =
            (Ok tt, Build_World (db w0) (trace w0) (rand_ix w0) (time_ix w0)
                      (session w0) (lastUnlockAddressRef w0) (c w0))) as [c Hwarn].
  { subst warn. destruct (lastUnlockAddressRef w) as [prev|].
    - destruct (_ && _).
      + by exists (fun w0 => (console w0 ++
           ["Unlock attempt with different address while already unlocked"])%list).
      + exists console. by intros [].
    - exists console. by intros []. }
  rewrite Hwarn, Hkey. simpl.
  edestruct (getOrCreateDSK_auth_failure key row) as (w' & -> & Hdb & Hlu & Htr);
    [|exact Hfail|]; [exact Hrow|].
  simpl. eexists. split; [reflexivity|]. simpl. by rewrite Hdb, Hlu, Htr.
Qed.

End Unlock.

(** The scenario of the specification: an address one hex character short. *)
Lemma unlock_rejects_malformed_input_witness :
  ∃ msg, In msg validationMessages ∧
    unlockFromSignature Sample.P Sample.signatureA Sample.shortAddress Sample.wBob
    = (Ok tt, withSession Sample.wBob (SessionError msg)).
Proof.
  apply (unlock_rejects_malformed_input Sample.P Sample.signatureA Sample.shortAddress
           Sample.wBob).
  left. vm_compute. reflexivity.
Defined.

(** Alice's signature on the vault whose DSK was wrapped under Bob's. *)
Lemma unlock_wrong_account_witness :
  ∃ w', unlockFromSignature Sample.P Sample.signatureA Sample.alice Sample.wBob = (Ok tt, w')
        ∧ session w' = SessionError WRONG_ACCOUNT
        ∧ db w' = db Sample.wBob
        ∧ lastUnlockAddressRef w' = lastUnlockAddressRef Sample.wBob
        ∧ trace w' = (trace Sample.wBob ++ [EvOpen; EvGet keys DSK_ID])%list.
Proof.
  apply (unlock_wrong_account Sample.P Sample.signatureA Sample.alice
           Sample.sessionKeyA Sample.dskRowBob Sample.wBob);
    vm_compute; reflexivity.
Defined.

(** ** Strings, stores and the steps of a computation *)

Lemma append_cons (c : ascii) (s t : string) : String c s ++ t = String c (s ++ t).
Proof. reflexivity. Qed.

Lemma append_nil (t : string) : "" ++ t = t.
Proof. reflexivity. Qed.

(** Hex encoding writes two characters for every byte. *)
Lemma toHex_length (bs : bytes) : String.length (toHex bs) = 2 * length bs.
Proof.
  induction bs as [|b bs IH]; [done|].
  cbn [toHex]. unfold byteToHex. rewrite !append_cons, append_nil.
  cbn [String.length length]. rewrite IH. lia.
Qed.

Lemma store_of_with_store (d : Db) (s : StoreName) (m : gmap string VaultRow) :
  store_of (with_store d s m) s = m.
Proof. by destruct s. Qed.

Lemma store_of_with_store_ne (d : Db) (s s' : StoreName) (m : gmap string VaultRow) :
  s ≠ s' → store_of (with_store d s m) s' = store_of d s'.
Proof. by destruct s, s'. Qed.

Lemma bind_throwIf {A} (c : bool) (e : exn) (k : unit → M A) (w : World) :
  bind (throwIf c e) k w = if c then (Throw e, w) else k tt w.
Proof. unfold bind, throwIf. by destruct c. Qed.

Lemma bind_lift {A B} (r : result A) (k : A → M B) (w : World) :
  bind (lift r) k w = match r with Ok a => k a w | Throw e => (Throw e, w) end.
Proof. unfold bind, lift. by destruct r. Qed.

(** One step of a computation that runs a pure, fallible function: either
    it throws, or the computation goes on with its value. *)
Ltac step_lift H :=
  match type of H with
  | context [@bind ?A ?B (@lift _ ?r) ?k ?w] =>
      rewrite (@bind_lift A B r k w) in H;
      let a := fresh "a" in destruct r as [a|] eqn:?; cbv beta iota in H
  end.

(** The run ended by throwing, in the world it started from. *)
Ltac thrown H := injection H as <- <-; left; eauto.

(** ** Hex and UTF-8 encodings *)

Lemma allAscii_complete (a : ascii) : a ∈ allAscii.
Proof.
  unfold allAscii. apply list_elem_of_fmap. exists (nat_of_ascii a). split.
  - by rewrite ascii_nat_embedding.
  - apply elem_of_seq. pose proof (nat_ascii_bounded a). lia.
Qed.

(** A boolean property of characters that holds of each of the 256. *)
Lemma ascii_forall (f : ascii → bool) : forallb f allAscii = true → ∀ a, f a = true.
Proof.
  intros H a. rewrite forallb_forall in H. apply H.
  apply list_elem_of_In, allAscii_complete.
Qed.

Lemma ascii_forall2 (f : ascii → ascii → bool) :
  forallb (fun a => forallb (f a) allAscii) allAscii = true → ∀ a b, f a b = true.
Proof.
  intros H a b. apply (ascii_forall (f a)). by apply (ascii_forall _ H).
Qed.

Lemma byteToHex_pair (b : byte) :
  ∃ c d, byteToHex b = pair c d
         ∧ isHexDigit c = true ∧ isHexDigit d = true
         ∧ toUint8 (parseInt16 (pair c d)) = b.
Proof. destruct b; do 2 eexists; split_and!; reflexivity. Qed.

Lemma fromHexPairs_toHex (bs : bytes) : fromHexPairs (toHex bs) = bs.
Proof.
  induction bs as [|b bs IH]; [done|].
  destruct (byteToHex_pair b) as (c & d & Hb & _ & _ & Hp).
  cbn [toHex]. rewrite Hb. unfold pair. rewrite !append_cons, append_nil.
  cbn [fromHexPairs]. fold (pair c d). by rewrite Hp, IH.
Qed.

Lemma fromHex_toHex (bs : bytes) : fromHex (toHex bs) = Ok bs.
Proof.
  unfold fromHex. rewrite toHex_length, Nat.odd_mul, fromHexPairs_toHex. done.
Qed.

Lemma allHex_toHex (bs : bytes) : allHex (toHex bs) = true.
Proof.
  induction bs as [|b bs IH]; [done|].
  destruct (byteToHex_pair b) as (c & d & Hb & Hc & Hd & _).
  cbn [toHex]. rewrite Hb. unfold pair. rewrite !append_cons, append_nil. cbn [allHex].
  by rewrite Hc, Hd, IH.
Qed.

(** [TextEncoder] writes an ASCII string as its character codes. *)
Lemma utf8_asciiOnly (s : string) :
  asciiOnly s = true → utf8 s = list_byte_of_string s.
Proof.
  assert (H : ∀ c, implb (code c <? 128)%N
                     (Byte.eqb (byte_of_N (code c)) (byte_of_ascii c)) = true).
  { apply ascii_forall. vm_compute. reflexivity. }
  induction s as [|c s IH]; [done|].
  unfold asciiOnly. cbn [list_ascii_of_string forallb]. intros Hs.
  apply andb_true_iff in Hs as [Hc Hs]. cbn [utf8 list_byte_of_string].
  specialize (H c). rewrite Hc in *. cbn [implb] in H.
  apply Byte.byte_dec_bl in H. rewrite H. cbn [app].
  change (list_byte_of_string (String c s)) with (byte_of_ascii c :: list_byte_of_string s).
  f_equal. by apply IH.
Qed.

(** ** Message identifiers *)

Section MessageId.

Context (P : Platform).

(** C7.  The message id is the hex encoding of the SHA-256 digest of the
    nonce followed by the ciphertext (the two hex strings, concatenated and
    UTF-8 encoded); the copy of the function in the message repository
    computes the same id; and two envelopes with the same nonce and the same
    ciphertext have the same id, whatever their other fields are.  The id
    is a lossless encoding of the digest: it has two hex digits for every byte of
    the digest, [fromHex] of the backup module decodes it to the digest, and
    so two ids are equal only if the digests are; and for a nonce and a ciphertext of ASCII
    characters, as hex strings are, the bytes hashed are their character
    codes. *)
Theorem deriveMessageId_content_addressed (e1 e2 e3 : MessageEnvelope) :
  Envelope.nonce e1 = Envelope.nonce e2 →
  Envelope.ciphertext e1 = Envelope.ciphertext e2 →
  deriveMessageId P e1
    = toHex (sha256 P (utf8 (Envelope.nonce e1 ++ Envelope.ciphertext e1)))
  ∧ repo_deriveMessageId P e1 = deriveMessageId P e1
  ∧ deriveMessageId P e1 = deriveMessageId P e2
  ∧ repo_deriveMessageId P e1 = repo_deriveMessageId P e2
  ∧ fromHex (deriveMessageId P e1)
    = Ok (sha256 P (utf8 (Envelope.nonce e1 ++ Envelope.ciphertext e1)))
  ∧ String.length (deriveMessageId P e1)
    = 2 * length (sha256 P (utf8 (Envelope.nonce e1 ++ Envelope.ciphertext e1)))
  ∧ allHex (deriveMessageId P e1) = true
  ∧ (asciiOnly (Envelope.nonce e1 ++ Envelope.ciphertext e1) = true →
     fromHex (deriveMessageId P e1)
     = Ok (sha256 P (list_byte_of_string (Envelope.nonce e1 ++ Envelope.ciphertext e1))))
  ∧ (deriveMessageId P e1 = deriveMessageId P e3 →
     sha256 P (utf8 (Envelope.nonce e1 ++ Envelope.ciphertext e1))
     = sha256 P (utf8 (Envelope.nonce e3 ++ Envelope.ciphertext e3))).
Proof.
  intros Hn Hc. split_and!.
  - reflexivity.
  - reflexivity.
  - unfold deriveMessageId. by rewrite Hn, Hc.
  - unfold repo_deriveMessageId. by rewrite Hn, Hc.
  - apply fromHex_toHex.
  - apply toHex_length.
  - apply allHex_toHex.
  - intros Hascii. unfold deriveMessageId.
    rewrite fromHex_toHex. by rewrite (utf8_asciiOnly _ Hascii).
  - unfold deriveMessageId. intros Heq.
    apply (f_equal fromHex) in Heq. rewrite !fromHex_toHex in Heq. by injection Heq.
Qed.
(** The id of a 32-byte digest is 64 characters long. *)
Lemma deriveMessageId_length (e : MessageEnvelope) :
  (∀ data, length (sha256 P data) = 32) →
  String.length (deriveMessageId P e) = 64.
Proof. intros H. unfold deriveMessageId. by rewrite toHex_length, H. Qed.

End MessageId.

(** Two envelopes that share nonce and ciphertext and nothing else have one
    id, of 64 hex digits, which decodes to the digest of the 48 character
    codes; a third envelope with another nonce has another id. *)
Lemma deriveMessageId_content_addressed_witness :
  deriveMessageId Sample.P Sample.hello
    = toHex (sha256 Sample.P
               (utf8 (Envelope.nonce Sample.hello ++ Envelope.ciphertext Sample.hello)))
  ∧ repo_deriveMessageId Sample.P Sample.hello = deriveMessageId Sample.P Sample.hello
  ∧ deriveMessageId Sample.P Sample.hello = deriveMessageId Sample.P Sample.helloAgain
  ∧ repo_deriveMessageId Sample.P Sample.hello
    = repo_deriveMessageId Sample.P Sample.helloAgain
  ∧ fromHex (deriveMessageId Sample.P Sample.hello)
    = Ok (sha256 Sample.P
            (list_byte_of_string
               (Envelope.nonce Sample.hello ++ Envelope.ciphertext Sample.hello)))
  ∧ String.length (deriveMessageId Sample.P Sample.hello) = 64
  ∧ deriveMessageId Sample.P Sample.hello ≠ deriveMessageId Sample.P Sample.later.
Proof.
  destruct (deriveMessageId_content_addressed Sample.P Sample.hello Sample.helloAgain
              Sample.later eq_refl eq_refl)
    as (Hid & Hcopy & Hsame & Hrepo & _ & Hlen & _ & Hbytes & Hother).
  split_and!; [exact Hid | exact Hcopy | exact Hsame | exact Hrepo
              | apply Hbytes; reflexivity | rewrite Hlen; reflexivity | ].
  intros Heq. apply Hother in Heq. vm_compute in Heq. discriminate Heq.
Defined.

(** ** The vault storage layer *)

Section Vault.

Context (P : Platform).

(** C10.  [putEncryptedRecord] always succeeds and writes, under the given
    id, a row whose [createdAt] and [updatedAt] are both the time of the
    call; the row replaces whatever the store held under that id, so the
    [createdAt] of an earlier row is not kept. *)
Theorem putEncryptedRecord_timestamps (store : StoreName) (id : string) (key : CryptoKey)
    (plaintext : bytes) (aad : option bytes) (w : World) :
  let row := putRecordRow P id key plaintext aad w in
  ∃ w', putEncryptedRecord P store id key plaintext aad w = (Ok tt, w')
        ∧ store_of (db w') store = <[id := row]> (store_of (db w) store)
        ∧ store_of (db w') store !! id = Some row
        ∧ createdAt row = toISOString P (time_ix w)
        ∧ updatedAt row = createdAt row
        ∧ time_ix w' = S (time_ix w).
Proof.
  intros row. unfold putEncryptedRecord, bind, getDb, log, encryptAead,
    randomBytes, drawRandom, nowISO, db_put, bind, log, setDb, ret. simpl.
  eexists. split; [reflexivity|]. simpl. rewrite store_of_with_store.
  split; [done|]. split; [apply lookup_insert_eq|done].
Qed.

End Vault.

(** A second put under the same id: the row now carries the later time in
    both fields. *)
Example putEncryptedRecord_overwrites_createdAt :
  let w1 := snd (putEncryptedRecord Sample.P settings "theme" Sample.sessionKeyA
                   (utf8 "dark") None Sample.w0) in
  let w2 := snd (putEncryptedRecord Sample.P settings "theme" Sample.sessionKeyA
                   (utf8 "light") None w1) in
  createdAt <$> db_settings (db w1) !! "theme" = Some "2024-01-01T00:00:00.000Z"
  ∧ createdAt <$> db_settings (db w2) !! "theme" = Some "2024-01-01T00:00:01.000Z"
  ∧ updatedAt <$> db_settings (db w2) !! "theme" = Some "2024-01-01T00:00:01.000Z"
  ∧ size (db_settings (db w2)) = 1.
Proof. vm_compute. done. Qed.

(** ** The passphrase of a backup *)

Lemma passphraseRejected_iff (passphrase : string) :
  passphraseRejected passphrase = true ↔ String.length (trim passphrase) < 8.
Proof.
  unfold passphraseRejected. rewrite orb_true_iff, Nat.ltb_lt. split.
  - intros [->%String.eqb_eq|?]; [cbn; lia|done].
  - auto.
Qed.

Section ExportBackup.

Context (P : Platform).

Lemma db_getAll_ok (s : StoreName) (w : World) :
  ∃ rows w', db_getAll s w = (Ok rows, w').
Proof. unfold db_getAll, bind, log, getStore, ret. simpl. eauto. Qed.

Lemma exportStores_ok (stores : list StoreName) (w : World) :
  ∃ out w', exportStores stores w = (Ok out, w').
Proof.
  revert w. induction stores as [|s stores IH]; intros w; simpl.
  - unfold ret. eauto.
  - unfold bind. destruct (db_getAll_ok s w) as (rows & w1 & ->).
    destruct (IH w1) as (out & w2 & ->). unfold ret. eauto.
Qed.

(** C9, as the code has it.  [exportEncryptedBackup] rejects a passphrase
    exactly when the passphrase with its leading and trailing white space
    removed has fewer than 8 characters; it then throws the passphrase
    error in the world it was called in, before any storage operation.
    Every other passphrase passes the check and the export returns a file. *)
Theorem export_passphrase_check (passphrase : string) (w : World) :
  (String.length (trim passphrase) < 8 ↔
   exportEncryptedBackup P passphrase w = (Throw PASSPHRASE_ERROR, w))
  ∧ (8 ≤ String.length (trim passphrase) ↔
     ∃ file w', exportEncryptedBackup P passphrase w = (Ok file, w')).
Proof.
  assert (Hrej : passphraseRejected passphrase = true →
                 exportEncryptedBackup P passphrase w = (Throw PASSPHRASE_ERROR, w)).
  { intros H. unfold exportEncryptedBackup, bind, throwIf. by rewrite H. }
  assert (Hacc : passphraseRejected passphrase = false →
                 ∃ file w', exportEncryptedBackup P passphrase w = (Ok file, w')).
  { intros H. unfold exportEncryptedBackup. unfold bind at 1. unfold throwIf.
    rewrite H. cbv [bind ret getDb log nowISO].
    match goal with |- context [exportStores ?l ?w1] =>
      destruct (exportStores_ok l w1) as (out & w2 & ->) end.
    unfold randomBytes, drawRandom. simpl. eauto. }
  pose proof (passphraseRejected_iff passphrase) as Hiff.
  destruct (passphraseRejected passphrase) eqn:Hr.
  - assert (String.length (trim passphrase) < 8) by (by apply Hiff).
    split; split.
    + auto.
    + done.
    + lia.
    + intros (file & w' & Heq). rewrite Hrej in Heq by done. discriminate.
  - assert (¬ String.length (trim passphrase) < 8) by (rewrite <- Hiff; congruence).
    destruct (Hacc eq_refl) as (file & w' & Heq).
    split; split.
    + lia.
    + rewrite Heq. discriminate.
    + eauto.
    + lia.
Qed.

End ExportBackup.

(** C9, as the specification states it, fails: a passphrase of 8 characters
    that ends in blanks has length 8 and is rejected. *)
Lemma export_rejects_padded_passphrase :
  8 ≤ String.length Sample.paddedPassphrase
  ∧ exportEncryptedBackup Sample.P Sample.paddedPassphrase Sample.w0
    = (Throw PASSPHRASE_ERROR, Sample.w0).
Proof. split; [vm_compute; lia | vm_compute; reflexivity]. Qed.

(** ** Storing a message *)

Section Store.

Context (P : Platform).

(** What [storeMessage] does on an envelope of the supported version: it
    returns the message id, and writes the row only if the id is free. *)
Lemma storeMessage_run (key : CryptoKey) (envelope : MessageEnvelope) (w : World) :
  Envelope.v envelope = PROTOCOL_VERSION →
  ∃ w',
    storeMessage P key envelope w = (Ok (repo_deriveMessageId P envelope), w')
    ∧ db w' = match db_messages (db w) !! repo_deriveMessageId P envelope with
              | Some _ => db w
              | None => with_store (db w) messages
                          (<[repo_deriveMessageId P envelope := storedRow P key envelope w]>
                             (db_messages (db w)))
              end.
Proof.
  intros Hv. unfold storeMessage, storedRow. unfold bind at 1. unfold throwIf.
  rewrite bool_decide_eq_true_2 by done. cbn [negb ret].
  cbv [encryptAead randomBytes drawRandom bind ret nowISO getDb log try_catch
       db_get db_put setDb MESSAGES_STORE].
  cbn [Z.leb Z.compare db trace store_of rand_ix time_ix fst snd default].
  destruct (String.eqb (Envelope.ts envelope) "");
    cbn [db trace store_of rand_ix time_ix];
    destruct (db_messages (db w) !! repo_deriveMessageId P envelope) as [old|] eqn:Hold;
    eexists; (split; [reflexivity|]); cbn [db]; try done.
Qed.

(** C2.  For an envelope of the supported version, two calls of
    [storeMessage] with the same envelope both return the message id; the
    second call leaves the vault as the first left it; after them the
    messages store holds a row under that id, holds what it held under every
    other id, and has grown by exactly one row if the id was new.  If a row
    with the id was there before the first call, the vault is not written at
    all and that row is still the one stored. *)
Theorem storeMessage_idempotent (key : CryptoKey) (envelope : MessageEnvelope) (w : World) :
  Envelope.v envelope = PROTOCOL_VERSION →
  let messageId := repo_deriveMessageId P envelope in
  ∃ w1 w2,
    storeMessage P key envelope w = (Ok messageId, w1)
    ∧ storeMessage P key envelope w1 = (Ok messageId, w2)
    ∧ db w2 = db w1
    ∧ is_Some (db_messages (db w1) !! messageId)
    ∧ (∀ k, k ≠ messageId → db_messages (db w1) !! k = db_messages (db w) !! k)
    ∧ (db_messages (db w) !! messageId = None →
       size (db_messages (db w2)) = S (size (db_messages (db w))))
    ∧ (∀ row, db_messages (db w) !! messageId = Some row →
       db w1 = db w ∧ db_messages (db w2) !! messageId = Some row).
Proof.
  intros Hv messageId.
  destruct (storeMessage_run key envelope w Hv) as (w1 & Hrun1 & Hdb1).
  destruct (storeMessage_run key envelope w1 Hv) as (w2 & Hrun2 & Hdb2).
  fold messageId in Hrun1, Hrun2, Hdb1, Hdb2.
  exists w1, w2.
  assert (Hsome : is_Some (db_messages (db w1) !! messageId)).
  { rewrite Hdb1. destruct (db_messages (db w) !! messageId) eqn:Hold.
    - rewrite Hold. eauto.
    - cbn. rewrite lookup_insert_eq. eauto. }
  assert (Hsame : db w2 = db w1).
  { rewrite Hdb2. by destruct Hsome as [row ->]. }
  repeat split; try done.
  - intros k Hk. rewrite Hdb1. destruct (db_messages (db w) !! messageId); [done|].
    cbn. by rewrite lookup_insert_ne.
  - intros Hnew. rewrite Hsame, Hdb1, Hnew. cbn. by apply map_size_insert_None.
  - by rewrite Hdb1, H.
  - rewrite Hsame, Hdb1, H. done.
Qed.

End Store.

(** The message "hello" stored twice in an empty vault: one row. *)
Lemma storeMessage_idempotent_witness :
  ∃ w1 w2,
    storeMessage Sample.P Sample.conversationKey Sample.hello Sample.w0
    = (Ok (repo_deriveMessageId Sample.P Sample.hello), w1)
    ∧ storeMessage Sample.P Sample.conversationKey Sample.hello w1
      = (Ok (repo_deriveMessageId Sample.P Sample.hello), w2)
    ∧ db w2 = db w1
    ∧ size (db_messages (db w2)) = 1.
Proof.
  destruct (storeMessage_idempotent Sample.P Sample.conversationKey Sample.hello Sample.w0)
    as (w1 & w2 & H1 & H2 & H3 & _ & _ & H6 & _).
  { vm_compute. reflexivity. }
  exists w1, w2. split; [exact H1|]. split; [exact H2|]. split; [exact H3|].
  rewrite H6; [reflexivity|]. vm_compute. reflexivity.
Defined.

(** ** Conversation keys *)

Lemma sortPair_comm (x y : string) : sortPair x y = sortPair y x.
Proof.
  unfold sortPair, String.ltb.
  rewrite (String.compare_antisym x y).
  destruct (String.compare y x) eqn:Hc; cbn; try done.
  apply String.compare_eq_iff in Hc. by subst.
Qed.

Lemma trim_address_nonempty (address : string) :
  isValidEthereumAddress address = true → (String.length (trim address) =? 0) = false.
Proof.
  destruct address as [|c0 rest]; [done|].
  intros H. unfold trim.
  assert (isWhiteSpace c0 = false) as Hc0.
  { destruct c0 as [[] [] [] [] [] [] [] []]; try discriminate H; reflexivity. }
  cbn [trimStart]. rewrite Hc0. cbn [trimEnd].
  destruct (trimEnd rest); [by rewrite Hc0|done].
Qed.

Lemma validateAddress_ok (address label : string) :
  isValidEthereumAddress address = true → validateAddress address label = Ok tt.
Proof.
  intros H. unfold validateAddress. by rewrite trim_address_nonempty, H.
Qed.

Section ConversationKey.

Context (P : Platform).

(** The HKDF info string does not depend on the order of the addresses. *)
Lemma infoString_comm (a b : string) (epoch : number) :
  infoString P a b epoch = infoString P b a epoch.
Proof. unfold infoString. by rewrite sortPair_comm. Qed.

Lemma validateKey_ok (key : bytes) (label : string) :
  length key = 32 → validateKey P key label = Ok tt.
Proof. intros H. unfold validateKey. by rewrite H. Qed.

Lemma validateX25519Key_ok (key : bytes) (keyType : string) :
  validKey key → validateX25519Key P key keyType = Ok tt.
Proof. intros [Hlen Hnz]. unfold validateX25519Key. by rewrite Hlen, Hnz. Qed.

(** The derivation on valid keys and addresses, in terms of the shared
    secret alone. *)
Lemma deriveConversationKey_valid (myPrivateKey peerPublicKey : bytes)
    (myAddress peerAddress : string) (epoch : option number) :
  validKey myPrivateKey → validKey peerPublicKey →
  isValidEthereumAddress myAddress = true →
  isValidEthereumAddress peerAddress = true →
  deriveConversationKey P myPrivateKey peerPublicKey myAddress peerAddress epoch =
  let? _ := validateEpoch (default (num 0) epoch) in
  let? sharedSecret :=
    match x25519_getSharedSecret P myPrivateKey peerPublicKey with
    | Ok secret => Ok secret
    | Throw err =>
        Throw (Exn ConversationKeyError
                 ("Key derivation failed: Failed to derive shared secret: " ++ message err))
    end in
  let keyMaterial :=
    hkdf P sharedSecret CONVERSATION_SALT
      (utf8 (infoString P myAddress peerAddress (default (num 0) epoch))) 32 in
  let? key := subtle_importKey keyMaterial false in
  Ok {| ConversationKeySpec.key := key;
        ConversationKeySpec.id := toHex (take 16 keyMaterial) |}.
Proof.
  intros Hk1 Hk2 Ha1 Ha2. unfold deriveConversationKey.
  rewrite !validateKey_ok by apply Hk1 || apply Hk2.
  rewrite !validateAddress_ok by done.
  unfold deriveSharedSecret. rewrite !validateX25519Key_ok by done.
  cbn [rbind]. destruct (validateEpoch _); [|done]. cbn [rbind].
  destruct (x25519_getSharedSecret P myPrivateKey peerPublicKey); done.
Qed.

(** C1.  For two key pairs whose keys are valid and on which the key
    agreement gives both parties the same shared secret, two valid
    addresses and a non-negative integer epoch, [deriveConversationKey]
    returns for A (own private key, B's public key, addresses in the order
    A, B) what it returns for B (own private key, A's public key, addresses
    in the order B, A).  When the agreement yields a secret and HKDF yields
    the 32 bytes asked for, that common result is the AES key made of those
    32 bytes together with the hex of their first 16 bytes as the id. *)
Theorem deriveConversationKey_symmetric (privA pubA privB pubB : bytes)
    (addrA addrB : string) (epoch : option number) :
  validKey privA → validKey pubA → validKey privB → validKey pubB →
  isValidEthereumAddress addrA = true →
  isValidEthereumAddress addrB = true →
  isInteger (default (num 0) epoch) = true →
  num_lt (default (num 0) epoch) (num 0) = false →
  x25519_getSharedSecret P privA pubB = x25519_getSharedSecret P privB pubA →
  deriveConversationKey P privA pubB addrA addrB epoch
  = deriveConversationKey P privB pubA addrB addrA epoch
  ∧ ∀ secret,
      x25519_getSharedSecret P privA pubB = Ok secret →
      let keyMaterial :=
        hkdf P secret CONVERSATION_SALT
          (utf8 (infoString P addrA addrB (default (num 0) epoch))) 32 in
      length keyMaterial = 32 →
      deriveConversationKey P privA pubB addrA addrB epoch
      = Ok {| ConversationKeySpec.key := {| raw := keyMaterial; extractable := false |};
              ConversationKeySpec.id := toHex (take 16 keyMaterial) |}.
Proof.
  intros HA HpA HB HpB Ha Hb Hint Hneg Hecdh.
  rewrite !deriveConversationKey_valid by done. split.
  - by rewrite Hecdh, (infoString_comm addrA addrB).
  - intros secret Hsecret keyMaterial Hlen.
    unfold validateEpoch. rewrite Hint, Hneg, Hsecret. cbn [negb orb rbind].
    fold keyMaterial. unfold subtle_importKey. rewrite Hlen. done.
Qed.

End ConversationKey.

(** Alice and Bob derive the key of their conversation at epoch 0. *)
Lemma deriveConversationKey_symmetric_witness :
  deriveConversationKey Sample.P Sample.privA Sample.pubB Sample.alice Sample.bob None
  = deriveConversationKey Sample.P Sample.privB Sample.pubA Sample.bob Sample.alice None
  ∧ ∃ spec,
      deriveConversationKey Sample.P Sample.privA Sample.pubB Sample.alice Sample.bob None
      = Ok spec
      ∧ String.length (ConversationKeySpec.id spec) = 32.
Proof.
  destruct (deriveConversationKey_symmetric Sample.P Sample.privA Sample.pubA
              Sample.privB Sample.pubB Sample.alice Sample.bob None) as [Hsym Hok];
    try (vm_compute; reflexivity); try (split; vm_compute; reflexivity).
  split; [exact Hsym|].
  eexists. split.
  - apply Hok; vm_compute; reflexivity.
  - vm_compute. reflexivity.
Defined.

(** ** Envelope validation *)

Lemma asString_Some (x : value) (s : string) : asString x = Some s ↔ x = VStr s.
Proof. destruct x; cbn; split; congruence. Qed.

Lemma HexSchema_iff (x : value) (s : string) :
  HexSchema x = Some s ↔ x = VStr s ∧ validHex s.
Proof.
  unfold HexSchema, validHex, hexBytes. rewrite bind_Some. split.
  - intros (s' & ->%asString_Some & Hif).
    destruct (Nat.even (String.length s') && HEX_RE s') eqn:Hc; [|done].
    injection Hif as ->. apply andb_prop in Hc as [Heven Hre]. split; [done|].
    apply Nat.even_spec in Heven as [n Hn]. exists n.
    destruct s as [|c s]; [done|]. cbn in Hn |- *. split; [lia|]. split; [done|lia].
  - intros (-> & n & Hn & Hhex & Hlen). exists s. split; [done|].
    assert (Nat.even (String.length s) = true) as ->.
    { apply Nat.even_spec. by exists n. }
    assert (HEX_RE s = true) as ->; [|done].
    destruct s; [cbn in Hlen; lia|done].
Qed.

Lemma refine_Some (check : string → bool) (s t : string) :
  refine check s = Some t ↔ s = t ∧ check s = true.
Proof.
  unfold refine. destruct (check s); split.
  - by intros [= ->].
  - by intros [-> _].
  - discriminate.
  - by intros [_ ?].
Qed.

Lemma hex_exactly (n : nat) (x : value) (s : string) :
  1 ≤ n →
  HexSchema x ≫= refine (hexOfLength (2 * n)) = Some s ↔ x = VStr s ∧ hexBytes s n.
Proof.
  intros Hn. rewrite bind_Some. setoid_rewrite HexSchema_iff.
  setoid_rewrite refine_Some. unfold hexOfLength, validHex, hexBytes. split.
  - intros (s' & (-> & m & Hm & Hhex & Hlen) & -> & Hl%Nat.eqb_eq). done.
  - intros (-> & Hhex & Hlen). exists s. repeat split; [by exists n| by apply Nat.eqb_eq].
Qed.

Lemma hex_nonEmpty (x : value) (s : string) :
  HexSchema x ≫= refine nonEmpty = Some s ↔ x = VStr s ∧ validHex s.
Proof.
  rewrite bind_Some. setoid_rewrite HexSchema_iff. setoid_rewrite refine_Some. split.
  - by intros (s' & [-> ?] & -> & _).
  - intros [-> Hv]. exists s. repeat split; [done|].
    destruct Hv as (n & Hn & _ & Hlen). unfold nonEmpty. apply Nat.ltb_lt. lia.
Qed.

Lemma num_lt_irrefl (n : number) : num_lt n n = false.
Proof.
  destruct n as [q| |[]]; cbn; try done.
  assert ((q ?= q)%Qc = Eq) as -> by (by apply Qceq_alt). done.
Qed.

Lemma Qccompare_Gt_Lt (p q : Qc) : (p ?= q)%Qc = Gt → (q ?= p)%Qc = Lt.
Proof.
  unfold Qccompare. rewrite <- (Qcompare_antisym (this p) (this q)).
  by intros ->.
Qed.

Lemma num_between (lo : Z) (m : number) :
  isInteger m = true →
  num_lt m (num lo) = false → num_lt (num lo) m = false → m = num lo.
Proof.
  destruct m as [q| |neg]; cbn; [|done|done].
  intros _ H1 H2. unfold num. f_equal. apply Qceq_alt.
  destruct (q ?= Q2Qc (inject_Z lo))%Qc eqn:Hq; [done|done|].
  apply Qccompare_Gt_Lt in Hq. by rewrite Hq in H2.
Qed.

Lemma version_one (x : value) (n : number) :
  z_number x ≫= z_int_min_max 1 1 = Some n ↔ x = VNum (num 1) ∧ n = num 1.
Proof.
  rewrite bind_Some. split.
  - intros (m & Hm & Hr). unfold z_int_min_max in Hr.
    destruct (isInteger m && negb (num_lt m (num 1)) && negb (num_lt (num 1) m)) eqn:Hc;
      [|done].
    injection Hr as <-. apply andb_prop in Hc as [[Hi H1]%andb_prop H2].
    apply negb_true_iff in H1, H2.
    rewrite (num_between 1 m Hi H1 H2) in *.
    split; [|done]. destruct x as [| | |[]| | |]; cbn in Hm; congruence.
  - intros [-> ->]. exists (num 1). split; [done|].
    unfold z_int_min_max. by rewrite num_lt_irrefl.
Qed.

Section EnvelopeSchema.

Context (P : Platform).

Lemma z_string_refine_Some (check : string → bool) (x : value) (s : string) :
  z_string_refine check x = Some s ↔ x = VStr s ∧ check s = true.
Proof.
  unfold z_string_refine. rewrite bind_Some. setoid_rewrite asString_Some.
  setoid_rewrite refine_Some. split.
  - by intros (s' & -> & -> & ?).
  - intros [-> ?]. by exists s.
Qed.

Lemma z_optional_hex (x : value) (a : option string) :
  z_optional HexSchema x = Some a ↔
  (x = VUndefined ∧ a = None) ∨ (∃ s, x = VStr s ∧ validHex s ∧ a = Some s).
Proof.
  unfold z_optional. split.
  - destruct x; try (intros [= <-]; by left);
      intros H; apply fmap_Some in H as (s' & Hs & ->);
      apply HexSchema_iff in Hs as [[= <-] ?]. right. by exists s.
  - intros [[-> ->]|(s & -> & Hv & ->)]; [done|].
    assert (HexSchema (VStr s) = Some s) as -> by (by apply HexSchema_iff). done.
Qed.

(** The schema and the specification's conditions select the same inputs. *)
Lemma MessageEnvelopeSchema_iff (input : value) :
  (∃ data, MessageEnvelopeSchema P input = Some data) ↔ acceptedEnvelope P input.
Proof.
  unfold acceptedEnvelope. split.
  - intros (data & H). destruct input; try discriminate H. cbn [isRecord].
    unfold MessageEnvelopeSchema in H.
    repeat (apply bind_Some in H as (? & ? & H)).
    repeat match goal with
    | H : z_string_refine _ _ = Some _ |- _ => apply z_string_refine_Some in H as [? ?]
    | H : _ ≫= refine (hexOfLength 32) = Some _ |- _ => apply (hex_exactly 16) in H as [? ?]; [|lia]
    | H : _ ≫= refine (hexOfLength 24) = Some _ |- _ => apply (hex_exactly 12) in H as [? ?]; [|lia]
    | H : _ ≫= refine nonEmpty = Some _ |- _ => apply hex_nonEmpty in H as [? ?]
    | H : _ ≫= z_int_min_max 1 1 = Some _ |- _ => apply version_one in H as [? ?]
    | H : z_optional HexSchema _ = Some _ |- _ => apply z_optional_hex in H
    end.
    repeat split; eauto.
    match goal with H : _ ∨ _ |- _ => destruct H as [[? ?]|(s & ? & ? & ?)] end; eauto.
  - intros (Hrec & Hv & (from & Hfrom & ?) & (to & Hto & ?) & (ts & Hts & ?)
            & (nonce & Hnonce & ?) & (iv & Hiv & ?) & (ct & Hct & ?) & Haad).
    destruct input; try discriminate Hrec.
    assert (∃ a, z_optional HexSchema (prop "aad" (VObj props)) = Some a) as [a Ha].
    { destruct Haad as [->|(s & -> & ?)].
      - by exists None.
      - exists (Some s). apply z_optional_hex. right. by exists s. }
    eexists. unfold MessageEnvelopeSchema.
    assert (z_number (prop "v" (VObj props)) ≫= z_int_min_max 1 1 = Some (num 1)) as ->
      by (by apply version_one).
    assert (z_string_refine (isAddress P) (prop "from" (VObj props)) = Some from) as ->
      by (by apply z_string_refine_Some).
    assert (z_string_refine (isAddress P) (prop "to" (VObj props)) = Some to) as ->
      by (by apply z_string_refine_Some).
    assert (z_string_refine (datetime P) (prop "ts" (VObj props)) = Some ts) as ->
      by (by apply z_string_refine_Some).
    assert (HexSchema (prop "nonce" (VObj props)) ≫= refine (hexOfLength 32) = Some nonce)
      as -> by (apply (hex_exactly 16); [lia|done]).
    assert (HexSchema (prop "iv" (VObj props)) ≫= refine (hexOfLength 24) = Some iv)
      as -> by (apply (hex_exactly 12); [lia|done]).
    assert (HexSchema (prop "ciphertext" (VObj props)) ≫= refine nonEmpty = Some ct)
      as -> by (by apply hex_nonEmpty).
    rewrite Ha. cbn. reflexivity.
Qed.

(** C6.  [safeParseMessageEnvelope] accepts an input exactly when the
    input is an object whose version is 1, whose [from] and [to] are
    addresses, whose [ts] is a date-time, whose nonce is hex of 16 bytes,
    whose IV is hex of 12 bytes, whose ciphertext is hex of at least one
    byte and whose [aad] is absent or valid hex.  Every rejection carries
    the one message "Invalid message payload.", whatever the field at
    fault. *)
Theorem safeParseMessageEnvelope_accepts_iff (input : value) :
  ((∃ data, safeParseMessageEnvelope P input = ParseOk data) ↔ acceptedEnvelope P input)
  ∧ (∀ error, safeParseMessageEnvelope P input = ParseFailed error → error = INVALID_PAYLOAD)
  ∧ (¬ acceptedEnvelope P input ↔ safeParseMessageEnvelope P input = ParseFailed INVALID_PAYLOAD).
Proof.
  rewrite <- MessageEnvelopeSchema_iff. unfold safeParseMessageEnvelope.
  destruct (MessageEnvelopeSchema P input) as [data|].
  - split; [|split].
    + split; intros _; eauto.
    + intros error [=].
    + split; [intros H; destruct H; eauto | discriminate].
  - split; [|split].
    + split; intros [? [=]].
    + by intros ? [= <-].
    + split; [done | intros _ [? [=]]].
Qed.
End EnvelopeSchema.

(** The envelope of the repository's tests is accepted; with version 2,
    with a short nonce, or with an empty [aad] it is rejected. *)
Example safeParseMessageEnvelope_samples :
  safeParseMessageEnvelope Sample.P (envelopeValue Sample.hello) = ParseOk Sample.hello
  ∧ safeParseMessageEnvelope Sample.P
      (VObj (("v", VNum (num 2)) :: match envelopeValue Sample.hello with
                                    | VObj props => props
                                    | _ => []
                                    end))
    = ParseFailed INVALID_PAYLOAD
  ∧ safeParseMessageEnvelope Sample.P
      (VObj (("nonce", VStr "abcd") :: match envelopeValue Sample.hello with
                                       | VObj props => props
                                       | _ => []
                                       end))
    = ParseFailed INVALID_PAYLOAD
  ∧ safeParseMessageEnvelope Sample.P
      (VObj (("aad", VStr "") :: match envelopeValue Sample.hello with
                                 | VObj props => props
                                 | _ => []
                                 end))
    = ParseFailed INVALID_PAYLOAD
  ∧ safeParseMessageEnvelope Sample.P VNull = ParseFailed INVALID_PAYLOAD.
Proof. vm_compute. done. Qed.

(** ** Importing a backup *)

Section ImportBackup.

Context (P : Platform).

Lemma restoreRows_run (s : StoreName) (rows : list VaultRow) (w : World) :
  ∃ w', restoreRows s rows w = (Ok tt, w')
        ∧ db w' = putRows (db w) s rows
        ∧ trace w' = (trace w ++ (EvPut s ∘ id <$> rows))%list.
Proof.
  revert w. induction rows as [|row rows IH]; intros w.
  - exists w. cbn. by rewrite app_nil_r.
  - cbn [restoreRows]. unfold bind at 1, restoreRow, try_catch, db_put, bind, log, setDb.
    cbn [db trace fst snd].
    match goal with |- context [restoreRows s rows ?w1] =>
      destruct (IH w1) as (w' & -> & Hdb & Htr) end.
    exists w'. split; [done|]. cbn in Hdb, Htr. split; [done|].
    rewrite Htr, <- app_assoc. done.
Qed.

Lemma restoreStores_run (preparedData : list (StoreName * list VaultRow))
    (stores : list StoreName) (w : World) :
  ∃ w', restoreStores preparedData stores w = (Ok tt, w')
        ∧ db w' = foldl (fun d s => putRows d s (default [] (lookupStore s preparedData)))
                    (db w) stores
        ∧ ∃ puts, trace w' = (trace w ++ puts)%list
                  ∧ Forall isPut puts.
Proof.
  revert w. induction stores as [|s stores IH]; intros w.
  - exists w. cbn. split; [done|]. split; [done|]. exists []. by rewrite app_nil_r.
  - cbn [restoreStores]. unfold bind at 1.
    destruct (restoreRows_run s (default [] (lookupStore s preparedData)) w)
      as (w1 & -> & Hdb1 & Htr1).
    destruct (IH w1) as (w' & -> & Hdb & puts & Htr & Hputs).
    exists w'. split; [done|]. cbn [foldl]. rewrite Hdb, Hdb1. split; [done|].
    eexists. rewrite Htr, Htr1, <- app_assoc. split; [done|].
    apply Forall_app. split; [|done].
    apply Forall_fmap, Forall_forall. intros row _. cbn. unfold isPut. eauto.
Qed.

(** C3.  A run of [importEncryptedBackup] either throws and leaves the
    world as it was (no row, store or trace entry has changed), or every
    check has passed: the passphrase and the schema are accepted, the file
    validates, its hex fields decode, AES-GCM authenticates the ciphertext,
    the SHA-256 of the plaintext is the stored hash, the plaintext parses,
    the payload validates and every row of every store is prepared.  Only
    then is the database deleted and are the prepared rows written, and the
    vault holds those rows and nothing else.  (A write can not fail in this
    model of IndexedDB.) *)
Theorem import_validates_before_mutating (passphrase : string) (fileJson : value)
    (mode : option string) (w : World) :
  (∃ e, importEncryptedBackup P passphrase fileJson mode w = (Throw e, w))
  ∨ (∃ file salt iv ciphertext plaintext payloadUnknown payload preparedData w' puts,
       passphraseRejected passphrase = false
       ∧ EncryptedBackupFileSchema P fileJson = true
       ∧ validateEncryptedBackupFileV1 fileJson = Ok file
       ∧ fromHex (EncryptedBackupFileV1.saltHex (EncryptedBackupFileV1.kdf file)) = Ok salt
       ∧ fromHex (EncryptedBackupFileV1.ivHex (EncryptedBackupFileV1.aead file)) = Ok iv
       ∧ fromHex (EncryptedBackupFileV1.ciphertextHex file) = Ok ciphertext
       ∧ decryptBackupPayload P
           (deriveBackupKey P passphrase salt
              (EncryptedBackupFileV1.iterations (EncryptedBackupFileV1.kdf file)))
           iv ciphertext = Ok plaintext
       ∧ sha256Hex P plaintext = EncryptedBackupFileV1.plaintextHashHex file
       ∧ JSON_parse P plaintext = Some payloadUnknown
       ∧ validateBackupPayloadV1 payloadUnknown = Ok payload
       ∧ prepareStores payload STORES = Ok preparedData
       ∧ importEncryptedBackup P passphrase fileJson mode w = (Ok tt, w')
       ∧ db w' = restoredDb preparedData
       ∧ trace w' = (trace w ++ [EvOpen; EvDeleteDatabase; EvOpen] ++ puts)%list
       ∧ Forall isPut puts).
Proof.
  destruct (importEncryptedBackup P passphrase fileJson mode w) as [r wEnd] eqn:Hrun.
  unfold importEncryptedBackup in Hrun.
  rewrite bind_throwIf in Hrun.
  destruct (passphraseRejected passphrase) eqn:Hpass; [thrown Hrun|].
  rewrite bind_throwIf in Hrun.
  destruct (String.eqb (default "replace" mode) "replace") eqn:Hmode; [|thrown Hrun].
  rewrite bind_throwIf in Hrun.
  destruct (EncryptedBackupFileSchema P fileJson) eqn:Hzod; [|thrown Hrun].
  cbn [negb] in Hrun.
  step_lift Hrun; [|thrown Hrun]. rename a into file.
  step_lift Hrun; [|thrown Hrun]. rename a into salt.
  step_lift Hrun; [|thrown Hrun]. rename a into iv.
  step_lift Hrun; [|thrown Hrun]. rename a into ciphertext.
  step_lift Hrun; [|thrown Hrun]. rename a into plaintext.
  rewrite bind_throwIf in Hrun.
  destruct (String.eqb (sha256Hex P plaintext) _) eqn:Hhash; [|thrown Hrun].
  apply String.eqb_eq in Hhash. cbn [negb] in Hrun.
  unfold bind at 1 in Hrun.
  destruct (JSON_parse P plaintext) as [payloadUnknown|] eqn:Hjson;
    [|unfold throw in Hrun; thrown Hrun].
  unfold ret at 1 in Hrun. cbv beta iota in Hrun.
  step_lift Hrun; [|thrown Hrun]. rename a into payload.
  step_lift Hrun; [|thrown Hrun]. rename a into preparedData.
  right. unfold bind, resetVault, getDb, bind, log, setDb in Hrun.
  cbn [fst snd db trace] in Hrun.
  match type of Hrun with context [restoreStores preparedData STORES ?w1] =>
    destruct (restoreStores_run preparedData STORES w1)
      as (w' & Hrestore & Hdb & puts & Htr & Hputs) end.
  rewrite Hrestore in Hrun. injection Hrun as <- <-.
  exists file, salt, iv, ciphertext, plaintext, payloadUnknown, payload, preparedData, w', puts.
  cbn in Hdb, Htr. repeat split; try done.
  rewrite Htr, <- !app_assoc. done.
Qed.
End ImportBackup.

(** The backup of Bob's vault restores that vault; with a different
    plaintext hash, or under another passphrase, the import throws and the
    vault that was there is untouched. *)
Example importEncryptedBackup_samples :
  let restored := importEncryptedBackup Sample.P Sample.passphrase
                    (fileValue Sample.backup) None Sample.wStored in
  let tampered := importEncryptedBackup Sample.P Sample.passphrase
                    (fileValue Sample.tamperedBackup) None Sample.wStored in
  let mistyped := importEncryptedBackup Sample.P "wrong passphrase"
                    (fileValue Sample.backup) None Sample.wStored in
  fst restored = Ok tt
  ∧ db (snd restored) = db Sample.wBob
  ∧ tampered = (Throw (Exn JsError "Backup integrity check failed (hash mismatch)."),
                Sample.wStored)
  ∧ mistyped
    = (Throw (Exn JsError
                "Backup integrity check failed (wrong passphrase or tampered file)."),
       Sample.wStored).
Proof. vm_compute. done. Qed.

(** ** Listing messages *)

Lemma Q2Qc_inject_le (a b : Z) :
  (a ≤ b)%Z → (Q2Qc (inject_Z a) <= Q2Qc (inject_Z b))%Qc.
Proof.
  intros H. unfold Qcle, Q2Qc. cbn [this]. rewrite !Qred_correct. by rewrite <- Zle_Qle.
Qed.

Lemma Q2Qc_inject_lt (a b : Z) :
  (a < b)%Z → (Q2Qc (inject_Z a) < Q2Qc (inject_Z b))%Qc.
Proof.
  intros H. unfold Qclt, Q2Qc. cbn [this]. rewrite !Qred_correct. by rewrite <- Zlt_Qlt.
Qed.

Lemma num_lt_nat (a b : nat) : num_lt (num (Z.of_nat a)) (num (Z.of_nat b)) = (a <? b).
Proof.
  unfold num_lt, num. destruct (Nat.ltb_spec a b) as [Hlt|Hge].
  - assert ((Q2Qc (inject_Z (Z.of_nat a)) ?= Q2Qc (inject_Z (Z.of_nat b)))%Qc = Lt) as ->;
      [|done].
    apply Qclt_alt, Q2Qc_inject_lt. lia.
  - destruct (Q2Qc (inject_Z (Z.of_nat a)) ?= Q2Qc (inject_Z (Z.of_nat b)))%Qc eqn:Hc;
      [done| |done].
    apply Qclt_alt in Hc. exfalso.
    apply (Qclt_not_le _ _ Hc). apply Q2Qc_inject_le. lia.
Qed.

Lemma below_mono (limit : number) (n m : nat) : n ≤ m → below limit m → below limit n.
Proof.
  unfold below, num, num_lt. intros Hnm. destruct limit as [q| |neg]; [|done|done].
  destruct (Q2Qc (inject_Z (Z.of_nat m)) ?= q)%Qc eqn:Hm; try done. intros _.
  apply Qclt_alt in Hm.
  assert (Q2Qc (inject_Z (Z.of_nat n)) < q)%Qc as Hn.
  { eapply Qcle_lt_trans; [|exact Hm]. apply Q2Qc_inject_le. lia. }
  assert ((Q2Qc (inject_Z (Z.of_nat n)) ?= q)%Qc = Lt) as Hn2 by (by apply Qclt_alt).
  by rewrite Hn2.
Qed.

Lemma index_insert_length (r : VaultRow) (l : list VaultRow) :
  length (index_insert r l) = S (length l).
Proof.
  induction l as [|x l IH]; [done|]. cbn. destruct (index_prev_before r x); cbn; lia.
Qed.

Lemma by_timestamp_prev_length (store : gmap string VaultRow) :
  length (by_timestamp_prev store) = size store.
Proof.
  unfold by_timestamp_prev.
  rewrite <- length_map_to_list, <- (length_fmap snd (map_to_list store)).
  induction (snd <$> map_to_list store) as [|r l IH]; [done|].
  cbn [foldr]. rewrite index_insert_length. cbn. by rewrite IH.
Qed.

Section ListMessages.

Context (P : Platform).

Lemma scanLoop_past_the_end (key : CryptoKey) (limit : number) (left : list VaultRow)
    (found : list MessageEnvelope) (count : nat) (w : World) :
  below limit (count + length left) →
  ∃ w', scanLoop P key limit None None left found count w = (Throw PAST_THE_END, w').
Proof.
  revert found count w. induction left as [|row rest IH]; intros found count w Hbelow.
  - cbn [scanLoop]. rewrite Nat.add_0_r in Hbelow. unfold below in Hbelow.
    rewrite Hbelow. cbn. eauto.
  - cbn [scanLoop].
    assert (below limit count) as Hc by (eapply below_mono; [|exact Hbelow]; lia).
    unfold below in Hc. rewrite Hc. cbn [negb truthy andb orb].
    destruct (decryptMessageRow P row key w) as [[envelope|e] w1].
    + apply IH. eapply below_mono; [|exact Hbelow]. cbn. lia.
    + apply IH. eapply below_mono; [|exact Hbelow]. cbn. lia.
Qed.

(** Opening a row does not change the world. *)
Lemma decryptMessageRow_openRow (row : VaultRow) (key : CryptoKey) (w : World) :
  ∃ r, decryptMessageRow P row key w = (r, w)
       ∧ match openRow P key row with
         | Some envelope => r = Ok envelope
         | None => ∃ e, r = Throw e
         end.
Proof.
  unfold decryptMessageRow, openRow, bind, decryptAead, lift, throwIf. cbn [default].
  destruct (aes_gcm_decrypt _ _ _ _ _) as [payload|]; [|unfold throw; eauto].
  unfold ret at 1. destruct (parseMessageRecord P payload) as [envelope|e]; [|eauto].
  destruct (String.eqb _ _); cbn [negb]; unfold ret, throw; eauto.
Qed.

(** The loop, for a limit that is a natural number: it returns what the
    scan of the specification collects when that scan ends inside the
    index, and throws when the scan would come to the end of the index. *)
Lemma scanLoop_collect (key : CryptoKey) (before after : option string) (n : nat)
    (left : list VaultRow) (found : list MessageEnvelope) (count : nat) (w : World) :
  count ≤ n →
  scanLoop P key (num (Z.of_nat n)) before after left found count w =
  if endsInside P key before after (n - count) left
  then (Ok (found ++ collect P key before after (n - count) left)%list, w)
  else (Throw (if truthy before || truthy after then UNDEFINED_ROW else PAST_THE_END), w).
Proof.
  revert found count. induction left as [|row rest IH]; intros found count Hle.
  - cbn [scanLoop]. rewrite num_lt_nat.
    destruct (Nat.ltb_spec count n) as [Hlt|Hge]; cbn [negb].
    + destruct (n - count) as [|k] eqn:Hk; [lia|]. cbn [endsInside collect].
      destruct (truthy before || truthy after); done.
    + replace (n - count) with 0 by lia. cbn. by rewrite app_nil_r.
  - cbn [scanLoop]. rewrite num_lt_nat.
    destruct (Nat.ltb_spec count n) as [Hlt|Hge]; cbn [negb].
    + destruct (n - count) as [|k] eqn:Hk; [lia|]. cbn [endsInside collect].
      destruct (truthy before && str_ge (updatedAt row) (bound before)).
      { rewrite IH by lia. by rewrite Hk. }
      destruct (truthy after && str_le (updatedAt row) (bound after)).
      { unfold ret. by rewrite app_nil_r. }
      destruct (decryptMessageRow_openRow row key w) as (r & -> & Hr).
      destruct (openRow P key row) as [envelope|].
      * subst r. rewrite IH by lia. replace (n - (count + 1)) with k by lia.
        destruct (endsInside P key before after k rest); [|done].
        by rewrite <- app_assoc.
      * destruct Hr as [e ->]. rewrite IH by lia. by rewrite Hk.
    + replace (n - count) with 0 by lia. cbn. by rewrite app_nil_r.
Qed.

(** What [listMessages] computes for a limit that is a natural number.
    On an empty store, or when the scan ends inside the index, it returns
    the collected messages sorted newest first; otherwise it throws. *)
Lemma listMessages_outcome (key : CryptoKey) (n : nat) (before after : option string)
    (w : World) :
  let rows := by_timestamp_prev (db_messages (db w)) in
  listMessages P key (Some (num (Z.of_nat n))) before after w =
  (if isEmpty rows || endsInside P key before after n rows
   then Ok (sortNewestFirst P (collect P key before after n rows))
   else Throw (if truthy before || truthy after then UNDEFINED_ROW else PAST_THE_END),
   logged w [EvOpen; EvOpenCursor messages]).
Proof.
  intros rows. unfold listMessages, bind, getDb, openCursor, bind, log, getStore.
  cbn [fst snd db trace store_of MESSAGES_STORE default from_option rand_ix time_ix
       session lastUnlockAddressRef console]. unfold Datatypes.id. fold rows.
  unfold logged. rewrite <- app_assoc. cbn [app].
  destruct rows as [|row rest] eqn:Hrows.
  - cbn [ret isEmpty orb]. by destruct n.
  - cbn [ret pending isEmpty orb]. rewrite scanLoop_collect by lia.
    rewrite Nat.sub_0_r.
    by destruct (endsInside P key before after n (row :: rest)).
Qed.
(** C8, what the code does.  With no [before] and no [after] bound, a
    messages store that is not empty and a limit above the number of its
    rows, [listMessages] does not return a list: the loop reads every row,
    comes to the end of the index with fewer than [limit] messages, and
    [cursor.continue()] on the exhausted cursor throws.  The variable
    [cursor] is never assigned the result of [continue()], so the loop has
    no way to see the end of the index. *)
Theorem listMessages_throws_past_the_end (key : CryptoKey) (limit : option number)
    (w : World) :
  0 < size (db_messages (db w)) →
  below (default (num 50) limit) (size (db_messages (db w))) →
  ∃ w', listMessages P key limit None None w = (Throw PAST_THE_END, w').
Proof.
  intros Hsome Hbelow. unfold listMessages, bind, getDb, openCursor, bind, log, getStore.
  cbn [fst snd db trace store_of MESSAGES_STORE].
  pose proof (by_timestamp_prev_length (db_messages (db w))) as Hlen.
  destruct (by_timestamp_prev (db_messages (db w))) as [|row rows] eqn:Hrows.
  - cbn in Hlen. lia.
  - cbn [ret pending].
    match goal with |- context [scanLoop P key ?l None None ?left ?f ?c ?w1] =>
      destruct (scanLoop_past_the_end key l left f c w1) as (w' & ->) end.
    + cbn [Nat.add]. by rewrite Hlen.
    + eauto.
Qed.
End ListMessages.


(** The scenario of the specification: one stored message, listed with the
    default limit. *)
Lemma listMessages_throws_past_the_end_witness :
  ∃ w', listMessages Sample.P Sample.conversationKey None None None Sample.wStored
        = (Throw PAST_THE_END, w').
Proof.
  apply (listMessages_throws_past_the_end Sample.P Sample.conversationKey None
           Sample.wStored).
  - vm_compute. lia.
  - vm_compute. reflexivity.
Defined.

(** With a limit of 1 the same listing returns the message: the loop ends
    on its count before the cursor is advanced past the end. *)
Example listMessages_limit_reached :
  fst (listMessages Sample.P Sample.conversationKey (Some (num 1)) None None Sample.wStored)
  = Ok [Sample.hello].
Proof. vm_compute. reflexivity. Qed.

(** Two stored messages.  A limit of 1 or 2 is reached inside the index and
    the newest messages are returned; so is the end of the scan at a row at
    or before [after]; a limit of 3, and the default limit, are not reached
    and the listing throws. *)
Example listMessages_two_messages :
  let list limit before after :=
    fst (listMessages Sample.P Sample.conversationKey limit before after Sample.wTwo) in
  list (Some (num 1)) None None = Ok [Sample.later]
  ∧ list (Some (num 2)) None None = Ok [Sample.later; Sample.hello]
  ∧ list (Some (num 1)) (Some "2024-01-02T00:00:00.000Z") None = Ok [Sample.hello]
  ∧ list None None (Some "2024-01-01T00:00:00.000Z") = Ok [Sample.later]
  ∧ list (Some (num 3)) None None = Throw PAST_THE_END
  ∧ list None None None = Throw PAST_THE_END
  ∧ list None (Some "2024-01-02T00:00:00.000Z") None = Throw UNDEFINED_ROW.
Proof. vm_compute. done. Qed.

(** * Further properties of the code *)

(** ** Hex encodings *)

(** Two hex digits parse to a number, and the byte of that number is
    written as the two digits in lower case. *)
Lemma hex_pair_value (a b : ascii) :
  isHexDigit a && isHexDigit b = true →
  (∃ z, parseInt16 (pair a b) = Some z)
  ∧ byteToHex (toUint8 (parseInt16 (pair a b))) = pair (lowerChar a) (lowerChar b).
Proof.
  revert a b.
  assert (H : ∀ a b,
    implb (isHexDigit a && isHexDigit b)
      (isSome (parseInt16 (pair a b))
       && String.eqb (byteToHex (toUint8 (parseInt16 (pair a b))))
            (pair (lowerChar a) (lowerChar b))) = true).
  { apply ascii_forall2. vm_compute. reflexivity. }
  intros a b Hab. specialize (H a b). rewrite Hab in H. cbn [implb] in H.
  apply andb_true_iff in H as [H1 H2]. split.
  - destruct (parseInt16 (pair a b)); [eauto | done].
  - by apply String.eqb_eq.
Qed.

Lemma toHex_fromHexPairs (hex : string) :
  allHex hex = true → Nat.even (String.length hex) = true →
  toHex (fromHexPairs hex) = toLowerCase hex.
Proof.
  revert hex. fix IH 1. intros [|a [|b rest]] Hhex Heven; [done | done |].
  cbn [allHex] in Hhex. apply andb_true_iff in Hhex as [Ha Hhex].
  apply andb_true_iff in Hhex as [Hb Hhex].
  cbn [fromHexPairs toHex toLowerCase]. fold (pair a b).
  destruct (hex_pair_value a b) as [_ ->]; [by rewrite Ha, Hb|].
  unfold pair. rewrite !append_cons, append_nil. f_equal. f_equal.
  apply IH; [done|]. exact Heven.
Qed.

(** X1.  [fromHex] of the backup module reads back what [toHex] wrote:
    decoding the hex encoding of any bytes returns those bytes, and does
    not throw. *)
Theorem hex_round_trip (bs : bytes) : fromHex (toHex bs) = Ok bs.
Proof.
  unfold fromHex. rewrite toHex_length, Nat.odd_mul. cbn [Nat.odd andb].
  by rewrite fromHexPairs_toHex.
Qed.

(** X2.  In the other direction the case of the digits is lost: when
    [fromHex] of the backup module decodes a string of hex digits, [toHex]
    of the result is that string in lower case. *)
Theorem toHex_fromHex (hex : string) (bs : bytes) :
  allHex hex = true → fromHex hex = Ok bs → toHex bs = toLowerCase hex.
Proof.
  unfold fromHex. intros Hhex. destruct (Nat.odd (String.length hex)) eqn:Hodd; [done|].
  intros [= <-]. apply toHex_fromHexPairs; [done|].
  by rewrite <- Nat.negb_odd, Hodd.
Qed.

Lemma toHex_fromHex_witness : toHex [x0a; xbc] = toLowerCase "0ABC".
Proof. apply (toHex_fromHex "0ABC" [x0a; xbc]); reflexivity. Defined.

(** ** The hex decoder and the record check of the identity keys *)

Section IdentityKeys.

Context (P : Platform).

Lemma identityKeys_fromHexLoop_hex (hex : string) (i : nat) :
  allHex hex = true → identityKeys_fromHexLoop P hex i = inr (fromHexPairs hex).
Proof.
  revert hex i. fix IH 1. intros [|a [|b rest]] i Hhex; [done | done |].
  cbn [allHex] in Hhex. apply andb_true_iff in Hhex as [Ha Hhex].
  apply andb_true_iff in Hhex as [Hb Hhex].
  cbn [identityKeys_fromHexLoop fromHexPairs]. fold (pair a b).
  destruct (hex_pair_value a b) as [[z Hz] _]; [by rewrite Ha, Hb|].
  rewrite Hz, (IH rest (i + 1) Hhex). done.
Qed.

(** X3.  [fromHex] of the identity keys accepts exactly the strings made
    of an even number of hex digits (the empty string among them), and
    decodes them to the bytes that [fromHex] of the backup module decodes
    them to. *)
Theorem identityKeys_fromHex_iff (hex : string) (bs : bytes) :
  identityKeys_fromHex P hex = inr bs
  ↔ Nat.even (String.length hex) = true ∧ allHex hex = true ∧ fromHex hex = Ok bs.
Proof.
  unfold identityKeys_fromHex, fromHex. rewrite <- Nat.negb_odd.
  destruct (Nat.odd (String.length hex)); cbn [negb].
  - split; [done|]. by intros [? _].
  - destruct (allHex hex) eqn:Hhex; cbn [negb].
    + rewrite identityKeys_fromHexLoop_hex by done. split.
      * by intros [= <-].
      * by intros (_ & _ & [= <-]).
    + split; [done|]. by intros (_ & ? & _).
Qed.

(** X4.  [validateIdentityKeyRecord] accepts exactly the objects whose
    [publicKeyHex] and [privateKeyHex] are strings of one hex digit or
    more, and hands back those two strings. *)
Theorem validateIdentityKeyRecord_iff (record : value) (publicKeyHex privateKeyHex : string) :
  validateIdentityKeyRecord record = inr (publicKeyHex, privateKeyHex)
  ↔ isObject record = true
    ∧ prop "publicKeyHex" record = VStr publicKeyHex
    ∧ prop "privateKeyHex" record = VStr privateKeyHex
    ∧ HEX_RE publicKeyHex = true
    ∧ HEX_RE privateKeyHex = true.
Proof.
  unfold validateIdentityKeyRecord.
  destruct (isObject record); cbn [negb]; [|split; [done|by intros [? _]]].
  destruct (prop "publicKeyHex" record) as [| | | |pub| |];
    cbn [missingString notHex]; try (split; [done|by intros (_ & ? & _)]).
  destruct (prop "privateKeyHex" record) as [| | | |priv| |];
    cbn [missingString notHex];
    try (destruct (String.length pub =? 0); split; (done || by intros (_ & _ & ? & _))).
  destruct pub as [|c pub]; cbn [String.length Nat.eqb].
  { split; [done|]. by intros (_ & [= <-] & _ & ? & _). }
  destruct priv as [|d priv]; cbn [String.length Nat.eqb].
  { split; [done|]. by intros (_ & _ & [= <-] & _ & ? ). }
  destruct (HEX_RE (String c pub)) eqn:Hpub; cbn [negb].
  - destruct (HEX_RE (String d priv)) eqn:Hpriv; cbn [negb].
    + split; [by intros [= <- <-]|]. by intros (_ & [= <-] & [= <-] & _).
    + split; [done|]. intros (_ & _ & [= <-] & _ & ?). congruence.
  - split; [done|]. intros (_ & [= <-] & _ & ? & _). congruence.
Qed.

End IdentityKeys.

(** The two decoders on a string that is not hex: the one of the backup
    module stores NaN as the byte 0, the one of the identity keys throws.
    And a record with a key of three hex digits passes the record check,
    though its key does not decode. *)
Example fromHex_on_bad_input :
  fromHex "zz" = Ok [x00]
  ∧ identityKeys_fromHex Sample.P "zz"
    = inl (IdentityKeyErrorOf "Invalid hex string: contains non-hex characters")
  ∧ validateIdentityKeyRecord
      (VObj [("publicKeyHex", VStr "abc"); ("privateKeyHex", VStr "0123")])
    = inr ("abc", "0123")
  ∧ identityKeys_fromHex Sample.P "abc"
    = inl (IdentityKeyErrorOf "Invalid hex string length.").
Proof. vm_compute. done. Qed.

(** ** The vault storage layer: round trip *)

Section VaultRoundTrip.

Context (P : Platform).

(** X5.  What [putEncryptedRecord] wrote, [getDecryptedRecord] reads
    back: when AES-GCM opens what it sealed, a put followed by a get of
    the same store, id, key and additional data returns the plaintext, and
    the get writes nothing. *)
Theorem getDecryptedRecord_after_put (store : StoreName) (id : string) (key : CryptoKey)
    (plaintext : bytes) (aad : option bytes) (w : World) :
  opens P key aad (sealedAt P key aad plaintext (rand_ix w)) plaintext →
  ∃ w1 w2,
    putEncryptedRecord P store id key plaintext aad w = (Ok tt, w1)
    ∧ getDecryptedRecord P store id key aad w1 = (Ok (Some plaintext), w2)
    ∧ db w2 = db w1.
Proof.
  unfold opens, sealedAt. cbn [iv ciphertext]. intros Hopen.
  unfold putEncryptedRecord, getDecryptedRecord.
  cbv [encryptAead randomBytes drawRandom bind ret nowISO getDb log db_get db_put setDb
       decryptAead].
  cbn [Z.leb Z.compare db trace store_of rand_ix time_ix fst snd].
  change (Z.to_nat 12) with 12.
  eexists _, _. split; [reflexivity|]. cbn [db trace].
  rewrite store_of_with_store, lookup_insert_eq. cbn [blob iv ciphertext].
  rewrite Hopen. done.
Qed.

(** X6.  [getDecryptedRecord] only reads: the database is as it was
    whatever the outcome, and the outcome is [null] exactly when no row is
    stored under the id. *)
Theorem getDecryptedRecord_reads_only (store : StoreName) (id : string) (key : CryptoKey)
    (aad : option bytes) (w : World) :
  db (snd (getDecryptedRecord P store id key aad w)) = db w
  ∧ (fst (getDecryptedRecord P store id key aad w) = Ok None
     ↔ store_of (db w) store !! id = None).
Proof.
  unfold getDecryptedRecord.
  cbv [bind ret getDb log db_get decryptAead throw].
  cbn [db trace fst snd].
  destruct (store_of (db w) store !! id) as [row|]; [|done].
  destruct (aes_gcm_decrypt P _ _ _ _); cbn; split; try done; split; done.
Qed.

End VaultRoundTrip.

(** The setting "theme" written and read back under one session key. *)
Lemma getDecryptedRecord_after_put_witness :
  ∃ w1 w2,
    putEncryptedRecord Sample.P settings "theme" Sample.sessionKeyA (utf8 "dark") None
      Sample.w0 = (Ok tt, w1)
    ∧ getDecryptedRecord Sample.P settings "theme" Sample.sessionKeyA None w1
      = (Ok (Some (utf8 "dark")), w2)
    ∧ db w2 = db w1.
Proof.
  apply (getDecryptedRecord_after_put Sample.P settings "theme" Sample.sessionKeyA
           (utf8 "dark") None Sample.w0).
  vm_compute. reflexivity.
Defined.

(** ** The data storage key *)

Section DataStorageKey.

Context (P : Platform).

(** Decrypting a wrapped DSK does not touch the world. *)
Lemma decryptDSK_world (encryptedDSK : EncryptedBlob) (sessionKey : CryptoKey) (w : World) :
  decryptDSK P encryptedDSK sessionKey w = (fst (decryptDSK P encryptedDSK sessionKey w), w).
Proof.
  unfold decryptDSK, bind, try_catch, decryptAead, importDSK, lift, ret, throw.
  destruct (aes_gcm_decrypt P _ _ _ _); cbn; done.
Qed.

Lemma subtle_importKey_32 (rawKey : bytes) (ext : bool) :
  length rawKey = 32 → subtle_importKey rawKey ext = Ok {| raw := rawKey; extractable := ext |}.
Proof. unfold subtle_importKey. by intros ->. Qed.

Lemma decryptDSK_opens (encryptedDSK : EncryptedBlob) (sessionKey dsk : CryptoKey) (w : World) :
  extractable dsk = true → length (raw dsk) = 32 →
  opens P sessionKey (Some DSK_AAD_LABEL) encryptedDSK (raw dsk) →
  decryptDSK P encryptedDSK sessionKey w = (Ok dsk, w).
Proof.
  unfold opens. cbn [default]. intros Hext Hlen Hopen.
  unfold decryptDSK, bind, try_catch, decryptAead, importDSK, lift, ret.
  cbn [default]. rewrite Hopen, subtle_importKey_32 by done.
  destruct dsk as [r e]. cbn in Hext. by subst.
Qed.

(** X7.  A DSK wrapped by [encryptDSK] under a session key is unwrapped by
    [decryptDSK] under that key to the same key: an extractable AES-256
    key with the same bytes. *)
Theorem decryptDSK_encryptDSK (dsk sessionKey : CryptoKey) (w : World) :
  extractable dsk = true →
  length (raw dsk) = 32 →
  opens P sessionKey (Some DSK_AAD_LABEL)
    (sealedAt P sessionKey (Some DSK_AAD_LABEL) (raw dsk) (rand_ix w)) (raw dsk) →
  ∃ encryptedDSK w1,
    encryptDSK P dsk sessionKey w = (Ok encryptedDSK, w1)
    ∧ decryptDSK P encryptedDSK sessionKey w1 = (Ok dsk, w1).
Proof.
  intros Hext Hlen Hopen.
  unfold encryptDSK, exportDSK. rewrite Hext.
  cbv [encryptAead randomBytes drawRandom bind ret].
  cbn [Z.leb Z.compare]. change (Z.to_nat 12) with 12.
  eexists _, _. split; [reflexivity|]. by apply decryptDSK_opens.
Qed.

(** On a vault without a DSK, [getOrCreateDSK] generates one and stores it
    wrapped under the session key. *)
Lemma getOrCreateDSK_fresh (sessionKey : CryptoKey) (w : World) :
  db_keys (db w) !! DSK_ID = None →
  ∃ w1,
    getOrCreateDSK P sessionKey w = (Ok (dskAt P (rand_ix w)), w1)
    ∧ db w1 = with_store (db w) keys (<[DSK_ID := dskRow P sessionKey w]> (db_keys (db w)))
    ∧ session w1 = session w
    ∧ lastUnlockAddressRef w1 = lastUnlockAddressRef w
    ∧ console w1 = console w.
Proof.
  intros Hnone. unfold getOrCreateDSK.
  cbv [bind ret getDb log db_get generateDSK drawRandom encryptDSK exportDSK encryptAead
       randomBytes nowISO db_put setDb].
  cbn [db trace store_of rand_ix time_ix fst snd session lastUnlockAddressRef console].
  rewrite Hnone. cbn [extractable raw Z.leb Z.compare db trace store_of rand_ix time_ix
    fst snd session lastUnlockAddressRef console].
  change (Z.to_nat 12) with 12.
  eexists. split; [reflexivity|]. done.
Qed.

(** On a vault that has a DSK row, [getOrCreateDSK] unwraps it and writes
    nothing. *)
Lemma getOrCreateDSK_existing (sessionKey : CryptoKey) (row : VaultRow) (w : World) :
  db_keys (db w) !! DSK_ID = Some row →
  ∃ w1,
    getOrCreateDSK P sessionKey w = (fst (decryptDSK P (blob row) sessionKey w1), w1)
    ∧ db w1 = db w
    ∧ session w1 = session w
    ∧ lastUnlockAddressRef w1 = lastUnlockAddressRef w
    ∧ console w1 = console w.
Proof.
  intros Hrow. unfold getOrCreateDSK.
  cbv [bind ret getDb log db_get].
  cbn [db trace store_of fst snd]. rewrite Hrow.
  eexists. split; [apply decryptDSK_world|]. done.
Qed.

(** X8.  The DSK is created once.  On a vault without a DSK row the first
    [getOrCreateDSK] generates the key and stores it wrapped; a second
    call with the same session key returns that same key and leaves the
    vault as it is. *)
Theorem getOrCreateDSK_stable (sessionKey : CryptoKey) (w : World) :
  let dsk := dskAt P (rand_ix w) in
  db_keys (db w) !! DSK_ID = None →
  length (raw dsk) = 32 →
  opens P sessionKey (Some DSK_AAD_LABEL)
    (sealedAt P sessionKey (Some DSK_AAD_LABEL) (raw dsk) (S (rand_ix w))) (raw dsk) →
  ∃ w1 w2,
    getOrCreateDSK P sessionKey w = (Ok dsk, w1)
    ∧ is_Some (db_keys (db w1) !! DSK_ID)
    ∧ getOrCreateDSK P sessionKey w1 = (Ok dsk, w2)
    ∧ db w2 = db w1.
Proof.
  intros dsk Hnone Hlen Hopen.
  destruct (getOrCreateDSK_fresh sessionKey w Hnone) as (w1 & Hrun1 & Hdb1 & _).
  assert (Hrow : db_keys (db w1) !! DSK_ID = Some (dskRow P sessionKey w)).
  { rewrite Hdb1. cbn. apply lookup_insert_eq. }
  destruct (getOrCreateDSK_existing sessionKey _ w1 Hrow) as (w2 & Hrun2 & Hdb2 & _).
  exists w1, w2. split; [done|]. split; [eauto|]. split; [|done].
  rewrite Hrun2. rewrite (decryptDSK_opens _ _ dsk); done.
Qed.

(** X9.  [getDSK] only reads.  Without a DSK row it returns [null]; with
    one it returns what [getOrCreateDSK] returns, the key or the error. *)
Theorem getDSK_reads_only (sessionKey : CryptoKey) (w : World) :
  db (snd (getDSK P sessionKey w)) = db w
  ∧ (db_keys (db w) !! DSK_ID = None → fst (getDSK P sessionKey w) = Ok None)
  ∧ (is_Some (db_keys (db w) !! DSK_ID) →
     fst (getDSK P sessionKey w)
     = match fst (getOrCreateDSK P sessionKey w) with
       | Ok dsk => Ok (Some dsk)
       | Throw e => Throw e
       end).
Proof.
  unfold getDSK, getOrCreateDSK.
  cbv [bind ret getDb log db_get]. cbn [db trace store_of fst snd].
  destruct (db_keys (db w) !! DSK_ID) as [row|] eqn:Hrow.
  - match goal with |- context [decryptDSK P ?b ?k ?w1] =>
      rewrite (decryptDSK_world b k w1);
      destruct (fst (decryptDSK P b k w1)) end; cbn.
    + split; [done|]. split; [done|]. done.
    + split; [done|]. split; [done|]. done.
  - cbn. split; [done|]. split; [done|]. by intros [? ?].
Qed.

End DataStorageKey.

(** Bob's DSK wrapped under his session key and unwrapped again. *)
Lemma decryptDSK_encryptDSK_witness :
  ∃ encryptedDSK w1,
    encryptDSK Sample.P Sample.dskBob Sample.sessionKeyB Sample.w0 = (Ok encryptedDSK, w1)
    ∧ decryptDSK Sample.P encryptedDSK Sample.sessionKeyB w1 = (Ok Sample.dskBob, w1).
Proof.
  apply (decryptDSK_encryptDSK Sample.P Sample.dskBob Sample.sessionKeyB Sample.w0);
    vm_compute; reflexivity.
Defined.

(** The first two unlocks of a fresh installation get the same DSK. *)
Lemma getOrCreateDSK_stable_witness :
  ∃ w1 w2,
    getOrCreateDSK Sample.P Sample.sessionKeyB Sample.w0
    = (Ok (dskAt Sample.P (rand_ix Sample.w0)), w1)
    ∧ is_Some (db_keys (db w1) !! DSK_ID)
    ∧ getOrCreateDSK Sample.P Sample.sessionKeyB w1
      = (Ok (dskAt Sample.P (rand_ix Sample.w0)), w2)
    ∧ db w2 = db w1.
Proof.
  apply (getOrCreateDSK_stable Sample.P Sample.sessionKeyB Sample.w0);
    vm_compute; reflexivity.
Defined.

(** ** The session *)

Section Session.

Context (P : Platform).

Lemma endsIn_bind {A B} (Q : VaultSessionState → Prop) (m : M A) (k : A → M B) :
  (∀ a, endsIn Q (k a)) → endsIn Q (bind m k).
Proof.
  intros Hk w r w'. unfold bind. destruct (m w) as [[a|e] w1]; [|done]. apply Hk.
Qed.

Lemma endsIn_setSession (Q : VaultSessionState → Prop) (s : VaultSessionState) :
  Q s → endsIn Q (setSession s).
Proof. intros HQ w r w' [= _ <-]. done. Qed.

(** X10.  [unlockFromSignature] never rejects and never leaves the session
    locked or unlocking: when it is done the session is unlocked, or in
    error with the message of what failed. *)
Theorem unlock_settles (signature address : string) (w : World) :
  ∃ w', unlockFromSignature P signature address w = (Ok tt, w')
        ∧ settled (session w').
Proof.
  unfold unlockFromSignature. unfold bind at 1, getSession. unfold bind at 1, setSession at 1.
  unfold try_catch.
  match goal with |- context [match ?body ?w0 with _ => _ end] =>
    assert (Hends : endsIn settled body);
    [|destruct (body w0) as [[[]|e] w1] eqn:Hbody] end.
  - repeat (apply endsIn_bind; intros ?). by apply endsIn_setSession.
  - eexists. split; [reflexivity|]. by apply (Hends _ _ _ Hbody).
  - eexists. split; [reflexivity|]. done.
Qed.

Lemma keepsVault_refl (d : Db) : keepsVault d d.
Proof. done. Qed.

Lemma keepsVault_trans (d1 d2 d3 : Db) :
  keepsVault d1 d2 → keepsVault d2 d3 → keepsVault d1 d3.
Proof.
  intros [H1 H1'] [H2 H2']. split.
  - intros s k Hne. by rewrite H2, H1.
  - intros row Hrow. rewrite <- (H1' row Hrow). apply (H2' row).
    by rewrite (H1' row Hrow).
Qed.

Lemma keeps_bind {A B} (m : M A) (k : A → M B) :
  keeps m → (∀ a, keeps (k a)) → keeps (bind m k).
Proof.
  intros Hm Hk w. specialize (Hm w). unfold bind.
  destruct (m w) as [[a|e] w1]; [|done].
  eapply keepsVault_trans; [exact Hm|apply Hk].
Qed.

Lemma keeps_try_catch {A} (body : M A) (handler : exn → M A) :
  keeps body → (∀ e, keeps (handler e)) → keeps (try_catch body handler).
Proof.
  intros Hm Hk w. specialize (Hm w). unfold try_catch.
  destruct (body w) as [[a|e] w1]; [done|].
  eapply keepsVault_trans; [exact Hm|apply Hk].
Qed.

Lemma keeps_same {A} (m : M A) : (∀ w, db (snd (m w)) = db w) → keeps m.
Proof. intros H w. rewrite H. apply keepsVault_refl. Qed.

Lemma keeps_getOrCreateDSK (sessionKey : CryptoKey) : keeps (getOrCreateDSK P sessionKey).
Proof.
  intros w. destruct (db_keys (db w) !! DSK_ID) as [row|] eqn:Hrow.
  - destruct (getOrCreateDSK_existing P sessionKey row w Hrow) as (w1 & -> & Hdb & _).
    cbn [snd]. rewrite Hdb. apply keepsVault_refl.
  - destruct (getOrCreateDSK_fresh P sessionKey w Hrow) as (w1 & -> & Hdb & _).
    cbn [snd]. rewrite Hdb. split.
    + intros s k Hne. destruct (decide (s = keys)) as [->|Hs'].
      * rewrite store_of_with_store. cbn. rewrite lookup_insert_ne; [done|]. congruence.
      * by rewrite store_of_with_store_ne.
    + intros row. cbn. congruence.
Qed.

(** X11.  [unlockFromSignature] keeps the vault: the only row it can write
    is the DSK row, and only where there was none.  On a vault that has a
    DSK row it writes nothing, whatever the signature and the address
    are: a failed unlock does not damage the stored key. *)
Theorem unlock_keeps_vault (signature address : string) (w : World) :
  let w' := snd (unlockFromSignature P signature address w) in
  (∀ s k, (s, k) ≠ (keys, DSK_ID) → store_of (db w') s !! k = store_of (db w) s !! k)
  ∧ (∀ row, db_keys (db w) !! DSK_ID = Some row → db w' = db w).
Proof.
  assert (H : keeps (unlockFromSignature P signature address)); [|apply H].
  unfold unlockFromSignature.
  apply keeps_bind; [by apply keeps_same|]. intros rendered.
  apply keeps_bind; [by apply keeps_same|]. intros _.
  apply keeps_try_catch; [|intros e; by apply keeps_same].
  repeat (apply keeps_bind; [apply keeps_same; intros w0; unfold throwIf;
                               by destruct (_ : bool)|]; intros _).
  apply keeps_bind; [by apply keeps_same|]. intros last.
  apply keeps_bind.
  { apply keeps_same. intros w0. destruct last as [prev|]; [|done].
    by destruct (_ && _). }
  intros _.
  apply keeps_bind; [apply keeps_same; intros w0; by destruct (importSessionKey P _)|].
  intros key.
  apply keeps_bind; [apply keeps_getOrCreateDSK|]. intros dsk.
  apply keeps_bind; [by apply keeps_same | intros _; by apply keeps_same].
Qed.

(** X12.  Unlock, lock, unlock.  With a well-formed address and signature,
    unlocking a vault that has no DSK creates the DSK and leaves the
    session unlocked under the lower-cased address, with the first 8 bytes
    of the key material in hex as the fingerprint; [lock] drops the keys
    and the remembered address; unlocking again with the same signature
    recovers the same DSK and writes nothing. *)
Theorem unlock_lock_unlock (signature address : string) (key : CryptoKey) (w : World) :
  let material := deriveSessionKeyMaterial P signature in
  let fingerprint := toHex (take 8 material) in
  let dsk := dskAt P (rand_ix w) in
  isValidEthereumAddress address = true →
  isValidSignatureFormat signature = true →
  importSessionKey P material = Ok key →
  db_keys (db w) !! DSK_ID = None →
  length (raw dsk) = 32 →
  opens P key (Some DSK_AAD_LABEL)
    (sealedAt P key (Some DSK_AAD_LABEL) (raw dsk) (S (rand_ix w))) (raw dsk) →
  let w1 := snd (unlockFromSignature P signature address w) in
  let w2 := snd (lock w1) in
  let w3 := snd (unlockFromSignature P signature address w2) in
  session w1 = Unlocked key fingerprint dsk (toLowerCase address)
  ∧ is_Some (db_keys (db w1) !! DSK_ID)
  ∧ session w2 = Locked
  ∧ lastUnlockAddressRef w2 = None
  ∧ session w3 = Unlocked key fingerprint dsk (toLowerCase address)
  ∧ db w3 = db w1.
Proof.
  intros material fingerprint dsk Haddr Hsig Hkey Hnone Hlen Hopen.
  assert (Haddr' : String.eqb address "" = false).
  { destruct address; [done|done]. }
  assert (Hsig' : String.eqb signature "" = false).
  { destruct signature; [done|done]. }
  pose (pre := fun w0 : World =>
    Build_World (db w0) (trace w0) (rand_ix w0) (time_ix w0) Unlocking
      (lastUnlockAddressRef w0)
      (console w0 ++ match lastUnlockAddressRef w0 with
         | Some prev =>
             if negb (String.eqb prev "")
                && negb (String.eqb prev (toLowerCase address))
                && isUnlocked (session w0)
             then ["Unlock attempt with different address while already unlocked"]
             else []
         | None => []
         end)).
  assert (Hrun : ∀ w0 dsk0 w0',
    getOrCreateDSK P key (pre w0) = (Ok dsk0, w0') →
    session (snd (unlockFromSignature P signature address w0))
    = Unlocked key fingerprint dsk0 (toLowerCase address)
    ∧ db (snd (unlockFromSignature P signature address w0)) = db w0').
  { intros w0 dsk0 w0'. unfold pre, unlockFromSignature.
    cbv [bind getSession setSession try_catch throwIf ret throw getLastUnlockAddress lift].
    rewrite Haddr', Haddr, Hsig', Hsig. cbn [negb fst snd db trace rand_ix time_ix
      lastUnlockAddressRef console session].
    fold material. rewrite Hkey.
    destruct (lastUnlockAddressRef w0) as [prev|].
    - destruct (negb (String.eqb prev "") && negb (String.eqb prev (toLowerCase address))
                && isUnlocked (session w0));
        cbv [console_warn]; cbn [fst snd db trace rand_ix time_ix lastUnlockAddressRef
          console session]; rewrite ?app_nil_r; intros ->; done.
    - cbn [fst snd]. rewrite app_nil_r. intros ->. done. }
  intros w1 w2 w3.
  destruct (getOrCreateDSK_fresh P key (pre w) Hnone) as (wB & HrunB & HdbB & _).
  destruct (Hrun w _ wB HrunB) as [Hs1 Hdb1]. fold w1 in Hs1, Hdb1.
  assert (Hrow1 : db_keys (db w1) !! DSK_ID = Some (dskRow P key (pre w))).
  { rewrite Hdb1, HdbB. cbn. apply lookup_insert_eq. }
  assert (Hdb2 : db w2 = db w1) by done.
  assert (HrowC : db_keys (db (pre w2)) !! DSK_ID = Some (dskRow P key (pre w))).
  { cbn [pre db]. by rewrite Hdb2. }
  destruct (getOrCreateDSK_existing P key _ (pre w2) HrowC) as (wD & HrunD & HdbD & _).
  rewrite (decryptDSK_opens P _ _ dsk) in HrunD by done. cbn [fst] in HrunD.
  destruct (Hrun w2 _ wD HrunD) as [Hs3 Hdb3]. fold w3 in Hs3, Hdb3.
  split; [exact Hs1|]. split; [eauto|]. split; [done|]. split; [done|].
  split; [exact Hs3|]. rewrite Hdb3, HdbD. done.
Qed.

End Session.

(** Bob unlocks a fresh installation, locks, and unlocks again. *)
Lemma unlock_lock_unlock_witness :
  let w1 := snd (unlockFromSignature Sample.P Sample.signatureB Sample.bob Sample.w0) in
  let w3 := snd (unlockFromSignature Sample.P Sample.signatureB Sample.bob (snd (lock w1))) in
  session w3 = session w1 ∧ isUnlocked (session w3) = true ∧ db w3 = db w1.
Proof.
  destruct (unlock_lock_unlock Sample.P Sample.signatureB Sample.bob Sample.sessionKeyB
              Sample.w0) as (H1 & _ & _ & _ & H3 & Hdb); try (vm_compute; reflexivity).
  cbv zeta. rewrite H3, H1. split; [reflexivity|]. split; [reflexivity|]. exact Hdb.
Defined.

(** ** The message repository: reading and deleting *)

Lemma asEnvelope_envelopeValue (e : MessageEnvelope) : asEnvelope (envelopeValue e) = Some e.
Proof. destruct e as [v from to ts nonce iv ct [a|]]; reflexivity. Qed.

Section MessageRoundTrip.

Context (P : Platform).

(** What [getMessage] does: nothing is written, and the row under the id,
    if there is one, is opened. *)
Lemma getMessage_run (messageId : string) (key : CryptoKey) (w : World) :
  ∃ r, getMessage P messageId key w = (r, logged w [EvOpen; EvGet messages messageId])
       ∧ match db_messages (db w) !! messageId with
         | None => r = Ok None
         | Some row =>
             match openRow P key row with
             | Some envelope => r = Ok (Some envelope)
             | None => ∃ e, r = Throw e
             end
         end.
Proof.
  unfold getMessage, logged. cbv [bind getDb log db_get MESSAGES_STORE].
  cbn [fst snd db trace store_of rand_ix time_ix session lastUnlockAddressRef console].
  rewrite <- app_assoc. cbn [app].
  destruct (db_messages (db w) !! messageId) as [row|]; [|unfold ret; eauto].
  match goal with |- context [decryptMessageRow P row key ?w1] =>
    destruct (decryptMessageRow_openRow P row key w1) as (r & -> & Hr) end.
  destruct (openRow P key row) as [envelope|].
  - subst r. unfold ret. eauto.
  - destruct Hr as [e ->]. eauto.
Qed.

(** X13.  A message that [storeMessage] has stored under a free id is
    returned by [getMessage] for that id, as the envelope that was stored;
    [getMessage] writes nothing.  (AES-GCM opens what it sealed, and JSON
    reads the record it wrote.) *)
Theorem getMessage_after_store (key : CryptoKey) (envelope : MessageEnvelope) (w : World) :
  let messageId := repo_deriveMessageId P envelope in
  let record := VObj [("envelope", envelopeValue envelope)] in
  Envelope.v envelope = PROTOCOL_VERSION →
  db_messages (db w) !! messageId = None →
  opens P key (Some MESSAGES_AAD_LABEL)
    (sealedAt P key (Some MESSAGES_AAD_LABEL) (JSON_stringify P record) (rand_ix w))
    (JSON_stringify P record) →
  JSON_parse P (JSON_stringify P record) = Some record →
  ∃ w1 w2,
    storeMessage P key envelope w = (Ok messageId, w1)
    ∧ getMessage P messageId key w1 = (Ok (Some envelope), w2)
    ∧ db w2 = db w1.
Proof.
  intros messageId record Hv Hfree Hopen Hjson.
  destruct (storeMessage_run P key envelope w Hv) as (w1 & Hrun & Hdb).
  fold messageId in Hrun, Hdb. rewrite Hfree in Hdb.
  destruct (getMessage_run messageId key w1) as (r & Hget & Hr).
  exists w1, (logged w1 [EvOpen; EvGet messages messageId]).
  split; [exact Hrun|]. split; [|reflexivity].
  rewrite Hget. f_equal.
  rewrite Hdb in Hr. cbn [db_messages with_store] in Hr. rewrite lookup_insert_eq in Hr.
  assert (Hrow : openRow P key (storedRow P key envelope w) = Some envelope).
  { unfold openRow, storedRow. cbn [blob iv ciphertext id].
    unfold opens, sealedAt in Hopen. cbn [iv ciphertext default from_option] in Hopen.
    unfold Datatypes.id in Hopen.
    fold record. rewrite Hopen.
    unfold parseMessageRecord. rewrite Hjson. unfold record at 1. cbn [prop lookupProp].
    cbn [String.eqb Ascii.eqb Bool.eqb]. rewrite asEnvelope_envelopeValue.
    by rewrite String.eqb_refl. }
  by rewrite Hrow in Hr.
Qed.

(** X14.  What [getMessage] returns hashes to the id it was asked for.
    When the row found under the id carries that id (as every row of an
    object store with key path [id] does), an envelope is returned only if
    the hex SHA-256 of its nonce and ciphertext is the requested id: a row
    whose content was exchanged is not returned. *)
Theorem getMessage_integrity (messageId : string) (key : CryptoKey) (w : World)
    (row : VaultRow) (envelope : MessageEnvelope) :
  db_messages (db w) !! messageId = Some row →
  id row = messageId →
  fst (getMessage P messageId key w) = Ok (Some envelope) →
  repo_deriveMessageId P envelope = messageId.
Proof.
  intros Hrow Hkeyed. destruct (getMessage_run messageId key w) as (r & -> & Hr). cbn [fst].
  intros ->. rewrite Hrow in Hr. unfold openRow in Hr.
  destruct (aes_gcm_decrypt P _ _ _ _); [|by destruct Hr].
  destruct (parseMessageRecord P _) as [e|]; [|by destruct Hr].
  destruct (String.eqb_spec (repo_deriveMessageId P e) (id row)) as [Heq|]; [|by destruct Hr].
  injection Hr as ->. congruence.
Qed.

(** X15.  A row that AES-GCM does not authenticate under the key makes
    [getMessage] throw the error of [decryptAead] as it is, "AEAD
    authentication failed": the promise of [decryptMessageRow] is returned
    without being awaited, so the [catch] of [getMessage], with its own
    message, does not see the rejection.  Nothing is written. *)
Theorem getMessage_wrong_key (messageId : string) (key : CryptoKey) (row : VaultRow)
    (w : World) :
  db_messages (db w) !! messageId = Some row →
  aes_gcm_decrypt P (raw key) (iv (blob row)) MESSAGES_AAD_LABEL (ciphertext (blob row))
  = None →
  fst (getMessage P messageId key w) = Throw AEAD_FAILED
  ∧ db (snd (getMessage P messageId key w)) = db w.
Proof.
  intros Hrow Hfail. unfold getMessage.
  cbv [bind getDb log db_get MESSAGES_STORE decryptMessageRow decryptAead].
  cbn [fst snd db trace store_of default from_option]. unfold Datatypes.id.
  rewrite Hrow. cbn [blob]. rewrite Hfail. done.
Qed.

(** X16.  [deleteMessage] rejects the empty id before it opens the
    database.  For any other id it removes the row under that id from the
    messages store and touches no other row or store, and [getMessage]
    then finds nothing under the id. *)
Theorem deleteMessage_removes (messageId : string) (key : CryptoKey) (w : World) :
  (messageId = "" → deleteMessage messageId w = (Throw (Exn JsError "Invalid message ID"), w))
  ∧ (messageId ≠ "" →
     ∃ w1,
       deleteMessage messageId w = (Ok tt, w1)
       ∧ db_messages (db w1) = delete messageId (db_messages (db w))
       ∧ (∀ s, s ≠ messages → store_of (db w1) s = store_of (db w) s)
       ∧ fst (getMessage P messageId key w1) = Ok None).
Proof.
  split.
  - intros ->. done.
  - intros Hne. unfold deleteMessage.
    apply String.eqb_neq in Hne. rewrite bind_throwIf, Hne.
    cbv [bind getDb log getStore setDb MESSAGES_STORE].
    cbn [fst snd db trace store_of].
    eexists. split; [reflexivity|]. cbn [db db_messages with_store].
    split; [done|]. split; [by intros []|].
    match goal with |- context [getMessage P messageId key ?w1] =>
      destruct (getMessage_run messageId key w1) as (r & -> & Hr) end.
    cbn [db db_messages with_store] in Hr. by rewrite lookup_delete_eq in Hr.
Qed.

End MessageRoundTrip.

(** The message "hello" stored in an empty vault and read back. *)
Lemma getMessage_after_store_witness :
  ∃ w1 w2,
    storeMessage Sample.P Sample.conversationKey Sample.hello Sample.w0
    = (Ok (repo_deriveMessageId Sample.P Sample.hello), w1)
    ∧ getMessage Sample.P (repo_deriveMessageId Sample.P Sample.hello)
        Sample.conversationKey w1 = (Ok (Some Sample.hello), w2)
    ∧ db w2 = db w1.
Proof.
  apply (getMessage_after_store Sample.P Sample.conversationKey Sample.hello Sample.w0);
    vm_compute; reflexivity.
Defined.

(** The envelope read from the vault that stores "hello" hashes to the id
    it was read under. *)
Lemma getMessage_integrity_witness :
  repo_deriveMessageId Sample.P Sample.hello = id Sample.helloRow.
Proof.
  apply (getMessage_integrity Sample.P (id Sample.helloRow) Sample.conversationKey
           Sample.wStored Sample.helloRow Sample.hello);
    vm_compute; reflexivity.
Defined.

(** Reading "hello" with a session key in the place of the conversation
    key. *)
Lemma getMessage_wrong_key_witness :
  fst (getMessage Sample.P (id Sample.helloRow) Sample.sessionKeyA Sample.wStored)
  = Throw AEAD_FAILED
  ∧ db (snd (getMessage Sample.P (id Sample.helloRow) Sample.sessionKeyA Sample.wStored))
    = db Sample.wStored.
Proof.
  apply (getMessage_wrong_key Sample.P (id Sample.helloRow) Sample.sessionKeyA
           Sample.helloRow Sample.wStored);
    vm_compute; reflexivity.
Defined.

(** ** Conversation keys: what is returned, and what is thrown *)

Section ConversationKeyShape.

Context (P : Platform).

Lemma validateAddress_inv (address label : string) :
  validateAddress address label = Ok tt → isValidEthereumAddress address = true.
Proof.
  unfold validateAddress. destruct (_ =? 0); [discriminate|].
  by destruct (isValidEthereumAddress address).
Qed.

Lemma validateX25519Key_inv (key : bytes) (keyType : string) :
  validateX25519Key P key keyType = Ok tt → validKey key.
Proof.
  unfold validateX25519Key, validKey, X25519_KEY_LENGTH.
  destruct (Nat.eqb_spec (length key) 32); [|discriminate]. cbn [negb].
  by destruct (forallb _ key).
Qed.

Lemma subtle_importKey_inv (rawKey : bytes) (ext : bool) (key : CryptoKey) :
  subtle_importKey rawKey ext = Ok key →
  key = {| raw := rawKey; extractable := ext |}
  ∧ (length rawKey = 16 ∨ length rawKey = 24 ∨ length rawKey = 32).
Proof.
  unfold subtle_importKey.
  destruct (Nat.eqb_spec (length rawKey) 16) as [H16|];
    [|destruct (Nat.eqb_spec (length rawKey) 24) as [H24|];
      [|destruct (Nat.eqb_spec (length rawKey) 32) as [H32|]]];
    cbn [orb]; intros [= <-]; auto.
Qed.

(** Every failure of [deriveSharedSecret] is an [X25519ValidationError]. *)
Lemma deriveSharedSecret_error (privateKey peerPublicKey : bytes) (e : exn) :
  deriveSharedSecret P privateKey peerPublicKey = Throw e → cls e = X25519ValidationError.
Proof.
  unfold deriveSharedSecret, validateX25519Key.
  repeat match goal with
    | |- context [if ?c then _ else _] => destruct c; cbn [rbind]
    end; try (by intros [= <-]).
  destruct (x25519_getSharedSecret P _ _); [done|]. by intros [= <-].
Qed.

(** X17.  [deriveConversationKey] returns a key only for inputs that pass
    every check: two keys of 32 bytes that are not all zero, two
    well-formed addresses, an epoch that is a non-negative integer.  The
    key it returns is not extractable, and the conversation id is 32 hex
    characters. *)
Theorem deriveConversationKey_returns_only_valid (myPrivateKey peerPublicKey : bytes)
    (myAddress peerAddress : string) (epoch : option number) (spec : ConversationKeySpec.t) :
  deriveConversationKey P myPrivateKey peerPublicKey myAddress peerAddress epoch = Ok spec →
  validKey myPrivateKey ∧ validKey peerPublicKey
  ∧ isValidEthereumAddress myAddress = true
  ∧ isValidEthereumAddress peerAddress = true
  ∧ isInteger (default (num 0) epoch) = true
  ∧ num_lt (default (num 0) epoch) (num 0) = false
  ∧ extractable (ConversationKeySpec.key spec) = false
  ∧ String.length (ConversationKeySpec.id spec) = 32
  ∧ allHex (ConversationKeySpec.id spec) = true.
Proof.
  unfold deriveConversationKey.
  destruct (validateKey P myPrivateKey _) as [[]|] eqn:Hk1; [|done].
  destruct (validateKey P peerPublicKey _) as [[]|] eqn:Hk2; [|done].
  destruct (validateAddress myAddress _) as [[]|] eqn:Ha1; [|done].
  destruct (validateAddress peerAddress _) as [[]|] eqn:Ha2; [|done].
  destruct (validateEpoch _) as [[]|] eqn:He; [|done].
  cbn [rbind].
  destruct (deriveSharedSecret P myPrivateKey peerPublicKey) as [secret|err] eqn:Hs;
    [|by destruct (cls err)].
  cbn [rbind].
  destruct (subtle_importKey _ false) as [key|] eqn:Hkey; [|done].
  cbn [rbind]. intros [= <-]. cbn [ConversationKeySpec.key ConversationKeySpec.id].
  apply subtle_importKey_inv in Hkey as [-> Hlen].
  unfold deriveSharedSecret in Hs.
  destruct (validateX25519Key P myPrivateKey _) as [[]|] eqn:Hx1; [|done].
  destruct (validateX25519Key P peerPublicKey _) as [[]|] eqn:Hx2; [|done].
  apply validateX25519Key_inv in Hx1, Hx2. apply validateAddress_inv in Ha1, Ha2.
  unfold validateEpoch in He.
  destruct (isInteger _); [|done]. destruct (num_lt _ _); [done|].
  split_and!; try done.
  - rewrite toHex_length, length_take. unfold CONVERSATION_ID_LENGTH, hkdfSha256 in *. lia.
  - apply allHex_toHex.
Qed.

(** X18.  The derivation reads the addresses in lower case only: two
    spellings of the same two addresses, each well formed, give the same
    result, key and id or error. *)
Theorem deriveConversationKey_ignores_case (myPrivateKey peerPublicKey : bytes)
    (myAddress myAddress' peerAddress peerAddress' : string) (epoch : option number) :
  isValidEthereumAddress myAddress = true →
  isValidEthereumAddress myAddress' = true →
  isValidEthereumAddress peerAddress = true →
  isValidEthereumAddress peerAddress' = true →
  toLowerCase myAddress = toLowerCase myAddress' →
  toLowerCase peerAddress = toLowerCase peerAddress' →
  deriveConversationKey P myPrivateKey peerPublicKey myAddress peerAddress epoch
  = deriveConversationKey P myPrivateKey peerPublicKey myAddress' peerAddress' epoch.
Proof.
  intros Ha Ha' Hb Hb' Hla Hlb. unfold deriveConversationKey.
  rewrite !validateAddress_ok by done. unfold infoString. by rewrite Hla, Hlb.
Qed.

(** X19.  Every rejection of [deriveConversationKey] is a
    [ConversationKeyError]: the errors of its own checks, and the errors
    of the key agreement, which it wraps.  The one exception is the
    [DataError] of WebCrypto's [importKey], when HKDF does not give an AES
    key length. *)
Theorem deriveConversationKey_error_class (myPrivateKey peerPublicKey : bytes)
    (myAddress peerAddress : string) (epoch : option number) (e : exn) :
  deriveConversationKey P myPrivateKey peerPublicKey myAddress peerAddress epoch = Throw e →
  cls e = ConversationKeyError ∨ cls e = DOMException "DataError".
Proof.
  unfold deriveConversationKey, validateKey, validateAddress, validateEpoch.
  repeat match goal with
    | |- context [if ?c then _ else _] => destruct c; cbn [rbind]
    end; try (intros [= <-]; by left).
  destruct (deriveSharedSecret P myPrivateKey peerPublicKey) as [secret|err] eqn:Hs.
  - cbn [rbind]. unfold subtle_importKey.
    destruct (_ || _); cbn [rbind]; [done|]. intros [= <-]. by right.
  - apply deriveSharedSecret_error in Hs. rewrite Hs. cbn [rbind]. intros [= <-]. by left.
Qed.

End ConversationKeyShape.

(** The key that Alice derives for her conversation with Bob. *)
Lemma deriveConversationKey_returns_only_valid_witness :
  extractable (ConversationKeySpec.key Sample.conversationSpec) = false
  ∧ String.length (ConversationKeySpec.id Sample.conversationSpec) = 32.
Proof.
  destruct (deriveConversationKey_returns_only_valid Sample.P Sample.privA Sample.pubB
              Sample.alice Sample.bob None Sample.conversationSpec)
    as (_ & _ & _ & _ & _ & _ & Hext & Hlen & _).
  { vm_compute. reflexivity. }
  split; [exact Hext | exact Hlen].
Defined.

(** Bob's address in lower and in upper case. *)
Lemma deriveConversationKey_ignores_case_witness :
  deriveConversationKey Sample.P Sample.privA Sample.pubB Sample.alice Sample.bob None
  = deriveConversationKey Sample.P Sample.privA Sample.pubB Sample.alice Sample.bobUpper None.
Proof.
  apply (deriveConversationKey_ignores_case Sample.P Sample.privA Sample.pubB
           Sample.alice Sample.alice Sample.bob Sample.bobUpper None);
    vm_compute; reflexivity.
Defined.

(** An all-zero public key: the error of the key agreement, wrapped. *)
Lemma deriveConversationKey_error_class_witness :
  cls (Exn ConversationKeyError
         "Key derivation failed: Invalid public key: key cannot be all zeros")
  = ConversationKeyError
  ∨ cls (Exn ConversationKeyError
           "Key derivation failed: Invalid public key: key cannot be all zeros")
    = DOMException "DataError".
Proof.
  apply (deriveConversationKey_error_class Sample.P Sample.privA (repeat x00 32)
           Sample.alice Sample.bob None).
  vm_compute. reflexivity.
Defined.

(** ** Backups: export, and the round trip through import *)

Lemma key_insert_perm (r : VaultRow) (l : list VaultRow) : key_insert r l ≡ₚ r :: l.
Proof.
  induction l as [|x l IH]; [done|]. cbn [key_insert].
  destruct (str_le (id r) (id x)); [done|]. rewrite IH. apply Permutation_swap.
Qed.

Lemma storeRows_perm (d : Db) (s : StoreName) :
  storeRows d s ≡ₚ snd <$> map_to_list (store_of d s).
Proof.
  unfold storeRows. induction (snd <$> map_to_list (store_of d s)) as [|r l IH]; [done|].
  cbn [foldr]. by rewrite key_insert_perm, IH.
Qed.

Lemma HexSchema_toHex (bs : bytes) : bs ≠ [] → HexSchema (VStr (toHex bs)) = Some (toHex bs).
Proof.
  intros Hne. unfold HexSchema. cbn [asString mbind option_bind].
  rewrite toHex_length, Nat.even_mul. cbn [Nat.even orb andb].
  unfold HEX_RE. rewrite allHex_toHex.
  destruct bs as [|b bs]; [done|]. cbn [toHex].
  assert (Hb : ∃ c d, byteToHex b = String c (String d "")).
  { unfold byteToHex. eauto. }
  destruct Hb as (c & d & ->). by rewrite !append_cons.
Qed.

Lemma lookupStore_STORES {A} (f : StoreName → A) (s : StoreName) :
  lookupStore s ((fun s => (s, f s)) <$> STORES) = Some (f s).
Proof. by destruct s. Qed.

Lemma putRows_with_store (d : Db) (s : StoreName) (rows : list VaultRow) :
  putRows d s rows
  = with_store d s (foldl (fun m r => <[id r := r]> m) (store_of d s) rows).
Proof.
  unfold putRows. revert d. induction rows as [|r rows IH]; intros d.
  - cbn. by destruct d, s.
  - cbn [foldl]. rewrite IH. unfold putRow. rewrite store_of_with_store.
    by destruct d, s.
Qed.

(** Writing the rows of a store that keeps its rows under their ids into
    an empty store gives that store again. *)
Lemma foldl_insert_rows (m : gmap string VaultRow) (rows : list VaultRow) :
  (∀ k row, m !! k = Some row → id row = k) →
  rows ≡ₚ snd <$> map_to_list m →
  foldl (fun m r => <[id r := r]> m) ∅ rows = m.
Proof.
  intros Hkeyed Hperm.
  assert (Hfold : ∀ (l : list VaultRow) (m0 : gmap string VaultRow),
    foldl (fun m r => <[id r := r]> m) m0 l
    = foldr (fun r m => <[id r := r]> m) m0 (reverse l)).
  { induction l as [|r l IH]; intros m0; [done|].
    cbn [foldl]. rewrite IH, reverse_cons, foldr_app. done. }
  rewrite Hfold.
  assert (Hlist : ∀ l : list VaultRow,
    foldr (fun r m => <[id r := r]> m) (∅ : gmap string VaultRow) l
    = list_to_map ((fun r => (id r, r)) <$> l)).
  { induction l as [|r l IH]; [done|]. cbn. by rewrite IH. }
  rewrite Hlist.
  assert (Hm : (fun r : VaultRow => (id r, r)) <$> (snd <$> map_to_list m) = map_to_list m).
  { rewrite <- list_fmap_compose.
    rewrite <- (list_fmap_id (map_to_list m)) at 2.
    apply list_fmap_ext. intros i [k row] Hi. cbn.
    f_equal. apply Hkeyed. apply elem_of_map_to_list.
    by apply list_elem_of_lookup_2 in Hi. }
  transitivity (list_to_map (map_to_list m) : gmap string VaultRow);
    [|apply list_to_map_to_list].
  apply list_to_map_proper.
  - rewrite <- list_fmap_compose.
    assert (Hp : reverse rows ≡ₚ snd <$> map_to_list m) by (by rewrite reverse_Permutation).
    rewrite Hp. rewrite list_fmap_compose, Hm. apply NoDup_fst_map_to_list.
  - rewrite reverse_Permutation, Hperm, Hm. done.
Qed.

Section BackupRoundTrip.

Context (P : Platform).

Lemma deserialize_serialize (row : VaultRow) : deserializeRow (serializeRow row) = Ok row.
Proof.
  unfold deserializeRow, serializeRow. cbn. rewrite !fromHex_toHex. cbn.
  by destruct row as [i [v c] ca ua].
Qed.

(** X20.  A row of the vault written out for a backup by [serializeRow]
    is read back by [deserializeRow] as the row it was: same id, same IV
    and ciphertext bytes, same time stamps. *)
Theorem deserializeRow_serializeRow (row : VaultRow) :
  deserializeRow (serializeRow row) = Ok row.
Proof.
  destruct row as [i [v c] ca ua]. unfold deserializeRow, serializeRow.
  cbn [BackupRowJson.blob BackupRowJson.ivHex BackupRowJson.ciphertextHex blob iv ciphertext].
  rewrite !fromHex_toHex. reflexivity.
Qed.

Lemma exportStores_run (stores : list StoreName) (w : World) :
  exportStores stores w
  = (Ok ((fun s => (s, serializeRow <$> storeRows (db w) s)) <$> stores),
     logged w (EvGetAll <$> stores)).
Proof.
  revert w. induction stores as [|s stores IH]; intros w.
  - cbn. unfold ret, logged. rewrite app_nil_r. by destruct w.
  - cbn [exportStores]. unfold bind at 1, db_getAll, bind, log, getStore, ret.
    cbn [fst snd db trace]. unfold bind. rewrite IH. unfold logged. cbn [db trace
      rand_ix time_ix session lastUnlockAddressRef console fmap list_fmap].
    unfold ret. by rewrite <- app_assoc.
Qed.

(** An export that is let through returns the file of the vault and only
    reads: the five stores are listed, in order, and nothing is written. *)
Lemma exportEncryptedBackup_run (passphrase : string) (w : World) :
  passphraseRejected passphrase = false →
  exportEncryptedBackup P passphrase w = (Ok (backupFile P passphrase w), exported w).
Proof.
  intros Hpass. unfold exportEncryptedBackup. rewrite bind_throwIf, Hpass.
  cbv [bind getDb log nowISO]. cbn [fst snd db trace rand_ix time_ix session
    lastUnlockAddressRef console].
  rewrite exportStores_run.
  cbv [randomBytes drawRandom logged ret]. cbn [Z.leb Z.compare fst snd db trace rand_ix
    time_ix session lastUnlockAddressRef console].
  change (Z.to_nat 16) with 16. change (Z.to_nat 12) with 12.
  unfold exported. rewrite <- app_assoc. reflexivity.
Qed.

(** X21.  [exportEncryptedBackup] never writes: the vault is as it was,
    whether the passphrase is let through or not, and the only storage
    operations of an export are the opening of the database and the
    listing of the five stores, in their order. *)
Theorem export_reads_only (passphrase : string) (w : World) :
  let w' := snd (exportEncryptedBackup P passphrase w) in
  db w' = db w
  ∧ (trace w' = trace w
     ∨ trace w' = (trace w ++ [EvOpen; EvGetAll keys; EvGetAll contacts;
                              EvGetAll conversations; EvGetAll messages;
                              EvGetAll settings])%list).
Proof.
  destruct (passphraseRejected passphrase) eqn:Hpass.
  - unfold exportEncryptedBackup. rewrite bind_throwIf, Hpass. cbn. auto.
  - rewrite exportEncryptedBackup_run by done. cbn. auto.
Qed.

Lemma validateRows_serialized (s : string) (rows : list VaultRow) :
  Forall (fun row => length (iv (blob row)) = 12 ∧ ciphertext (blob row) ≠ []) rows →
  validateRows s (rowValue <$> (serializeRow <$> rows)) = Ok (serializeRow <$> rows).
Proof.
  induction 1 as [|row rows [Hiv Hct] _ IH]; [done|].
  cbn [fmap list_fmap validateRows]. rewrite IH.
  unfold validateRow, rowValue, serializeRow.
  cbn [isRecord prop lookupProp String.eqb Ascii.eqb Bool.eqb negb rthrowIf rbind
       assertString BackupRowJson.id BackupRowJson.blob BackupRowJson.ivHex
       BackupRowJson.ciphertextHex BackupRowJson.createdAt BackupRowJson.updatedAt].
  rewrite !fromHex_toHex. cbn [rbind]. rewrite Hiv.
  destruct (Nat.eqb_spec (length (ciphertext (blob row))) 0) as [H0|]; [|done].
  by apply length_zero_iff_nil in H0.
Qed.

Lemma prepareRows_serialized (store : StoreName) (rows : list VaultRow) :
  Forall (fun row => id row ≠ "") rows →
  prepareRows store (serializeRow <$> rows) = Ok rows.
Proof.
  induction 1 as [|row rows Hid _ IH]; [done|].
  cbn [fmap list_fmap prepareRows]. rewrite IH. unfold prepareRow.
  rewrite deserialize_serialize. cbn [rbind].
  apply String.eqb_neq in Hid. by rewrite Hid.
Qed.

Lemma restorable_rows (d : Db) (s : StoreName) :
  restorable d = true →
  (∀ k row, store_of d s !! k = Some row → id row = k)
  ∧ Forall (fun row => id row ≠ ""
                       ∧ length (iv (blob row)) = 12 ∧ ciphertext (blob row) ≠ [])
      (storeRows d s).
Proof.
  unfold restorable. rewrite forallb_forall. intros H.
  assert (Hs : forallb (fun '(k, row) => restorableRow k row) (map_to_list (store_of d s))
               = true).
  { apply H. destruct s; cbn; auto 10. }
  rewrite forallb_forall in Hs.
  assert (Hrow : ∀ k row, store_of d s !! k = Some row → restorableRow k row = true).
  { intros k row Hk. apply (Hs (k, row)). apply list_elem_of_In.
    by apply elem_of_map_to_list. }
  assert (Hparts : ∀ k row, restorableRow k row = true →
            id row = k ∧ k ≠ "" ∧ length (iv (blob row)) = 12 ∧ ciphertext (blob row) ≠ []).
  { intros k row. unfold restorableRow. rewrite !andb_true_iff, !negb_true_iff.
    intros [[[Hid Hk] Hiv] Hct].
    apply String.eqb_eq in Hid. apply String.eqb_neq in Hk.
    apply Nat.eqb_eq in Hiv. apply Nat.eqb_neq in Hct.
    split_and!; try done. intros Heq. by rewrite Heq in Hct. }
  split.
  - intros k row Hk. by apply Hparts, Hrow.
  - rewrite storeRows_perm. apply Forall_fmap, Forall_forall. intros [k row] Hin.
    apply elem_of_map_to_list in Hin. cbn.
    destruct (Hparts k row (Hrow k row Hin)) as (-> & ? & ? & ?). done.
Qed.

(** The rows that a restore writes into an empty vault are the vault that
    was exported. *)
Lemma restoredDb_storeRows (d : Db) :
  restorable d = true →
  restoredDb ((fun s => (s, storeRows d s)) <$> STORES) = d.
Proof.
  intros Hd. unfold restoredDb.
  cbn [STORES fmap list_fmap foldl lookupStore bool_decide decide_rel default from_option].
  repeat (rewrite bool_decide_eq_true_2 by done
          || rewrite bool_decide_eq_false_2 by done
          || cbn [default from_option]).
  unfold Datatypes.id.
  rewrite !putRows_with_store.
  rewrite !store_of_with_store_ne by done. cbn [emptyDb store_of db_keys db_contacts
    db_conversations db_messages db_settings].
  rewrite (foldl_insert_rows (store_of d keys)), (foldl_insert_rows (store_of d contacts)),
    (foldl_insert_rows (store_of d conversations)), (foldl_insert_rows (store_of d messages)),
    (foldl_insert_rows (store_of d settings));
    try (apply storeRows_perm); try (by apply restorable_rows).
  by destruct d.
Qed.

Lemma iterations_in_range :
  isSome (z_number (VNum PBKDF2_ITERATIONS) ≫= z_int_min_max 50000 2000000) = true
  ∧ num_lt PBKDF2_ITERATIONS (num 50000) || num_lt (num 2000000) PBKDF2_ITERATIONS = false
  ∧ PBKDF2_ITERATIONS ≠ NaN.
Proof. split; [|split]; [vm_compute; reflexivity..|discriminate]. Qed.

Lemma schema_backupFile (passphrase : string) (w : World) :
  soundExport P passphrase w →
  EncryptedBackupFileSchema P (fileValue (backupFile P passphrase w)) = true.
Proof.
  intros (Hdate & Hsalt & Hiv & Hhash & Hct & _).
  unfold EncryptedBackupFileSchema, fileValue, backupFile, sha256Hex.
  cbn [prop lookupProp String.eqb Ascii.eqb Bool.eqb isRecord z_literal z_literal_num
       EncryptedBackupFileV1.format EncryptedBackupFileV1.v EncryptedBackupFileV1.createdAt
       EncryptedBackupFileV1.kdf EncryptedBackupFileV1.aead EncryptedBackupFileV1.name
       EncryptedBackupFileV1.hash EncryptedBackupFileV1.saltHex
       EncryptedBackupFileV1.iterations EncryptedBackupFileV1.aead_name
       EncryptedBackupFileV1.ivHex EncryptedBackupFileV1.aadLabel
       EncryptedBackupFileV1.ciphertextHex EncryptedBackupFileV1.plaintextHashHex andb].
  rewrite bool_decide_eq_true_2 by done.
  unfold z_string_refine. cbn [asString mbind option_bind]. unfold refine. rewrite Hdate.
  destruct iterations_in_range as [-> _].
  assert (Hne : ∀ (bs : bytes) n, length bs = S n → bs ≠ []) by (by intros [|]).
  rewrite (HexSchema_toHex (backupSalt P w)) by (by eapply Hne).
  rewrite (HexSchema_toHex (backupIv P w)) by (by eapply Hne).
  rewrite (HexSchema_toHex (backupCiphertext P passphrase w)) by done.
  rewrite (HexSchema_toHex (sha256 P (backupPlaintext P w))) by (by eapply Hne).
  done.
Qed.

Lemma validate_backupFile (passphrase : string) (w : World) :
  soundExport P passphrase w →
  validateEncryptedBackupFileV1 (fileValue (backupFile P passphrase w))
  = Ok (backupFile P passphrase w).
Proof.
  intros (Hdate & Hsalt & Hiv & Hhash & Hct & _).
  unfold validateEncryptedBackupFileV1, fileValue, backupFile, sha256Hex.
  cbn [prop lookupProp String.eqb Ascii.eqb Bool.eqb isRecord z_literal z_literal_num
       EncryptedBackupFileV1.format EncryptedBackupFileV1.v EncryptedBackupFileV1.createdAt
       EncryptedBackupFileV1.kdf EncryptedBackupFileV1.aead EncryptedBackupFileV1.name
       EncryptedBackupFileV1.hash EncryptedBackupFileV1.saltHex
       EncryptedBackupFileV1.iterations EncryptedBackupFileV1.aead_name
       EncryptedBackupFileV1.ivHex EncryptedBackupFileV1.aadLabel
       EncryptedBackupFileV1.ciphertextHex EncryptedBackupFileV1.plaintextHashHex
       negb rthrowIf rbind assertString].
  rewrite bool_decide_eq_true_2 by done. cbn [negb rbind].
  destruct iterations_in_range as (_ & Hrange & Hnan).
  assert (Hnum : assertNumber (VNum PBKDF2_ITERATIONS) "kdf.iterations"
                 = Ok PBKDF2_ITERATIONS) by reflexivity.
  rewrite Hnum. cbn [rbind]. rewrite Hrange. cbn [rbind].
  rewrite !fromHex_toHex. cbn [rbind]. rewrite Hsalt, Hiv, Hhash. cbn [Nat.eqb negb rbind].
  destruct (Nat.eqb_spec (length (backupCiphertext P passphrase w)) 0) as [H0|]; [|done].
  by apply length_zero_iff_nil in H0.
Qed.

Lemma validatePayload_backupPayload (w : World) :
  restorable (db w) = true →
  validateBackupPayloadV1 (payloadValue (backupPayload P w)) = Ok (backupPayload P w).
Proof.
  intros Hd.
  assert (Hrows : ∀ s name, validateRows name (rowValue <$> (serializeRow <$> storeRows (db w) s))
                            = Ok (serializeRow <$> storeRows (db w) s)).
  { intros s name. apply validateRows_serialized.
    eapply Forall_impl; [apply (restorable_rows _ s Hd)|]. cbn. tauto. }
  unfold validateBackupPayloadV1, payloadValue, backupPayload.
  cbn [prop lookupProp String.eqb Ascii.eqb Bool.eqb isRecord z_literal z_literal_num
       BackupPayloadV1.format BackupPayloadV1.v BackupPayloadV1.exportedAt
       BackupPayloadV1.db BackupPayloadV1.name BackupPayloadV1.version
       BackupPayloadV1.stores negb rthrowIf rbind assertString STORES fmap list_fmap
       objectKeys storeNameString fst validateStores].
  rewrite bool_decide_eq_true_2 by done. cbn [negb rbind].
  assert (Hnum : assertNumber (VNum DB_VERSION) "payload.db.version" = Ok DB_VERSION)
    by reflexivity.
  rewrite Hnum. cbn [rbind].
  cbn [assertStoreName storeNameOf String.eqb Ascii.eqb Bool.eqb rbind].
  rewrite !Hrows. done.
Qed.

Lemma prepareStores_backupPayload (w : World) (stores : list StoreName) :
  restorable (db w) = true →
  prepareStores (backupPayload P w) stores
  = Ok ((fun s => (s, storeRows (db w) s)) <$> stores).
Proof.
  intros Hd.
  assert (Hrows : ∀ s, prepareRows s (serializeRow <$> storeRows (db w) s)
                       = Ok (storeRows (db w) s)).
  { intros s. apply prepareRows_serialized.
    eapply Forall_impl; [apply (restorable_rows _ s Hd)|]. cbn. tauto. }
  pose proof (lookupStore_STORES (fun s => serializeRow <$> storeRows (db w) s)) as Hl.
  cbv beta in Hl.
  induction stores as [|s stores IH]; [done|].
  cbn [prepareStores fmap list_fmap]. rewrite IH.
  unfold backupPayload. cbn [BackupPayloadV1.stores]. by rewrite Hl, Hrows.
Qed.

(** X22.  A backup restores the vault it was taken from.  For a
    passphrase that is let through and a vault whose rows a backup can
    carry, the file that [exportEncryptedBackup] returns is accepted by
    [importEncryptedBackup] under the same passphrase, in whatever vault
    it is imported, and the vault after the import is the exported one,
    row for row. *)
Theorem import_export_round_trip (passphrase : string) (w w' : World) :
  passphraseRejected passphrase = false →
  restorable (db w) = true →
  soundExport P passphrase w →
  ∃ file w1 w2,
    exportEncryptedBackup P passphrase w = (Ok file, w1)
    ∧ db w1 = db w
    ∧ importEncryptedBackup P passphrase (fileValue file) None w' = (Ok tt, w2)
    ∧ db w2 = db w.
Proof.
  intros Hpass Hd Hsound.
  exists (backupFile P passphrase w), (exported w).
  pose proof (schema_backupFile passphrase w Hsound) as Hschema.
  pose proof (validate_backupFile passphrase w Hsound) as Hvalid.
  destruct Hsound as (_ & _ & _ & _ & _ & Hopen & Hjson).
  unfold importEncryptedBackup.
  rewrite bind_throwIf, Hpass, bind_throwIf. cbn [default from_option String.eqb Ascii.eqb
    Bool.eqb negb]. rewrite bind_throwIf, Hschema. cbn [negb].
  rewrite bind_lift, Hvalid.
  cbn [backupFile EncryptedBackupFileV1.kdf EncryptedBackupFileV1.aead
       EncryptedBackupFileV1.saltHex EncryptedBackupFileV1.ivHex
       EncryptedBackupFileV1.ciphertextHex EncryptedBackupFileV1.plaintextHashHex
       EncryptedBackupFileV1.iterations].
  rewrite bind_lift, fromHex_toHex, bind_lift, fromHex_toHex, bind_lift, fromHex_toHex.
  fold (backupCiphertext P passphrase w).
  rewrite bind_lift, Hopen, bind_throwIf, String.eqb_refl. cbn [negb].
  unfold bind at 1. rewrite Hjson. unfold ret at 1.
  rewrite bind_lift, validatePayload_backupPayload by done.
  rewrite bind_lift, prepareStores_backupPayload by done.
  cbv [bind resetVault getDb log setDb]. cbn [fst snd db trace].
  match goal with |- context [restoreStores ?prepared STORES ?w0] =>
    destruct (restoreStores_run prepared STORES w0) as (w2 & -> & Hdb & _) end.
  exists w2. split; [by apply exportEncryptedBackup_run|]. split; [done|].
  split; [done|]. rewrite Hdb. cbn [db]. by apply restoredDb_storeRows.
Qed.

(** X23.  A wrong passphrase is reported and costs nothing.  When the
    file of an export is imported under a passphrase for which AES-GCM
    does not authenticate the ciphertext, [importEncryptedBackup] throws
    "Backup integrity check failed (wrong passphrase or tampered file)."
    and the world, the vault in it, is as it was. *)
Theorem import_wrong_passphrase (passphrase passphrase' : string) (w w' : World) :
  passphraseRejected passphrase' = false →
  soundExport P passphrase w →
  aes_gcm_decrypt P (pbkdf2 P (utf8 passphrase') (backupSalt P w) PBKDF2_ITERATIONS)
    (backupIv P w) BACKUP_AAD (backupCiphertext P passphrase w) = None →
  importEncryptedBackup P passphrase' (fileValue (backupFile P passphrase w)) None w'
  = (Throw INTEGRITY_FAILED, w').
Proof.
  intros Hpass Hsound Hfail.
  pose proof (schema_backupFile passphrase w Hsound) as Hschema.
  pose proof (validate_backupFile passphrase w Hsound) as Hvalid.
  unfold importEncryptedBackup.
  rewrite bind_throwIf, Hpass, bind_throwIf. cbn [default from_option String.eqb Ascii.eqb
    Bool.eqb negb]. rewrite bind_throwIf, Hschema. cbn [negb].
  rewrite bind_lift, Hvalid.
  cbn [backupFile EncryptedBackupFileV1.kdf EncryptedBackupFileV1.aead
       EncryptedBackupFileV1.saltHex EncryptedBackupFileV1.ivHex
       EncryptedBackupFileV1.ciphertextHex EncryptedBackupFileV1.plaintextHashHex
       EncryptedBackupFileV1.iterations].
  rewrite bind_lift, fromHex_toHex, bind_lift, fromHex_toHex, bind_lift, fromHex_toHex.
  fold (backupCiphertext P passphrase w).
  rewrite bind_lift. unfold decryptBackupPayload, deriveBackupKey. cbn [raw].
  rewrite Hfail. done.
Qed.

End BackupRoundTrip.

(** Bob's vault, backed up and restored on a fresh installation. *)
Lemma import_export_round_trip_witness :
  ∃ file w1 w2,
    exportEncryptedBackup Sample.P Sample.passphrase Sample.wBob = (Ok file, w1)
    ∧ db w1 = db Sample.wBob
    ∧ importEncryptedBackup Sample.P Sample.passphrase (fileValue file) None Sample.w0
      = (Ok tt, w2)
    ∧ db w2 = db Sample.wBob.
Proof.
  apply (import_export_round_trip Sample.P Sample.passphrase Sample.wBob Sample.w0).
  - vm_compute. reflexivity.
  - vm_compute. reflexivity.
  - unfold soundExport. split_and!; vm_compute; (reflexivity || discriminate).
Defined.

(** Bob's backup under another passphrase. *)
Lemma import_wrong_passphrase_witness :
  importEncryptedBackup Sample.P Sample.wrongPassphrase
    (fileValue (backupFile Sample.P Sample.passphrase Sample.wBob)) None Sample.wStored
  = (Throw INTEGRITY_FAILED, Sample.wStored).
Proof.
  apply (import_wrong_passphrase Sample.P Sample.passphrase Sample.wrongPassphrase
           Sample.wBob Sample.wStored).
  - vm_compute. reflexivity.
  - unfold soundExport. split_and!; vm_compute; (reflexivity || discriminate).
  - vm_compute. reflexivity.
Defined.

(** ** Contacts *)

Lemma omap_length_le {A B} (f : A → option B) (l : list A) :
  length (omap f l) ≤ length l.
Proof.
  induction l as [|a l IH]; [done|]. cbn [omap list_omap length].
  destruct (f a); cbn [length]; lia.
Qed.

Section ContactsRepo.

Context (P : Platform) (getAddress : string → string).

(** What [createContact] does for an address that normalises: it stores
    the contact if its id is free, and throws if the id is taken. *)
Lemma createContact_run (dsk : CryptoKey) (address label : string)
    (note publicKeyHex : option string) (checksummed : string) (w : World) :
  normalizeAddress P getAddress address = Ok checksummed →
  ∃ w1,
    createContact P getAddress dsk address label note publicKeyHex w
    = (match db_contacts (db w) !! deriveContactId P checksummed with
       | Some _ => Throw ALREADY_EXISTS
       | None => Ok (createdContact P checksummed label note publicKeyHex w)
       end, w1)
    ∧ db w1 = match db_contacts (db w) !! deriveContactId P checksummed with
              | Some _ => db w
              | None =>
                  with_store (db w) contacts
                    (<[deriveContactId P checksummed :=
                         contactRow P dsk checksummed label note publicKeyHex w]>
                       (db_contacts (db w)))
              end
    ∧ rand_ix w1 = S (rand_ix w).
Proof.
  intros Hnorm. unfold createContact. rewrite bind_lift, Hnorm.
  cbv [encryptAead randomBytes drawRandom bind ret nowISO getDb log try_catch
       db_get db_put setDb CONTACTS_STORE throw].
  cbn [Z.leb Z.compare db trace store_of rand_ix time_ix fst snd].
  change (Z.to_nat 12) with 12.
  destruct (db_contacts (db w) !! deriveContactId P checksummed) as [old|] eqn:Hold.
  - cbn [message]. change (includes _ "already exists") with true. cbv iota.
    eexists. split; [reflexivity|]. done.
  - cbn [db trace store_of rand_ix time_ix fst snd id]. eexists. split; [reflexivity|]. done.
Qed.

(** X24.  A contact is created once.  The first [createContact] for an
    address stores one row; a second one for any spelling of the address
    that normalises to the same EIP-55 form, whatever its label and notes,
    is refused with "A contact with this address already exists." and
    leaves the vault as the first left it. *)
Theorem createContact_once (dsk : CryptoKey) (address address' label label' : string)
    (note note' publicKeyHex publicKeyHex' : option string) (checksummed : string)
    (w : World) :
  normalizeAddress P getAddress address = Ok checksummed →
  normalizeAddress P getAddress address' = Ok checksummed →
  db_contacts (db w) !! deriveContactId P checksummed = None →
  ∃ w1 w2,
    createContact P getAddress dsk address label note publicKeyHex w
    = (Ok (createdContact P checksummed label note publicKeyHex w), w1)
    ∧ size (db_contacts (db w1)) = S (size (db_contacts (db w)))
    ∧ createContact P getAddress dsk address' label' note' publicKeyHex' w1
      = (Throw ALREADY_EXISTS, w2)
    ∧ db w2 = db w1.
Proof.
  intros Hnorm Hnorm' Hfree.
  destruct (createContact_run dsk address label note publicKeyHex checksummed w Hnorm)
    as (w1 & Hrun1 & Hdb1 & _).
  rewrite Hfree in Hrun1, Hdb1.
  destruct (createContact_run dsk address' label' note' publicKeyHex' checksummed w1 Hnorm')
    as (w2 & Hrun2 & Hdb2 & _).
  assert (Hrow : db_contacts (db w1) !! deriveContactId P checksummed
                 = Some (contactRow P dsk checksummed label note publicKeyHex w)).
  { rewrite Hdb1. cbn. apply lookup_insert_eq. }
  rewrite Hrow in Hrun2, Hdb2.
  exists w1, w2. split; [done|]. split; [|done].
  rewrite Hdb1. cbn. by apply map_size_insert_None.
Qed.

(** Decrypting a contact row does not touch the world. *)
Lemma decryptContactRow_world (row : VaultRow) (dsk : CryptoKey) (w : World) :
  ∃ r, decryptContactRow P row dsk w = (r, w).
Proof.
  unfold decryptContactRow, bind, decryptAead.
  destruct (aes_gcm_decrypt P _ _ _ _) as [payload|]; [|unfold throw; eauto].
  unfold ret at 1. destruct (JSON_parse P payload) as [[]|]; unfold ret, throw; eauto.
Qed.

(** X25.  A contact that [createContact] has stored is found by
    [getContactByAddress], for every spelling of the address that
    normalises to the same EIP-55 form, and is returned with the fields it
    was created with; the lookup writes nothing.  (AES-GCM opens what it
    sealed, and JSON reads the object it wrote.) *)
Theorem getContactByAddress_after_create (dsk : CryptoKey) (address address' label : string)
    (note publicKeyHex : option string) (checksummed : string) (w : World) :
  let payload := contactPayload checksummed label note publicKeyHex in
  normalizeAddress P getAddress address = Ok checksummed →
  normalizeAddress P getAddress address' = Ok checksummed →
  db_contacts (db w) !! deriveContactId P checksummed = None →
  opens P dsk (Some CONTACTS_AAD_LABEL)
    (sealedAt P dsk (Some CONTACTS_AAD_LABEL) (JSON_stringify P payload) (rand_ix w))
    (JSON_stringify P payload) →
  JSON_parse P (JSON_stringify P payload) = Some payload →
  ∃ contact w1 w2,
    createContact P getAddress dsk address label note publicKeyHex w = (Ok contact, w1)
    ∧ getContactByAddress P getAddress dsk address' w1 = (Ok (Some contact), w2)
    ∧ db w2 = db w1.
Proof.
  intros payload Hnorm Hnorm' Hfree Hopen Hjson.
  destruct (createContact_run dsk address label note publicKeyHex checksummed w Hnorm)
    as (w1 & Hrun1 & Hdb1 & _).
  rewrite Hfree in Hrun1, Hdb1.
  exists (createdContact P checksummed label note publicKeyHex w), w1.
  unfold getContactByAddress. rewrite Hnorm'.
  cbv [bind getDb log db_get CONTACTS_STORE try_catch].
  cbn [fst snd db trace store_of]. rewrite Hdb1. cbn [db_contacts with_store].
  rewrite lookup_insert_eq.
  assert (Hrow : ∀ w0,
    decryptContactRow P (contactRow P dsk checksummed label note publicKeyHex w) dsk w0
    = (Ok (createdContact P checksummed label note publicKeyHex w), w0)).
  { intros w0. unfold decryptContactRow, bind, decryptAead, contactRow. cbn [blob].
    unfold opens in Hopen. fold payload. rewrite Hopen. unfold ret at 1.
    rewrite Hjson. unfold payload, contactPayload, createdContact, ret. cbn [fst id].
    cbn [createdAt updatedAt]. by destruct note, publicKeyHex. }
  rewrite Hrow. unfold ret. eexists. split; [done|]. split; [reflexivity|]. done.
Qed.

(** Decrypting a contact row neither reads nor changes the world. *)
Lemma decryptContactRow_run (row : VaultRow) (dsk : CryptoKey) (w w0 : World) :
  decryptContactRow P row dsk w0 = (fst (decryptContactRow P row dsk w), w0).
Proof.
  unfold decryptContactRow, bind, decryptAead.
  destruct (aes_gcm_decrypt P _ _ _ _) as [payload|]; [|done].
  cbv [ret throw]. by destruct (JSON_parse P payload) as [[]|].
Qed.


(** X26.  [getContactByAddress] does not reject and does not write,
    whatever the address, the key and the stored row are.  It answers
    [undefined] for an address that viem does not accept (without opening
    the database), for an address with no row, and for a row that does not
    decrypt or parse; otherwise it answers the contact that the row
    decrypts to.  (A read of the database does not fail in this model.) *)
Theorem getContactByAddress_total (dsk : CryptoKey) (address : string) (w : World) :
  (∃ found w',
     getContactByAddress P getAddress dsk address w = (Ok found, w')
     ∧ db w' = db w
     ∧ found = match normalizeAddress P getAddress address with
               | Throw _ => None
               | Ok checksummed =>
                   match db_contacts (db w) !! deriveContactId P checksummed with
                   | None => None
                   | Some row =>
                       match fst (decryptContactRow P row dsk w) with
                       | Ok contact => Some contact
                       | Throw _ => None
                       end
                   end
               end)
  ∧ (∀ checksummed row e,
       normalizeAddress P getAddress address = Ok checksummed →
       db_contacts (db w) !! deriveContactId P checksummed = Some row →
       fst (decryptContactRow P row dsk w) = Throw e →
       ∃ w', getContactByAddress P getAddress dsk address w = (Ok None, w')
             ∧ db w' = db w)
  ∧ (isAddress P (trim address) = false →
     getContactByAddress P getAddress dsk address w = (Ok None, w)).
Proof.
  assert (Hrun : ∃ w',
    getContactByAddress P getAddress dsk address w
    = (Ok match normalizeAddress P getAddress address with
          | Throw _ => None
          | Ok checksummed =>
              db_contacts (db w) !! deriveContactId P checksummed
                ≫= contactOf P dsk w
          end, w')
    ∧ db w' = db w).
  { unfold getContactByAddress.
    destruct (normalizeAddress P getAddress address) as [checksummed|]; [|unfold ret; eauto].
    cbv [bind getDb log db_get CONTACTS_STORE try_catch].
    cbn [fst snd db trace store_of].
    destruct (db_contacts (db w) !! _) as [row|]; [|unfold ret; eauto].
    cbn [mbind option_bind].
    match goal with |- context [decryptContactRow P row dsk ?w0] =>
      rewrite (decryptContactRow_run row dsk w w0) end.
    unfold contactOf. destruct (fst (decryptContactRow P row dsk w)) as [contact|e].
    - unfold ret. eauto.
    - cbv [console_warn ret]. cbn. eauto. }
  destruct Hrun as (w' & Hrun & Hdb). split_and!.
  - eexists _, w'. split; [exact Hrun|]. split; [done|].
    destruct (normalizeAddress P getAddress address) as [checksummed|]; [|done].
    by destruct (db_contacts (db w) !! _).
  - intros checksummed row e Hnorm Hrow He. exists w'. split; [|done].
    rewrite Hrun, Hnorm, Hrow. cbn [mbind option_bind]. unfold contactOf. by rewrite He.
  - unfold getContactByAddress, normalizeAddress. intros ->. done.
Qed.

Lemma contact_sort_insert_length (c : Contact.t) (l : list Contact.t) :
  length (contact_sort_insert P c l) = S (length l).
Proof.
  induction l as [|x l IH]; [done|]. cbn [contact_sort_insert].
  destruct (updated_later_or_same P x c); cbn; by rewrite ?IH.
Qed.

Lemma sortRecentFirst_length (l : list Contact.t) :
  length (sortRecentFirst P l) = length l.
Proof.
  unfold sortRecentFirst.
  assert (H : ∀ acc, length (foldl (fun acc c => contact_sort_insert P c acc) acc l)
                     = length acc + length l).
  { induction l as [|c l IH]; intros acc; cbn [foldl length]; [lia|].
    rewrite IH, contact_sort_insert_length. lia. }
  by rewrite H.
Qed.

Lemma decryptContactRows_run (rows : list VaultRow) (dsk : CryptoKey)
    (found : list Contact.t) (w : World) :
  ∃ l, decryptContactRows P rows dsk found w = (Ok l, w)
       ∧ length l ≤ length found + length rows.
Proof.
  revert found. induction rows as [|row rows IH]; intros found.
  - exists found. cbn. split; [done|lia].
  - cbn [decryptContactRows]. unfold bind at 1, try_catch, bind.
    destruct (decryptContactRow_world row dsk w) as [[contact|e] ->].
    + unfold ret at 1. destruct (IH (found ++ [contact])%list) as (l & -> & Hl).
      exists l. split; [done|]. rewrite length_app in Hl. cbn in *. lia.
    + unfold ret at 1. destruct (IH found) as (l & -> & Hl).
      exists l. split; [done|]. cbn. lia.
Qed.

Lemma key_insert_length (r : VaultRow) (l : list VaultRow) :
  length (key_insert r l) = S (length l).
Proof.
  induction l as [|x l IH]; [done|]. cbn [key_insert].
  destruct (str_le (id r) (id x)); cbn; by rewrite ?IH.
Qed.

Lemma getAll_length (m : gmap string VaultRow) :
  length (foldr key_insert [] (snd <$> map_to_list m)) = size m.
Proof.
  rewrite <- length_map_to_list, <- (length_fmap snd (map_to_list m)).
  generalize (snd <$> map_to_list m). intros l.
  induction l as [|r rs IH]; [done|].
  cbn [foldr length]. by rewrite key_insert_length, IH.
Qed.

Lemma listContacts_run (dsk : CryptoKey) (w : World) :
  ∃ l w', listContacts P dsk w = (Ok l, w') ∧ db w' = db w.
Proof.
  unfold listContacts. cbv [bind getDb log db_getAll getStore ret CONTACTS_STORE].
  cbn [fst snd db trace store_of].
  match goal with |- context [decryptContactRows P ?rows dsk [] ?w0] =>
    destruct (decryptContactRows_run rows dsk [] w0) as (l & -> & _) end.
  eexists _, _. split; [reflexivity|]. done.
Qed.

Lemma contact_sort_insert_perm (c : Contact.t) (l : list Contact.t) :
  contact_sort_insert P c l ≡ₚ c :: l.
Proof.
  induction l as [|x l IH]; [done|]. cbn [contact_sort_insert].
  destruct (updated_later_or_same P x c); [|done]. rewrite IH. apply Permutation_swap.
Qed.

Lemma sortRecentFirst_perm (l : list Contact.t) : sortRecentFirst P l ≡ₚ l.
Proof.
  unfold sortRecentFirst.
  assert (H : ∀ acc, foldl (fun acc c => contact_sort_insert P c acc) acc l ≡ₚ acc ++ l).
  { induction l as [|c l IH]; intros acc; cbn [foldl].
    - by rewrite app_nil_r.
    - rewrite IH, contact_sort_insert_perm. cbn [app]. apply Permutation_middle. }
  by rewrite H.
Qed.

Lemma decryptContactRows_omap (rows : list VaultRow) (dsk : CryptoKey)
    (found : list Contact.t) (w w0 : World) :
  decryptContactRows P rows dsk found w0
  = (Ok (found ++ omap (contactOf P dsk w) rows)%list, w0).
Proof.
  revert found. induction rows as [|row rows IH]; intros found.
  - cbn. by rewrite app_nil_r.
  - cbn [decryptContactRows omap]. unfold bind at 1, try_catch, bind.
    rewrite (decryptContactRow_run row dsk w w0).
    cbn [omap list_omap]. unfold contactOf at 1.
    destruct (fst (decryptContactRow P row dsk w)) as [contact|e].
    + unfold ret at 1. rewrite IH. by rewrite <- app_assoc.
    + unfold ret at 1. by rewrite IH.
Qed.

(** X27.  [listContacts] does not reject and does not write, whatever
    the key and the stored rows are.  A row that does not decrypt or parse
    is left out: the list is made of the contacts that the rows of the
    store decrypt to, taken in key order and sorted by [updatedAt], so a
    contact is listed exactly when some stored row decrypts to it, and the
    list has at most as many contacts as the store has rows.  (A read of
    the database does not fail in this model.) *)
Theorem listContacts_total (dsk : CryptoKey) (w : World) :
  ∃ l w',
    listContacts P dsk w = (Ok l, w')
    ∧ db w' = db w
    ∧ length l ≤ size (db_contacts (db w))
    ∧ l = sortRecentFirst P (omap (contactOf P dsk w) (storeRows (db w) contacts))
    ∧ (∀ contact,
         contact ∈ l
         ↔ ∃ key row, db_contacts (db w) !! key = Some row
                      ∧ fst (decryptContactRow P row dsk w) = Ok contact).
Proof.
  unfold listContacts. cbv [bind getDb log db_getAll getStore ret CONTACTS_STORE].
  cbn [fst snd db trace store_of].
  rewrite (decryptContactRows_omap _ dsk [] w). cbn [app].
  eexists _, _. split; [reflexivity|]. split; [done|].
  fold (storeRows (db w) contacts). split_and!.
  - rewrite sortRecentFirst_length.
    etransitivity; [apply omap_length_le|]. 
    rewrite (storeRows_perm (db w) contacts), length_fmap, length_map_to_list. done.
  - done.
  - intros contact. rewrite sortRecentFirst_perm, list_elem_of_omap.
    setoid_rewrite (storeRows_perm (db w) contacts).
    setoid_rewrite list_elem_of_fmap. split.
    + intros (row & ([key row'] & -> & Hin) & Hc). apply elem_of_map_to_list in Hin.
      exists key, row'. split; [done|]. unfold contactOf in Hc. cbn [snd] in *.
      by destruct (fst (decryptContactRow P row' dsk w)); simplify_eq.
    + intros (key & row & Hrow & Hc). exists row. split.
      * exists (key, row). split; [done|]. by apply elem_of_map_to_list.
      * unfold contactOf. by rewrite Hc.
Qed.

Lemma filterContacts_matches (q : string) (all found : list Contact.t) :
  filterContacts q all = Ok found → Forall (matchesQuery q) found.
Proof.
  revert found. induction all as [|c all IH]; intros found.
  - intros [= <-]. constructor.
  - cbn [filterContacts]. unfold lowerOf.
    destruct (Contact.label c) as [| | | |label| |] eqn:Hlabel; try discriminate.
    destruct (Contact.address c) as [| | | |address| |] eqn:Haddress; try discriminate.
    cbn [rbind]. destruct (filterContacts q all) as [more|]; [|discriminate].
    cbn [rbind]. specialize (IH more eq_refl).
    destruct (includes (toLowerCase label) q || includes (toLowerCase address) q) eqn:Hin;
      intros [= <-]; [|done].
    constructor; [|done]. exists label, address. by rewrite Hlabel, Haddress.
Qed.

(** X28.  What [searchContacts] returns matches the query.  For a query
    that is not blank, every contact of a returned list has a string as
    label and a string as address, and the query, trimmed and in lower
    case, occurs in the lower-cased label or in the lower-cased address.
    The search writes nothing. *)
Theorem searchContacts_matches (dsk : CryptoKey) (query : string) (w w' : World)
    (found : list Contact.t) :
  toLowerCase (trim query) ≠ "" →
  searchContacts P dsk query w = (Ok found, w') →
  Forall (matchesQuery (toLowerCase (trim query))) found ∧ db w' = db w.
Proof.
  intros Hq. unfold searchContacts. apply String.eqb_neq in Hq. rewrite Hq.
  unfold bind. destruct (listContacts_run dsk w) as (l & w1 & -> & Hdb).
  unfold lift. intros [= Hfound <-]. split; [|done].
  by apply filterContacts_matches in Hfound.
Qed.

(** X29.  The address schema and the contact repository normalise alike:
    [safeParseAddress] accepts an input exactly when it is a string that
    [normalizeAddress] accepts, and the two give the same EIP-55 form;
    what is not a string is refused. *)
Theorem safeParseAddress_normalizeAddress (input : value) (checksummed : string) :
  safeParseAddress P getAddress input = AddressOk checksummed
  ↔ ∃ s, input = VStr s ∧ normalizeAddress P getAddress s = Ok checksummed.
Proof.
  unfold safeParseAddress, AddressSchema, normalizeAddress, refine. split.
  - destruct input as [| | | |s| |]; cbn [asString mbind option_bind]; try discriminate.
    destruct (isAddress P (trim s)) eqn:Ha; cbn [mbind option_bind negb]; [|discriminate].
    intros [= <-]. exists s. by rewrite Ha.
  - intros (s & -> & H). cbn [asString mbind option_bind].
    destruct (isAddress P (trim s)); cbn [mbind option_bind negb] in *; [|discriminate].
    by injection H as ->.
Qed.

End ContactsRepo.

(** Bob's address, padded with blanks, then in upper case: one contact. *)
Lemma createContact_once_witness :
  ∃ w1 w2,
    createContact Sample.P Mock.getAddress Sample.dskBob Sample.bobPadded "Bob" None None
      Sample.wBob
    = (Ok (createdContact Sample.P Sample.bobChecksummed "Bob" None None Sample.wBob), w1)
    ∧ size (db_contacts (db w1)) = S (size (db_contacts (db Sample.wBob)))
    ∧ createContact Sample.P Mock.getAddress Sample.dskBob Sample.bob "Robert"
        (Some "again") None w1
      = (Throw ALREADY_EXISTS, w2)
    ∧ db w2 = db w1.
Proof.
  apply (createContact_once Sample.P Mock.getAddress Sample.dskBob Sample.bobPadded
           Sample.bob "Bob" "Robert" None (Some "again") None None Sample.bobChecksummed
           Sample.wBob);
    vm_compute; reflexivity.
Defined.

(** The contact created for the padded address is found under the plain one. *)
Lemma getContactByAddress_after_create_witness :
  ∃ contact w1 w2,
    createContact Sample.P Mock.getAddress Sample.dskBob Sample.bobPadded "Bob"
      (Some "met at the conference") None Sample.wBob = (Ok contact, w1)
    ∧ getContactByAddress Sample.P Mock.getAddress Sample.dskBob Sample.bob w1
      = (Ok (Some contact), w2)
    ∧ db w2 = db w1.
Proof.
  apply (getContactByAddress_after_create Sample.P Mock.getAddress Sample.dskBob
           Sample.bobPadded Sample.bob "Bob" (Some "met at the conference") None
           Sample.bobChecksummed Sample.wBob);
    vm_compute; reflexivity.
Defined.

(** Searching Bob's contacts for "bo" finds Bob. *)
Lemma searchContacts_matches_witness :
  Forall (matchesQuery "bo")
    [createdContact Sample.P Sample.bobChecksummed "Bob" None None Sample.wBob]
  ∧ db (snd (searchContacts Sample.P Sample.dskBob " Bo " Sample.wContact))
    = db Sample.wContact.
Proof.
  apply (searchContacts_matches Sample.P Sample.dskBob " Bo " Sample.wContact
           (snd (searchContacts Sample.P Sample.dskBob " Bo " Sample.wContact))).
  - vm_compute. discriminate.
  - vm_compute. reflexivity.
Defined.

(** Bob's contact read with another key: the one row of the store is
    there, and neither the lookup nor the list gives a contact. *)
Example getContactByAddress_wrong_key :
  fst (getContactByAddress Sample.P Mock.getAddress Sample.conversationKey Sample.bob
         Sample.wContact) = Ok None
  ∧ fst (listContacts Sample.P Sample.conversationKey Sample.wContact) = Ok []
  ∧ size (db_contacts (db Sample.wContact)) = 1
  ∧ (∃ c, fst (listContacts Sample.P Sample.dskBob Sample.wContact) = Ok [c]).
Proof. vm_compute. split_and!; try reflexivity. eexists; reflexivity. Qed.

(** ** The identity key pair *)

Lemma HEX_RE_toHex (bs : bytes) : bs ≠ [] → HEX_RE (toHex bs) = true.
Proof.
  intros Hne. unfold HEX_RE. rewrite allHex_toHex.
  destruct bs as [|b bs]; [done|]. cbn [toHex].
  destruct (byteToHex_pair b) as (c & d & -> & _). unfold pair. by rewrite !append_cons.
Qed.

Section IdentityKeyPair.

Context (P : Platform) (getPublicKey : bytes → bytes).

Lemma identityKeys_fromHex_toHex (bs : bytes) : identityKeys_fromHex P (toHex bs) = inr bs.
Proof.
  unfold identityKeys_fromHex.
  rewrite toHex_length, Nat.odd_mul, allHex_toHex. cbn [Nat.odd andb negb].
  by rewrite identityKeys_fromHexLoop_hex, fromHexPairs_toHex by apply allHex_toHex.
Qed.

Lemma validateIdentityKeyRecord_written (publicKey privateKey : bytes) :
  publicKey ≠ [] → privateKey ≠ [] →
  validateIdentityKeyRecord (identityRecordValue (toHex publicKey) (toHex privateKey))
  = inr (toHex publicKey, toHex privateKey).
Proof.
  intros Hpub Hpriv. unfold validateIdentityKeyRecord, identityRecordValue.
  cbn [isObject negb prop lookupProp String.eqb Ascii.eqb Bool.eqb missingString notHex].
  rewrite !toHex_length, !HEX_RE_toHex by done.
  destruct publicKey; [done|]. destruct privateKey; [done|]. done.
Qed.

(** X30.  The identity key pair is created once.  On a vault without an
    identity row the first [getOrCreateIdentityKeyPair] generates the pair
    and stores its record encrypted under the DSK; a second call returns
    the same pair, private key bytes and public key hex, and writes
    nothing; and [getIdentityPublicKey] returns its public key. *)
Theorem getOrCreateIdentityKeyPair_stable (dsk : CryptoKey) (w : World) :
  let pair := identityAt P getPublicKey (rand_ix w) in
  let record := JSON_stringify P (identityRecord P getPublicKey (rand_ix w)) in
  db_keys (db w) !! IDENTITY_KEY_ID = None →
  identitySecret P (rand_ix w) ≠ [] →
  getPublicKey (identitySecret P (rand_ix w)) ≠ [] →
  opens P dsk (Some IDENTITY_AAD_LABEL)
    (sealedAt P dsk (Some IDENTITY_AAD_LABEL) record (S (rand_ix w))) record →
  JSON_parse P record = Some (identityRecord P getPublicKey (rand_ix w)) →
  ∃ w1 w2 w3,
    getOrCreateIdentityKeyPair P getPublicKey dsk w = (Ok (inr pair), w1)
    ∧ getOrCreateIdentityKeyPair P getPublicKey dsk w1 = (Ok (inr pair), w2)
    ∧ db w2 = db w1
    ∧ getIdentityPublicKey P dsk w1
      = (Ok (inr (Some (IdentityKeyPair.publicKey pair))), w3)
    ∧ db w3 = db w1.
Proof.
  intros pair record Hnone Hsecret Hpublic Hopen Hjson.
  unfold opens, sealedAt in Hopen. cbn [iv ciphertext default from_option] in Hopen.
  unfold Datatypes.id in Hopen.
  assert (Hdecrypt : ∀ w0,
    decryptIdentityRecord P
      (sealedAt P dsk (Some IDENTITY_AAD_LABEL) record (S (rand_ix w))) dsk w0
    = (Ok (inr (toHex (getPublicKey (identitySecret P (rand_ix w))),
                toHex (identitySecret P (rand_ix w)))), w0)).
  { intros w0. unfold decryptIdentityRecord, bind, decryptAead, sealedAt.
    cbn [iv ciphertext default from_option]. unfold Datatypes.id.
    rewrite Hopen. unfold ret at 1. rewrite Hjson. unfold identityRecord.
    by rewrite validateIdentityKeyRecord_written. }
  unfold getOrCreateIdentityKeyPair at 1.
  cbv [bind ret getDb log db_get generateX25519KeyPair drawRandom encryptAead
       randomBytes nowISO db_put setDb].
  cbn [db trace store_of rand_ix time_ix fst snd session lastUnlockAddressRef console].
  rewrite Hnone. cbn [Z.leb Z.compare db trace store_of rand_ix time_ix
    fst snd session lastUnlockAddressRef console X25519KeyPair.publicKey
    X25519KeyPair.privateKey id].
  change (Z.to_nat 12) with 12.
  eexists _, _, _. split; [reflexivity|].
  unfold getOrCreateIdentityKeyPair, getIdentityPublicKey.
  cbv [bind getDb log db_get]. cbn [db trace store_of fst snd db_keys with_store].
  rewrite !lookup_insert_eq. cbn [blob].
  fold (identitySecret P (rand_ix w)).
  fold (identityRecordValue (toHex (getPublicKey (identitySecret P (rand_ix w))))
          (toHex (identitySecret P (rand_ix w)))).
  fold (identityRecord P getPublicKey (rand_ix w)). fold record.
  fold (sealedAt P dsk (Some IDENTITY_AAD_LABEL) record (S (rand_ix w))).
  rewrite !Hdecrypt. rewrite identityKeys_fromHex_toHex. unfold ret.
  split; [reflexivity|]. split; [reflexivity|]. split; [reflexivity|]. reflexivity.
Qed.

End IdentityKeyPair.

(** Bob's identity keys: generated at the first call, read back at the
    second. *)
Lemma getOrCreateIdentityKeyPair_stable_witness :
  ∃ w1 w2 w3,
    getOrCreateIdentityKeyPair Sample.P Mock.x25519_getPublicKey Sample.dskBob Sample.wBob
    = (Ok (inr (identityAt Sample.P Mock.x25519_getPublicKey (rand_ix Sample.wBob))), w1)
    ∧ getOrCreateIdentityKeyPair Sample.P Mock.x25519_getPublicKey Sample.dskBob w1
      = (Ok (inr (identityAt Sample.P Mock.x25519_getPublicKey (rand_ix Sample.wBob))), w2)
    ∧ db w2 = db w1
    ∧ getIdentityPublicKey Sample.P Sample.dskBob w1
      = (Ok (inr (Some (IdentityKeyPair.publicKey
                          (identityAt Sample.P Mock.x25519_getPublicKey
                             (rand_ix Sample.wBob))))), w3)
    ∧ db w3 = db w1.
Proof.
  apply (getOrCreateIdentityKeyPair_stable Sample.P Mock.x25519_getPublicKey Sample.dskBob
           Sample.wBob);
    vm_compute; (reflexivity || discriminate).
Defined.
